(** * abstract_django_testcase: snapshot assertions of [AbstractTestCase]

    A shallow embedding of [src/abstract_django_testcase.py].  Python
    strings are sequences of code points, exceptions are values of [exn],
    and every operation that touches the file system, the object store or
    the class attribute [_fixture_dir] threads them explicitly. *)

From Stdlib Require Import String Ascii ZArith NArith Lia.
From stdpp Require Import gmap list.

Set Warnings "-register-all".
Local Open Scope Z_scope.

(** ** Python strings *)

(** A [str] is a sequence of Unicode code points. *)
Abbreviation pystr := (list N).

Definition str (s : string) : pystr :=
  (fix go (s : string) : pystr :=
     match s with
     | EmptyString => []
     | String c s' => N_of_ascii c :: go s'
     end) s.

Arguments str : simpl never.

Definition str_eqb (a b : pystr) : bool := bool_decide (a = b).

(** Python truthiness of a string: only the empty string is falsy. *)
Definition truthy (s : pystr) : bool :=
  match s with [] => false | _ :: _ => true end.

Fixpoint startswith (sub s : pystr) : bool :=
  match sub, s with
  | [], _ => true
  | _ :: _, [] => false
  | a :: sub', b :: s' => (a =? b)%N && startswith sub' s'
  end.

(** [s.find(sub)]: lowest index of an occurrence, [-1] when there is none. *)
Fixpoint find_from (sub s : pystr) (i : Z) : Z :=
  if startswith sub s then i
  else match s with
       | [] => -1
       | _ :: s' => find_from sub s' (i + 1)
       end.

Definition find (s sub : pystr) : Z := find_from sub s 0.

(** [s.rfind(sub)]: highest index of an occurrence, [-1] when there is none. *)
Fixpoint rfind_from (sub s : pystr) (i : Z) : Z :=
  match s with
  | [] => if startswith sub [] then i else -1
  | _ :: s' =>
      let r := rfind_from sub s' (i + 1) in
      if 0 <=? r then r else if startswith sub s then i else -1
  end.

Definition rfind (s sub : pystr) : Z := rfind_from sub s 0.

(** [s[:i]] and [s[i:]] for a non-negative index. *)
Definition slice_to (s : pystr) (i : Z) : pystr := take (Z.to_nat i) s.
Definition slice_from (s : pystr) (i : Z) : pystr := drop (Z.to_nat i) s.

(** [s.replace(old, new)]: every non-overlapping occurrence, scanning from
    the left.  [skip] counts the characters of a matched occurrence that are
    still to be stepped over. *)
Fixpoint replace_go (old new : pystr) (skip : nat) (s : pystr) : pystr :=
  match s with
  | [] => []
  | c :: s' =>
      match skip with
      | S k => replace_go old new k s'
      | O =>
          if startswith old s
          then new ++ replace_go old new (length old - 1) s'
          else c :: replace_go old new 0 s'
      end
  end.

Definition replace (s old new : pystr) : pystr :=
  match old with
  | [] => new ++ flat_map (fun c => c :: new) s
  | _ :: _ => replace_go old new 0 s
  end.

(** [s.split(sep)] for a non-empty separator: the first field and the
    fields after it. *)
Fixpoint split_go (sep : pystr) (skip : nat) (s : pystr) : pystr * list pystr :=
  match s with
  | [] => ([], [])
  | c :: s' =>
      match skip with
      | S k => split_go sep k s'
      | O =>
          if startswith sep s
          then ([], let '(f, r) := split_go sep (length sep - 1) s' in f :: r)
          else let '(f, r) := split_go sep 0 s' in (c :: f, r)
      end
  end.

Definition split (s sep : pystr) : list pystr :=
  let '(f, r) := split_go sep 0 s in f :: r.

(** [sep.join(parts)] *)
Fixpoint join (sep : pystr) (parts : list pystr) : pystr :=
  match parts with
  | [] => []
  | [p] => p
  | p :: rest => p ++ sep ++ join sep rest
  end.

(** [s.rstrip("/")] *)
Fixpoint rstrip_slash (s : pystr) : pystr :=
  match s with
  | [] => []
  | c :: s' =>
      match rstrip_slash s' with
      | [] => if (c =? 47)%N then [] else [c]
      | r => c :: r
      end
  end.

Definition all_slashes (s : pystr) : bool := forallb (fun c => (c =? 47)%N) s.

(** [posixpath.dirname] and [posixpath.basename] *)
Definition dirname (p : pystr) : pystr :=
  let i := rfind p (str "/") + 1 in
  let head := slice_to p i in
  if truthy head && negb (all_slashes head) then rstrip_slash head else head.

Definition basename (p : pystr) : pystr :=
  let i := rfind p (str "/") + 1 in
  slice_from p i.

(** ** Exceptions and results *)

Inductive errno := EEXIST | ENOENT | ENOTDIR | EISDIR.

Inductive exn :=
| ValueError (msg : pystr)
| AssertionError
| OSError (e : errno)
| IndexError
| UnicodeDecodeError
| TypeError
| RecursionError.

Inductive result (A : Type) :=
| Ok (a : A)
| Raise (e : exn).
Arguments Ok {A} a.
Arguments Raise {A} e.

Definition rbind {A B} (r : result A) (k : A -> result B) : result B :=
  match r with
  | Ok a => k a
  | Raise e => Raise e
  end.

Definition rmap {A B} (f : A -> B) (r : result A) : result B :=
  rbind r (fun a => Ok (f a)).

Definition is_ok {A} (r : result A) : bool :=
  match r with Ok _ => true | Raise _ => false end.

(** ** Locating the fixtures *)

Definition fstr_unable (filename : pystr) : pystr :=
  str "Unable to determine root tests path from " ++ filename.

(** [get_test_fixtures_dir]: [_fixture_dir] is the class attribute that
    caches the answer, [filename] is what [_get_calling_filename] returns.
    The result comes with the attribute's new value. *)
Definition attr_truthy (a : option pystr) : bool :=
  match a with
  | Some d => truthy d
  | None => false
  end.

Definition get_test_fixtures_dir (filename : pystr) (_fixture_dir : option pystr)
  : result pystr * option pystr :=
  if negb (attr_truthy _fixture_dir) then
    let pos := find filename (str "/tests") in
    if negb (0 <? pos)
    then (Raise (ValueError (fstr_unable filename)), _fixture_dir)
    else
      let d := slice_to filename pos ++ str "/tests/fixtures" in
      (Ok d, Some d)
  else (Ok (default [] _fixture_dir), _fixture_dir).

(** The loop of [_get_test_subdir]: at most [n] times, pop the first name
    and stop after the one that is ["tests"]. *)
Fixpoint pop_until_tests (n : nat) (dir_names : list pystr) : result (list pystr) :=
  match n with
  | O => Ok dir_names
  | S n' =>
      match dir_names with
      | [] => Raise IndexError
      | dir_name :: rest =>
          if str_eqb dir_name (str "tests") then Ok rest
          else pop_until_tests n' rest
      end
  end.

(** [_get_test_subdir]; [working_dir] is [settings.ROOT_DIR]. *)
Definition _get_test_subdir (working_dir filename : pystr) : result pystr :=
  let dir_names := split (dirname (replace filename working_dir [])) (str "/") in
  rmap (join (str "/")) (pop_until_tests (length dir_names) dir_names).

(** ** Values *)

(** What the embedding takes from the Python runtime: the number types it
    does not look into, [float(d)] for a [Decimal], the text [json] writes
    for a [float] ([float.__repr__], or [NaN], [Infinity], [-Infinity]),
    and [str(o)] for the objects [json.dumps] hands to [default=str]. *)
Class PyRuntime := {
  Decimal : Type;
  Float : Type;
  Other : Type;
  float_of_decimal : Decimal -> result Float;
  float_repr : Float -> pystr;
  str_decimal : Decimal -> pystr;
  str_bytes : list Byte.byte -> pystr;
  str_other : Other -> pystr;
  float_repr_chars : forall f,
    float_repr f <> [] /\
    Forall (fun c => c ∈ str "0123456789.e+-NaInfity") (float_repr f);
}.

(** [datetime.date] and [datetime.datetime] (the time zone plays no part in
    the formats used here). *)
Record date := Date { year : N; month : N; day : N }.

Record datetime := DateTime {
  dt_date : date; hour : N; minute : N; second : N; microsecond : N }.

Definition valid_date (d : date) : bool :=
  ((1 <=? year d) && (year d <=? 9999) &&
   (1 <=? month d) && (month d <=? 12) &&
   (1 <=? day d) && (day d <=? 31))%N.

Definition valid_datetime (t : datetime) : bool :=
  (valid_date (dt_date t) && (hour t <? 24) && (minute t <? 60) &&
   (second t <? 60) && (microsecond t <? 1000000))%N.

(** Decimal digits of a natural number, most significant first. *)
Fixpoint digits_go (fuel : nat) (n : N) (acc : pystr) : pystr :=
  match fuel with
  | O => acc
  | S fuel' =>
      if (n <? 10)%N then (48 + n)%N :: acc
      else digits_go fuel' (n / 10)%N ((48 + n mod 10)%N :: acc)
  end.

Definition N_repr (n : N) : pystr :=
  digits_go (S (N.to_nat (N.log2 n))) n [].

(** [int.__repr__] *)
Definition int_repr (z : Z) : pystr :=
  if z <? 0 then str "-" ++ N_repr (Z.to_N (- z)) else N_repr (Z.to_N z).

(** A field zero-padded to [width] digits, as [%m], [%d], ... print it. *)
Definition zpad (width : nat) (n : N) : pystr :=
  let d := N_repr n in
  repeat 48%N (width - length d)%nat ++ d.

(** Exactly [width] decimal digits: the last [width] digits of [n]. *)
Fixpoint fixed_digits (width : nat) (n : N) : pystr :=
  match width with
  | O => []
  | S w => fixed_digits w (n / 10)%N ++ [(48 + n mod 10)%N]
  end.

(** [strftime]: the directives the source uses, [%Y %m %d %H %M %S %f], and
    [%%]; any other character pair is copied. *)
Definition directive (t : datetime) (c : N) : option pystr :=
  if (c =? 89)%N then Some (zpad 4 (year (dt_date t)))
  else if (c =? 109)%N then Some (zpad 2 (month (dt_date t)))
  else if (c =? 100)%N then Some (zpad 2 (day (dt_date t)))
  else if (c =? 72)%N then Some (zpad 2 (hour t))
  else if (c =? 77)%N then Some (zpad 2 (minute t))
  else if (c =? 83)%N then Some (zpad 2 (second t))
  else if (c =? 102)%N then Some (zpad 6 (microsecond t))
  else if (c =? 37)%N then Some [37%N]
  else None.

Fixpoint strftime (t : datetime) (fmt : pystr) : pystr :=
  match fmt with
  | [] => []
  | c :: rest =>
      if (c =? 37)%N then
        match rest with
        | [] => [c]
        | c' :: rest' =>
            match directive t c' with
            | Some field => field ++ strftime t rest'
            | None => c :: c' :: strftime t rest'
            end
        end
      else c :: strftime t rest
  end.

(** [date.strftime] formats the date at midnight. *)
Definition date_strftime (d : date) (fmt : pystr) : pystr :=
  strftime (DateTime d 0 0 0 0) fmt.

(** [bytes.decode("utf-8")], strict: shortest forms only, no surrogates,
    nothing above U+10FFFF. *)
Definition is_cont (b : N) : bool := ((128 <=? b) && (b <? 192))%N.

Fixpoint utf8_decode_N (bs : list N) : result pystr :=
  match bs with
  | [] => Ok []
  | b0 :: r0 =>
      if (b0 <? 128)%N then rmap (cons b0) (utf8_decode_N r0)
      else if ((194 <=? b0) && (b0 <? 224))%N then
        match r0 with
        | b1 :: r1 =>
            if is_cont b1
            then rmap (cons ((b0 - 192) * 64 + (b1 - 128))%N) (utf8_decode_N r1)
            else Raise UnicodeDecodeError
        | _ => Raise UnicodeDecodeError
        end
      else if ((224 <=? b0) && (b0 <? 240))%N then
        match r0 with
        | b1 :: b2 :: r2 =>
            let cp := ((b0 - 224) * 4096 + (b1 - 128) * 64 + (b2 - 128))%N in
            if (is_cont b1 && is_cont b2 && (2048 <=? cp) &&
                negb ((55296 <=? cp) && (cp <=? 57343)))%N
            then rmap (cons cp) (utf8_decode_N r2)
            else Raise UnicodeDecodeError
        | _ => Raise UnicodeDecodeError
        end
      else if ((240 <=? b0) && (b0 <? 245))%N then
        match r0 with
        | b1 :: b2 :: b3 :: r3 =>
            let cp := ((b0 - 240) * 262144 + (b1 - 128) * 4096 +
                       (b2 - 128) * 64 + (b3 - 128))%N in
            if (is_cont b1 && is_cont b2 && is_cont b3 &&
                (65536 <=? cp) && (cp <=? 1114111))%N
            then rmap (cons cp) (utf8_decode_N r3)
            else Raise UnicodeDecodeError
        | _ => Raise UnicodeDecodeError
        end
      else Raise UnicodeDecodeError
  end.

Definition decode_utf8 (data : list Byte.byte) : result pystr :=
  utf8_decode_N (map Byte.to_N data).

Definition rmapM {A B} (f : A -> result B) : list A -> result (list B) :=
  fix go (l : list A) : result (list B) :=
    match l with
    | [] => Ok []
    | x :: l' => rbind (f x) (fun y => rmap (cons y) (go l'))
    end.

Section Values.
Context `{RT : PyRuntime}.

(** Objects without items of their own, by type; [LOther] stands for an
    instance of any type the source does not test for. *)
Inductive leaf :=
| LNone
| LBool (b : bool)
| LInt (z : Z)
| LFloat (f : Float)
| LStr (s : pystr)
| LBytes (b : list Byte.byte)
| LDecimal (d : Decimal)
| LDateTime (t : datetime)
| LDate (d : date)
| LOther (o : Other).

(** A value read through all its references: what an acyclic Python value
    looks like to a reader. *)
Inductive tree :=
| TLeaf (a : leaf)
| TTuple (ts : list tree)
| TList (ts : list tree)
| TDict (kvs : list (tree * tree)).

(** Lists and dicts are mutable objects in a store, reached through
    references; tuples and leaves are immutable.  A dict is its items in
    insertion order; keys are hashable, so they hold no reference. *)
Definition loc := positive.

Inductive value :=
| VLeaf (a : leaf)
| VTuple (vs : list value)
| VRef (l : loc).

Inductive obj :=
| OList (vs : list value)
| ODict (kvs : list (tree * value)).

Abbreviation heap := (gmap loc obj).

Definition obj_values (o : obj) : list value :=
  match o with
  | OList vs => vs
  | ODict kvs => kvs.*2
  end.

(** [data[idx] = x] on a list, [data[k] = x] on a dict for the key [k] of
    the item at position [idx]. *)
Definition obj_set (idx : nat) (x : value) (o : obj) : obj :=
  match o with
  | OList vs => OList (<[idx := x]> vs)
  | ODict kvs => ODict (alter (fun kv => (kv.1, x)) idx kvs)
  end.

(** The two loops of [_to_json_dumpable],
    [for k, v in data.items(): data[k] = f(v)] and
    [for idx, i in enumerate(data): data[idx] = f(i)]:
    both walk the items of the live object at [l] by position and store
    what [f] returns for each.  [n] bounds the number of iterations by the
    number of items at the start. *)
Fixpoint rewrite_items (f : value -> heap -> result value * heap)
    (l : loc) (n idx : nat) (h : heap) : result unit * heap :=
  match n with
  | O => (Ok tt, h)
  | S n' =>
      match h !! l with
      | Some o =>
          match obj_values o !! idx with
          | Some v =>
              match f v h with
              | (Ok x, h1) =>
                  rewrite_items f l n' (S idx) (alter (obj_set idx x) l h1)
              | (Raise e, h1) => (Raise e, h1)
              end
          | None => (Ok tt, h)
          end
      | None => (Ok tt, h)
      end
  end.

(** [_to_json_dumpable]; [depth] is the number of frames left before
    Python raises [RecursionError]. *)
Fixpoint _to_json_dumpable (depth : nat) (data : value) (h : heap)
  : result value * heap :=
  match depth with
  | O => (Raise RecursionError, h)
  | S d =>
      match data with
      | VLeaf (LDecimal x) =>
          (rmap (fun f => VLeaf (LFloat f)) (float_of_decimal x), h)
      | VLeaf (LDateTime t) =>
          (Ok (VLeaf (LStr (strftime t (str "%Y-%m-%d %H:%M:%S.%f")))), h)
      | VLeaf (LDate x) =>
          (Ok (VLeaf (LStr (date_strftime x (str "%Y-%m-%d")))), h)
      | VLeaf (LBytes b) =>
          (rmap (fun s => VLeaf (LStr s)) (decode_utf8 b), h)
      | VRef l =>
          match h !! l with
          | Some o =>
              match rewrite_items (_to_json_dumpable d) l
                      (length (obj_values o)) 0 h with
              | (Ok _, h') => (Ok data, h')
              | (Raise e, h') => (Raise e, h')
              end
          | None => (Ok data, h)
          end
      | VTuple vs =>
          let l := fresh (dom h) in
          _to_json_dumpable d (VRef l) (<[l := OList vs]> h)
      | VLeaf _ => (Ok data, h)
      end
  end.

(** *** Reading a value out of the store *)

Definition obj_tree (o : obj) (ts : list tree) : tree :=
  match o with
  | OList _ => TList ts
  | ODict kvs => TDict (zip kvs.*1 ts)
  end.

(** The tree a value unfolds to; [None] when a reference dangles or the
    unfolding is deeper than [fuel] (as for a cyclic value, at any fuel). *)
Fixpoint tree_of (fuel : nat) (h : heap) (v : value) : option tree :=
  match fuel with
  | O => None
  | S fuel' =>
      match v with
      | VLeaf a => Some (TLeaf a)
      | VTuple vs => TTuple <$> mapM (tree_of fuel' h) vs
      | VRef l =>
          match h !! l with
          | Some o => obj_tree o <$> mapM (tree_of fuel' h) (obj_values o)
          | None => None
          end
      end
  end.

(** *** Normalization as the table of the specification gives it *)

Definition normalize_leaf (a : leaf) : result leaf :=
  match a with
  | LDecimal x => rmap LFloat (float_of_decimal x)
  | LDateTime t => Ok (LStr (strftime t (str "%Y-%m-%d %H:%M:%S.%f")))
  | LDate x => Ok (LStr (date_strftime x (str "%Y-%m-%d")))
  | LBytes b => rmap LStr (decode_utf8 b)
  | _ => Ok a
  end.

Fixpoint normalize (t : tree) : result tree :=
  match t with
  | TLeaf a => rmap TLeaf (normalize_leaf a)
  | TTuple ts => rmap TList (rmapM normalize ts)
  | TList ts => rmap TList (rmapM normalize ts)
  | TDict kvs =>
      rmap TDict (rmapM (fun kv => rmap (pair kv.1) (normalize kv.2)) kvs)
  end.

End Values.

Abbreviation heap := (gmap loc obj).

(** ** Measures and relations used to state what a run does *)

Section Reading.
Context `{RT : PyRuntime}.
Open Scope nat_scope.
Implicit Types (h : heap) (v w r : value) (t : tree) (l : loc) (o : obj).

(** Number of nodes, and the number of nested calls [_to_json_dumpable]
    makes on a tree: a tuple costs one call more than a list, for the
    recursive call on [list(data)]. *)
Fixpoint size (t : tree) : nat :=
  match t with
  | TLeaf _ => 1
  | TTuple ts => S (sum_list (map size ts))
  | TList ts => S (sum_list (map size ts))
  | TDict kvs => S (sum_list (map (fun kv => size kv.2) kvs))
  end.

Fixpoint call_depth (t : tree) : nat :=
  match t with
  | TLeaf _ => 1
  | TTuple ts => S (S (max_list (map call_depth ts)))
  | TList ts => S (max_list (map call_depth ts))
  | TDict kvs => S (max_list (map (fun kv => call_depth kv.2) kvs))
  end.

(** A tree is normal when normalization returns it as it is. *)
Definition normal (t : tree) : Prop := normalize t = Ok t.

Definition denotes h v t : Prop := exists fuel, tree_of fuel h v = Some t.

(** [nearer t t']: [t'] is [t] with some of its parts already in normal
    form. *)
Definition nearer (t t' : tree) : Prop :=
  normalize t' = normalize t /\ size t' = size t /\
  call_depth t' <= call_depth t /\ (normal t -> t' = t).

(** Every value keeps a tree, nearer to its normal form. *)
Definition frame h h' : Prop :=
  forall w tw, denotes h w tw -> exists tw', denotes h' w tw' /\ nearer tw tw'.

(** Objects whose tree has more than [s] nodes are left as they are. *)
Definition untouched (s : nat) h h' : Prop :=
  forall l o T, h !! l = Some o -> denotes h (VRef l) T -> s < size T ->
                h' !! l = Some o.

(** What one call does to a value that reads as [t]: it succeeds with a value
    that reads as the normal form of [t] (the same object, of the same kind
    and keys, when it was given a list or a dict), or fails as [normalize]
    does, or runs out of frames. *)
Definition run_spec (n : nat) h v t (res : result value) h' : Prop :=
  match res with
  | Ok r =>
      exists t', normalize t = Ok t' /\ denotes h' r t' /\ call_depth t' <= n /\
                 frame h h' /\ untouched (size t) h h' /\
                 (forall l o ts, v = VRef l -> h !! l = Some o ->
                    t = obj_tree o ts -> length ts = length (obj_values o) ->
                    r = v /\
                    exists o' ts',
                      h' !! l = Some o' /\
                      (forall xs, obj_tree o' xs = obj_tree o xs) /\
                      rmapM normalize ts = Ok ts' /\
                      Forall2 (denotes h') (obj_values o') ts')
  | Raise e =>
      normalize t = Raise e \/ (e = RecursionError /\ n < call_depth t)
  end.

(** Nothing is left for [json.dumps] to convert: no decimal, date or byte
    string among the values, and no tuple. *)
Definition dumpable_leaf (a : leaf) : bool :=
  match a with
  | LBytes _ | LDecimal _ | LDateTime _ | LDate _ => false
  | _ => true
  end.

Fixpoint dumpable (t : tree) : bool :=
  match t with
  | TLeaf a => dumpable_leaf a
  | TTuple _ => false
  | TList ts => forallb dumpable ts
  | TDict kvs => forallb (fun kv => dumpable kv.2) kvs
  end.

End Reading.

(** ** [json.dumps] *)

(** The standard library's encoder, as [json.dumps] runs it for the keyword
    arguments [indent], [separators], [default] and [ensure_ascii]; the other
    arguments keep their defaults ([skipkeys=False], [allow_nan=True],
    [sort_keys=False]). *)

Definition hex_digit (n : N) : N :=
  (if n <? 10 then 48 + n else 87 + n)%N.

(** [format(n, "04x")] *)
Definition hex4 (n : N) : pystr :=
  [hex_digit (n / 4096 mod 16); hex_digit (n / 256 mod 16);
   hex_digit (n / 16 mod 16); hex_digit (n mod 16)]%N.

Definition backslash_u (n : N) : pystr := str "\u" ++ hex4 n.

(** The replacement of one character inside a JSON string: the short
    escapes, [\u00XX] for the other control characters, and, under
    [ensure_ascii], [\uXXXX] for everything outside printable ASCII (a
    surrogate pair above U+FFFF). *)
Definition escape_char (ensure_ascii : bool) (c : N) : pystr :=
  if (c =? 34)%N then [92; 34]%N
  else if (c =? 92)%N then [92; 92]%N
  else if (c =? 10)%N then str "\n"
  else if (c =? 13)%N then str "\r"
  else if (c =? 9)%N then str "\t"
  else if (c =? 8)%N then str "\b"
  else if (c =? 12)%N then str "\f"
  else if (c <? 32)%N then backslash_u c
  else if ensure_ascii && (126 <? c)%N then
    if (c <? 65536)%N then backslash_u c
    else
      let n := (c - 65536)%N in
      backslash_u (55296 + (n / 1024) mod 1024)%N ++
      backslash_u (56320 + n mod 1024)%N
  else [c].

Definition encode_basestring (ensure_ascii : bool) (s : pystr) : pystr :=
  [34%N] ++ flat_map (escape_char ensure_ascii) s ++ [34%N].

Record json_options := JsonOptions {
  indent : option nat;
  item_separator : pystr;
  key_separator : pystr;
  ensure_ascii : bool }.

(** ['\n' + _indent * level], empty when [indent] is [None]. *)
Definition newline_indent (opts : json_options) (level : nat) : pystr :=
  match indent opts with
  | Some n => [10%N] ++ repeat 32%N (n * level)
  | None => []
  end.

(** Two properties of a text: no carriage return in it; it ends, and not
    with a line feed. *)
Definition no_cr (s : pystr) : Prop := Forall (fun c => c <> 13%N) s.

Definition ends_in_text (s : pystr) : Prop :=
  exists body c, s = body ++ [c] /\ c <> 10%N.

Section Json.
Context `{RT : PyRuntime}.

(** [datetime.__str__] is [isoformat(sep=" ")]: the microseconds are left
    out when they are zero. *)
Definition str_datetime (t : datetime) : pystr :=
  if (microsecond t =? 0)%N then strftime t (str "%Y-%m-%d %H:%M:%S")
  else strftime t (str "%Y-%m-%d %H:%M:%S.%f").

(** [default=str]: what [str(o)] gives for the objects the encoder cannot
    write itself. *)
Definition default_str (a : leaf) : pystr :=
  match a with
  | LBytes b => str_bytes b
  | LDecimal d => str_decimal d
  | LDateTime t => str_datetime t
  | LDate d => date_strftime d (str "%Y-%m-%d")
  | LOther o => str_other o
  | LStr s => s
  | LNone => str "None"
  | LBool b => if b then str "True" else str "False"
  | LInt z => int_repr z
  | LFloat f => float_repr f
  end.

Definition encode_leaf (opts : json_options) (default : leaf -> pystr)
    (a : leaf) : pystr :=
  match a with
  | LStr s => encode_basestring (ensure_ascii opts) s
  | LNone => str "null"
  | LBool true => str "true"
  | LBool false => str "false"
  | LInt z => int_repr z
  | LFloat f => float_repr f
  | _ => encode_basestring (ensure_ascii opts) (default a)
  end.

(** The text of a key; [TypeError] for a key that is not [str], [int],
    [float], [bool] or [None]. *)
Definition encode_key (opts : json_options) (k : tree) : result pystr :=
  rmap (encode_basestring (ensure_ascii opts))
    match k with
    | TLeaf (LStr s) => Ok s
    | TLeaf (LFloat f) => Ok (float_repr f)
    | TLeaf (LBool true) => Ok (str "true")
    | TLeaf (LBool false) => Ok (str "false")
    | TLeaf LNone => Ok (str "null")
    | TLeaf (LInt z) => Ok (int_repr z)
    | _ => Raise TypeError
    end.

(** An array or object around its encoded items. *)
Definition bracketed (opts : json_options) (level : nat) (op cl : pystr)
    (items : list pystr) : pystr :=
  match items with
  | [] => op ++ cl
  | _ :: _ =>
      op ++ newline_indent opts (S level) ++
      join (item_separator opts ++ newline_indent opts (S level)) items ++
      newline_indent opts level ++ cl
  end.

(** [_iterencode], with the chunks joined. *)
Fixpoint iterencode (opts : json_options) (default : leaf -> pystr)
    (level : nat) (o : tree) : result pystr :=
  match o with
  | TLeaf a => Ok (encode_leaf opts default a)
  | TTuple ts =>
      rmap (bracketed opts level (str "[") (str "]"))
           (rmapM (iterencode opts default (S level)) ts)
  | TList ts =>
      rmap (bracketed opts level (str "[") (str "]"))
           (rmapM (iterencode opts default (S level)) ts)
  | TDict kvs =>
      rmap (bracketed opts level (str "{") (str "}"))
           (rmapM (fun kv =>
                     rbind (encode_key opts kv.1) (fun k =>
                     rmap (fun v => k ++ key_separator opts ++ v)
                          (iterencode opts default (S level) kv.2)))
                  kvs)
  end.

Definition json_dumps (opts : json_options) (default : leaf -> pystr)
    (o : tree) : result pystr :=
  iterencode opts default 0 o.

(** The call of [assert_equals_resultset], and the newline it appends. *)
Definition resultset_options : json_options :=
  JsonOptions (Some 4%nat) (str ",") (str ": ") false.

Definition actual_json_of (o : tree) : result pystr :=
  rmap (fun s => s ++ [10%N]) (json_dumps resultset_options default_str o).

End Json.

(** ** The file system *)

(** Files hold text; a path names a node by its components from the root
    (empty components, as in [a//b], do not count; [.] and [..] and symbolic
    links are not modelled, and relative paths start at the root). *)
Inductive node :=
| File (content : pystr)
| Dir.

Abbreviation filesystem := (gmap (list pystr) node).

Definition components (p : pystr) : list pystr :=
  filter (fun c => c <> []) (split p (str "/")).

Definition parent (c : list pystr) : list pystr := take (length c - 1) c.

(** The root is always there. *)
Definition lookup_path (fs : filesystem) (c : list pystr) : option node :=
  match c with
  | [] => Some Dir
  | _ :: _ => fs !! c
  end.

(** [os.path.exists] *)
Definition path_exists (fs : filesystem) (p : pystr) : bool :=
  truthy p &&
  match lookup_path fs (components p) with
  | Some _ => true
  | None => false
  end.

(** [os.mkdir] *)
Definition mkdir (c : list pystr) (fs : filesystem) : result unit * filesystem :=
  match lookup_path fs c with
  | Some _ => (Raise (OSError EEXIST), fs)
  | None =>
      match lookup_path fs (parent c) with
      | Some Dir => (Ok tt, <[c := Dir]> fs)
      | Some (File _) => (Raise (OSError ENOTDIR), fs)
      | None => (Raise (OSError ENOENT), fs)
      end
  end.

(** [os.makedirs(name)], on the components in reverse: make the missing
    head first (a [FileExistsError] from there is passed over), then
    [mkdir] the leaf. *)
Fixpoint makedirs_rev (rc : list pystr) (fs : filesystem)
  : result unit * filesystem :=
  match rc with
  | [] => mkdir [] fs
  | _ :: rhead =>
      let head_made :=
        match rhead with
        | [] => (Ok tt, fs)
        | _ :: _ =>
            match lookup_path fs (rev rhead) with
            | Some _ => (Ok tt, fs)
            | None => makedirs_rev rhead fs
            end
        end in
      match head_made with
      | (Ok _, fs1) => mkdir (rev rc) fs1
      | (Raise (OSError EEXIST), fs1) => mkdir (rev rc) fs1
      | (Raise e, fs1) => (Raise e, fs1)
      end
  end.

Definition makedirs (name : pystr) (fs : filesystem) : result unit * filesystem :=
  if truthy name then makedirs_rev (rev (components name)) fs
  else (Raise (OSError ENOENT), fs).

(** [_check_file_can_be_created] *)
Definition _check_file_can_be_created (filename : pystr) (fs : filesystem)
  : result unit * filesystem :=
  if negb (path_exists fs filename) then
    match makedirs (dirname filename) fs with
    | (Raise (OSError e), fs1) =>
        match e with
        | EEXIST => (Ok tt, fs1)
        | _ => (Raise (OSError e), fs1)
        end
    | r => r
    end
  else (Ok tt, fs).

(** Where [open] may create or truncate a file. *)
Definition writable (fs : filesystem) (p : pystr) : result (list pystr) :=
  if truthy p then
    let c := components p in
    match lookup_path fs c with
    | Some Dir => Raise (OSError EISDIR)
    | Some (File _) => Ok c
    | None =>
        match lookup_path fs (parent c) with
        | Some Dir => Ok c
        | Some (File _) => Raise (OSError ENOTDIR)
        | None => Raise (OSError ENOENT)
        end
    end
  else Raise (OSError ENOENT).

(** [with open(p, "w") as f: f.write(text)] *)
Definition open_write (p text : pystr) (fs : filesystem)
  : result unit * filesystem :=
  match writable fs p with
  | Ok c => (Ok tt, <[c := File text]> fs)
  | Raise e => (Raise e, fs)
  end.

(** [with open(p, "a+") as f: f.write(text)] *)
Definition open_append (p text : pystr) (fs : filesystem)
  : result unit * filesystem :=
  match writable fs p with
  | Ok c =>
      match fs !! c with
      | Some (File old) => (Ok tt, <[c := File (old ++ text)]> fs)
      | _ => (Ok tt, <[c := File text]> fs)
      end
  | Raise e => (Raise e, fs)
  end.

(** Reading in text mode turns [\r\n] and [\r] into [\n]. *)
Fixpoint universal_newlines (s : pystr) : pystr :=
  match s with
  | [] => []
  | c :: rest =>
      if (c =? 13)%N then
        match rest with
        | c' :: rest' =>
            if (c' =? 10)%N then 10%N :: universal_newlines rest'
            else 10%N :: universal_newlines rest
        | [] => [10%N]
        end
      else c :: universal_newlines rest
  end.

(** [with open(p) as f: f.read()] *)
Definition open_read (p : pystr) (fs : filesystem) : result pystr :=
  if truthy p then
    match lookup_path fs (components p) with
    | Some (File text) => Ok (universal_newlines text)
    | Some Dir => Raise (OSError EISDIR)
    | None => Raise (OSError ENOENT)
    end
  else Raise (OSError ENOENT).

(** *** Shapes of a file system *)

(** Every node but the root lies in a directory. *)
Definition closed (fs : filesystem) : Prop :=
  forall c n, fs !! c = Some n -> c <> [] /\ lookup_path fs (parent c) = Some Dir.

(** No file stands at the path [c] or above it. *)
Definition no_file_above (fs : filesystem) (c : list pystr) : Prop :=
  forall k text, lookup_path fs (take k c) <> Some (File text).

(** [fs1] is [fs] with directories added at [c] or above it. *)
Definition grows_under (c : list pystr) (fs fs1 : filesystem) : Prop :=
  forall c', fs1 !! c' = fs !! c' \/
             (fs !! c' = None /\ fs1 !! c' = Some Dir /\ exists k, c' = take k c).

(** The two shapes, as checks that run on a given file system. *)
Definition closedb (fs : filesystem) : bool :=
  forallb (fun e : list pystr * node =>
             match e.1 with
             | [] => false
             | _ :: _ =>
                 match lookup_path fs (parent e.1) with
                 | Some Dir => true
                 | _ => false
                 end
             end) (map_to_list fs).

Definition no_file_aboveb (fs : filesystem) (c : list pystr) : bool :=
  forallb (fun k => match lookup_path fs (take k c) with
                    | Some (File _) => false
                    | _ => true
                    end) (seq 0 (S (length c))).

(** ** [assert_equals_resultset] *)

(** What the call finds around it: [settings.ROOT_DIR], the file of this
    module (where [_get_calframe] and [assert_equals_resultset] run), the
    file of the test class ([inspect.getfile(cls)]), the frames of the
    callers from the innermost outwards, [shutil.which], and the number of
    frames left before [RecursionError]. *)
Record frame_info := FrameInfo {
  frame_filename : pystr;
  frame_function : pystr }.

Record env := Env {
  ROOT_DIR : pystr;
  module_file : pystr;
  class_file : pystr;
  callers : list frame_info;
  which : pystr -> option pystr;
  recursion_limit : nat }.

(** What is printed and what is handed to the shell. *)
Inductive event :=
| Print (line : pystr)
| System (command : pystr).

(** [get_resultsets_dir] *)
Definition get_resultsets_dir (filename : pystr) (_fixture_dir : option pystr)
  : result pystr * option pystr :=
  let '(r, attr) := get_test_fixtures_dir filename _fixture_dir in
  (rmap (fun d => d ++ str "/resultsets") r, attr).

(** The loop of [_get_calframe]. *)
Fixpoint first_frame (test_filename : pystr) (calframe : list frame_info)
  : result frame_info :=
  match calframe with
  | [] => Raise (ValueError (str "Unable to determine calling frame"))
  | frame :: rest =>
      if 0 <=? find (frame_filename frame) test_filename then Ok frame
      else first_frame test_filename rest
  end.

(** [_get_calframe]: the stack it inspects starts with its own frame and
    that of [assert_equals_resultset]. *)
Definition _get_calframe (E : env) (calling_filename : option pystr)
  : result frame_info :=
  let calframe :=
    FrameInfo (module_file E) (str "_get_calframe") ::
    FrameInfo (module_file E) (str "assert_equals_resultset") :: callers E in
  let test_filename :=
    if negb (attr_truthy calling_filename) then class_file E
    else default [] calling_filename in
  first_frame test_filename calframe.

(** [which(tool) is not None] *)
Definition is_not_None {A} (o : option A) : bool :=
  match o with
  | Some _ => true
  | None => false
  end.

(** The line for the first tool that [which] finds, nothing when it finds
    none. *)
Definition diff_command (E : env) (resultset_filename tmp_actual_filename : pystr)
  : pystr :=
  if is_not_None (which E (str "charm")) then
    str "charm diff " ++ resultset_filename ++ str " " ++ tmp_actual_filename ++ [10%N]
  else if is_not_None (which E (str "pycharm-community")) then
    str "pycharm-community diff " ++ resultset_filename ++ str " " ++
    tmp_actual_filename ++ [10%N]
  else if is_not_None (which E (str "meld")) then
    str "meld " ++ tmp_actual_filename ++ str " " ++ resultset_filename ++ [10%N]
  else if is_not_None (which E (str "code")) then
    str "code -d " ++ tmp_actual_filename ++ str " " ++ resultset_filename ++ [10%N]
  else [].

Section Assert.
Context `{RT : PyRuntime}.

(** Everything the call can change: the files, the objects, the class
    attribute [_fixture_dir], and what has been printed or run. *)
Record world := World {
  fs : filesystem;
  store : heap;
  fixture_dir : option pystr;
  output : list event }.

Definition M (A : Type) : Type := world -> result A * world.

Definition ret {A} (a : A) : M A := fun w => (Ok a, w).

Definition raise {A} (e : exn) : M A := fun w => (Raise e, w).

Definition bind {A B} (m : M A) (k : A -> M B) : M B :=
  fun w =>
    match m w with
    | (Ok a, w1) => k a w1
    | (Raise e, w1) => (Raise e, w1)
    end.

Notation "x <- m ;; k" := (bind m (fun x => k))
  (at level 100, m at level 99, right associativity).

Definition lift {A} (r : result A) : M A := fun w => (r, w).

Definition on_fs {A} (f : filesystem -> result A * filesystem) : M A :=
  fun w =>
    let '(r, fs1) := f (fs w) in
    (r, World fs1 (store w) (fixture_dir w) (output w)).

Definition read_fs {A} (f : filesystem -> A) : M A := fun w => (Ok (f (fs w)), w).

Definition on_attr {A} (f : option pystr -> result A * option pystr) : M A :=
  fun w =>
    let '(r, a) := f (fixture_dir w) in
    (r, World (fs w) (store w) a (output w)).

Definition on_store {A} (f : heap -> result A * heap) : M A :=
  fun w =>
    let '(r, h) := f (store w) in
    (r, World (fs w) h (fixture_dir w) (output w)).

Definition emit (e : event) : M unit :=
  fun w => (Ok tt, World (fs w) (store w) (fixture_dir w) (output w ++ [e])).

(** Lines 194-202: the text of the file, or a new file holding [{}] and
    [None]. *)
Definition load_expected (resultset_filename : pystr) : M (option pystr) :=
  file_exists <- read_fs (fun fs => path_exists fs resultset_filename) ;;
  if file_exists : bool then
    expected <- (fun w => (open_read resultset_filename (fs w), w)) ;;
    ret (Some expected)
  else
    _ <- on_fs (open_write resultset_filename (str "{}")) ;;
    ret None.

(** Lines 204-214: normalize in the store, then write out what the value
    reads as.  [json.dumps] needs a frame for every level of nesting. *)
Definition dump_actual (E : env) (actual : value) : M pystr :=
  data <- on_store (_to_json_dumpable (recursion_limit E) actual) ;;
  fun w =>
    match tree_of (recursion_limit E) (store w) data with
    | Some o => (actual_json_of o, w)
    | None => (Raise RecursionError, w)
    end.

Definition banner_failed (method_name : pystr) : pystr :=
  [10; 27]%N ++ str "[1;31m=== TEST " ++ method_name ++ str " has failed !!".

Definition banner_end (method_name : pystr) : pystr :=
  str "=== TEST " ++ method_name ++ [10; 27]%N ++ str "[0m".

(** The two paths of the handler: the dump of the actual text and the log
    of diff commands. *)
Definition tmp_actual_path (working_dir filename_noext method_name : pystr)
  : pystr :=
  working_dir ++ str "/.donotcommit_tmp/" ++
  filename_noext ++ str "-" ++ method_name ++ str "_ACTUAL.json".

Definition diff_cmd_path (working_dir : pystr) : pystr :=
  working_dir ++ str "/.donotcommit_tmp_diff_cmd".

(** What the handler prints and runs, in order. *)
Definition failure_output (E : env) (filename method_name resultset_filename
    tmp_actual_filename : pystr) : list event :=
  [Print (banner_failed method_name);
   Print (str "file: " ++ replace filename (ROOT_DIR E) []);
   System (str "diff " ++ resultset_filename ++ str " " ++ tmp_actual_filename);
   Print (banner_end method_name)].

(** Lines 218-247: the handler of the failed comparison. *)
Definition report_failure (E : env) (filename filename_noext method_name
    resultset_filename actual_json : pystr) : M unit :=
  let working_dir := ROOT_DIR E in
  let tmp_actual_filename :=
    tmp_actual_path working_dir filename_noext method_name in
  _ <- on_fs (_check_file_can_be_created tmp_actual_filename) ;;
  _ <- on_fs (open_write tmp_actual_filename actual_json) ;;
  _ <- on_fs (open_append (diff_cmd_path working_dir)
                (diff_command E resultset_filename tmp_actual_filename)) ;;
  _ <- emit (Print (banner_failed method_name)) ;;
  _ <- emit (Print (str "file: " ++ replace filename working_dir [])) ;;
  _ <- emit (System (str "diff " ++ resultset_filename ++ str " " ++
                     tmp_actual_filename)) ;;
  _ <- emit (Print (banner_end method_name)) ;;
  raise AssertionError.

(** Lines 181-191: the names the rest of the call works with, and the new
    value of [_fixture_dir]. *)
Record names := Names {
  nm_filename : pystr;
  nm_filename_noext : pystr;
  nm_method_name : pystr;
  nm_resultset_filename : pystr }.

Definition resultset_path (resultsets_dir sub_dir filename_noext method_name : pystr)
  : pystr :=
  resultsets_dir ++ str "/" ++ sub_dir ++ str "/" ++ filename_noext ++
  str "/" ++ method_name ++ str ".json".

Definition resolve_names (E : env) (calling_filename : option pystr)
    (_fixture_dir : option pystr) : result names * option pystr :=
  let filename := class_file E in
  match _get_calframe E calling_filename with
  | Raise e => (Raise e, _fixture_dir)
  | Ok calling_frame =>
      let method_name := frame_function calling_frame in
      match _get_test_subdir (ROOT_DIR E) filename with
      | Raise e => (Raise e, _fixture_dir)
      | Ok sub_dir =>
          let filename :=
            if attr_truthy calling_filename then default [] calling_filename
            else filename in
          let filename_noext := replace (basename filename) (str ".py") [] in
          let '(r, attr) := get_resultsets_dir (class_file E) _fixture_dir in
          (rmap (fun resultsets_dir =>
                   Names filename filename_noext method_name
                     (resultset_path resultsets_dir sub_dir filename_noext
                        method_name)) r,
           attr)
      end
  end.

Definition assert_equals_resultset (E : env) (actual : value)
    (calling_filename : option pystr) : M unit :=
  nm <- on_attr (resolve_names E calling_filename) ;;
  let resultset_filename := nm_resultset_filename nm in
  _ <- on_fs (_check_file_can_be_created resultset_filename) ;;
  expected <- load_expected resultset_filename ;;
  actual_json <- dump_actual E actual ;;
  if bool_decide (expected = Some actual_json) then ret tt
  else report_failure E (nm_filename nm) (nm_filename_noext nm)
         (nm_method_name nm) resultset_filename actual_json.

End Assert.

(** ** The other directories and the file assertions *)

(** [get_datasets_dir(filename)]; [calling_file] is what
    [_get_calling_filename] returns. *)
Definition get_datasets_dir (calling_file filename : pystr)
    (_fixture_dir : option pystr) : result pystr * option pystr :=
  let '(r, attr) := get_test_fixtures_dir calling_file _fixture_dir in
  (rmap (fun d => d ++ str "/datasets/" ++ filename) r, attr).

(** [get_sandbox_dir(filename=None)] *)
Definition get_sandbox_dir (calling_file : pystr) (filename : option pystr)
    (_fixture_dir : option pystr) : result pystr * option pystr :=
  let '(r, attr) := get_test_fixtures_dir calling_file _fixture_dir in
  (rmap (fun d =>
           let path := d ++ str "/sandbox" in
           match filename with
           | None => path
           | Some f => path ++ str "/" ++ f
           end) r, attr).

(** [assert_file_exists] and [assert_file_not_exists] *)
Definition assert_file_exists (filename : pystr) (fs : filesystem) : result unit :=
  if path_exists fs filename then Ok tt else Raise AssertionError.

Definition assert_file_not_exists (filename : pystr) (fs : filesystem)
  : result unit :=
  if negb (path_exists fs filename) then Ok tt else Raise AssertionError.

(** [_get_calling_method_name]: the fourth field of a frame record is the
    name of its function. *)
Definition _get_calling_method_name (frame : frame_info) : pystr :=
  frame_function frame.

(** ** Emptying the sandbox *)

(** [os.path.join(a, b)] *)
Definition os_path_join (a b : pystr) : pystr :=
  if startswith (str "/") b then b
  else if negb (truthy a) || bool_decide (last a = Some 47%N) then a ++ b
  else a ++ str "/" ++ b.

(** [os.path.isdir] *)
Definition path_isdir (fs : filesystem) (p : pystr) : bool :=
  truthy p &&
  match lookup_path fs (components p) with
  | Some Dir => true
  | _ => false
  end.

(** What the calls below can raise besides the exceptions met so far:
    [RuntimeError], and [OSError] with [ENOTEMPTY] or [EBUSY]. *)
Inductive sandbox_exn :=
| Exn (e : exn)
| RuntimeError (msg : pystr)
| OSErrorNotEmpty
| OSErrorBusy.

Inductive outcome (A : Type) :=
| Done (a : A)
| Throws (e : sandbox_exn).
Arguments Done {A} a.
Arguments Throws {A} e.

Definition of_result {A} (r : result A) : outcome A :=
  match r with
  | Ok a => Done a
  | Raise e => Throws (Exn e)
  end.

(** [_check_dir_exists] *)
Definition _check_dir_exists (directory : pystr) (fs : filesystem)
  : outcome unit :=
  if path_isdir fs directory then Done tt
  else Throws (RuntimeError (directory ++ str " does not exists")).

(** The entries of the directory at [c], each with its full path; the order
    is that of the map, as the order of [os.scandir] is that of the
    system. *)
Definition scandir (fs : filesystem) (c : list pystr)
  : list (list pystr * node) :=
  map_to_list
    (filter (fun e : list pystr * node => e.1 <> [] /\ parent e.1 = c) fs).

Definition entry_name (e : list pystr * node) : pystr := default [] (last e.1).

Definition is_dir_entry (e : list pystr * node) : bool :=
  match e.2 with Dir => true | File _ => false end.

(** [os.remove] *)
Definition os_remove (p : pystr) (fs : filesystem) : outcome unit * filesystem :=
  if truthy p then
    let c := components p in
    match lookup_path fs c with
    | Some (File _) => (Done tt, delete c fs)
    | Some Dir => (Throws (Exn (OSError EISDIR)), fs)
    | None =>
        match lookup_path fs (parent c) with
        | Some (File _) => (Throws (Exn (OSError ENOTDIR)), fs)
        | _ => (Throws (Exn (OSError ENOENT)), fs)
        end
    end
  else (Throws (Exn (OSError ENOENT)), fs).

(** [os.rmdir] *)
Definition os_rmdir (p : pystr) (fs : filesystem) : outcome unit * filesystem :=
  if truthy p then
    let c := components p in
    match c, lookup_path fs c with
    | [], _ => (Throws OSErrorBusy, fs)
    | _, Some Dir =>
        match scandir fs c with
        | [] => (Done tt, delete c fs)
        | _ :: _ => (Throws OSErrorNotEmpty, fs)
        end
    | _, Some (File _) => (Throws (Exn (OSError ENOTDIR)), fs)
    | _, None =>
        match lookup_path fs (parent c) with
        | Some (File _) => (Throws (Exn (OSError ENOTDIR)), fs)
        | _ => (Throws (Exn (OSError ENOENT)), fs)
        end
    end
  else (Throws (Exn (OSError ENOENT)), fs).

(** [for file in files: os.remove(os.path.join(root, file))] *)
Fixpoint remove_files (root : pystr) (files : list pystr) (fs : filesystem)
  : outcome unit * filesystem :=
  match files with
  | [] => (Done tt, fs)
  | file :: rest =>
      match os_remove (os_path_join root file) fs with
      | (Done _, fs1) => remove_files root rest fs1
      | (Throws e, fs1) => (Throws e, fs1)
      end
  end.

(** The sub-directories of [top], each walked in turn by [walk]. *)
Fixpoint walk_dirs (walk : pystr -> filesystem -> outcome unit * filesystem)
    (top : pystr) (dirs : list pystr) (fs : filesystem)
  : outcome unit * filesystem :=
  match dirs with
  | [] => (Done tt, fs)
  | d :: rest =>
      match walk (os_path_join top d) fs with
      | (Done _, fs1) => walk_dirs walk top rest fs1
      | (Throws e, fs1) => (Throws e, fs1)
      end
  end.

(** The loop of [_empty_dir] over [os.walk(directory, topdown=False)], from
    the directory [top] down.  [os.walk] reads the entries of [top], walks
    each sub-directory in turn, and only then hands [(top, dirs, files)] to
    the body of the loop; a [top] that cannot be read is passed over.
    [fuel] bounds the depth of the walk. *)
Fixpoint empty_walk (fuel : nat) (directory top : pystr) (fs : filesystem)
  : outcome unit * filesystem :=
  match fuel with
  | O => (Done tt, fs)
  | S fuel' =>
      if path_isdir fs top then
        let entries := scandir fs (components top) in
        let dirs :=
          entry_name <$> filter (fun e => is_dir_entry e = true) entries in
        let files :=
          entry_name <$> filter (fun e => is_dir_entry e = false) entries in
        match walk_dirs (empty_walk fuel' directory) top dirs fs with
        | (Done _, fs1) =>
            match remove_files top files fs1 with
            | (Done _, fs2) =>
                if bool_decide (top <> directory) then os_rmdir top fs2
                else (Done tt, fs2)
            | (Throws e, fs2) => (Throws e, fs2)
            end
        | (Throws e, fs1) => (Throws e, fs1)
        end
      else (Done tt, fs)
  end.

(** The walk never goes deeper than the longest path of the file system. *)
Definition walk_fuel (fs : filesystem) : nat :=
  S (max_list (length <$> (map_to_list fs).*1)).

(** [_empty_dir] *)
Definition _empty_dir (directory : pystr) (fs : filesystem)
  : outcome unit * filesystem :=
  match _check_dir_exists directory fs with
  | Throws e => (Throws e, fs)
  | Done _ => empty_walk (walk_fuel fs) directory directory fs
  end.

(** [clean_sandbox]: [get_sandbox_dir()] is called for the test, for
    [os.makedirs] and for [_empty_dir]; the result comes with the new value
    of [_fixture_dir]. *)
Definition clean_sandbox_empty (calling_file : pystr)
    (_fixture_dir : option pystr) (fs : filesystem)
  : outcome unit * option pystr * filesystem :=
  match get_sandbox_dir calling_file None _fixture_dir with
  | (Raise e, attr) => (Throws (Exn e), attr, fs)
  | (Ok sandbox, attr) =>
      let '(r, fs1) := _empty_dir sandbox fs in (r, attr, fs1)
  end.

Definition clean_sandbox (calling_file : pystr) (_fixture_dir : option pystr)
    (fs : filesystem) : outcome unit * option pystr * filesystem :=
  match get_sandbox_dir calling_file None _fixture_dir with
  | (Raise e, attr) => (Throws (Exn e), attr, fs)
  | (Ok sandbox, attr) =>
      if negb (path_exists fs sandbox) then
        match get_sandbox_dir calling_file None attr with
        | (Raise e, attr1) => (Throws (Exn e), attr1, fs)
        | (Ok sandbox1, attr1) =>
            match makedirs sandbox1 fs with
            | (Raise e, fs1) => (Throws (Exn e), attr1, fs1)
            | (Ok _, fs1) => clean_sandbox_empty calling_file attr1 fs1
            end
        end
      else clean_sandbox_empty calling_file attr fs
  end.

(** Names of files and directories hold no slash and are not empty. *)
Definition wf_names (fs : filesystem) : Prop :=
  forall k n, fs !! k = Some n ->
              Forall (fun x : pystr => x <> [] /\ 47%N ∉ x) k.

Definition wf_namesb (fs : filesystem) : bool :=
  forallb (fun e : list pystr * node =>
             forallb (fun x : pystr =>
                        truthy x && negb (bool_decide (47%N ∈ x))) e.1)
          (map_to_list fs).

(** ** Facts about [rmapM] *)

Lemma rmapM_Ok {A B} (f : A -> result B) l k :
  rmapM f l = Ok k <-> Forall2 (fun x y => f x = Ok y) l k.
Proof.
  revert k. induction l as [|x l IH]; intros k; simpl.
  - split.
    + intros [= <-]. constructor.
    + intros Hk. inversion Hk. reflexivity.
  - destruct (f x) as [y|e] eqn:Hx; simpl.
    + destruct (rmapM f l) as [k'|e] eqn:Hl; simpl.
      * split.
        -- intros [= <-]. constructor; [exact Hx | by apply IH].
        -- intros Hk. inversion Hk as [|? y' ? k'' Hy Hk']; subst.
           apply IH in Hk'. congruence.
      * split; [discriminate|].
        intros Hk. inversion Hk as [|? y' ? k'' Hy Hk']; subst.
        apply IH in Hk'. discriminate.
    + split; [discriminate|].
      intros Hk. inversion Hk; subst. congruence.
Qed.

Lemma rmapM_agree {A A' B} (f : A -> result B) (g : A' -> result B) l l' :
  Forall2 (fun a b => f a = g b) l l' -> rmapM f l = rmapM g l'.
Proof.
  induction 1 as [|a b l l' Hab _ IH]; simpl; [reflexivity|].
  rewrite Hab, IH. reflexivity.
Qed.

Lemma rmapM_length {A B} (f : A -> result B) l k :
  rmapM f l = Ok k -> length k = length l.
Proof. intros H%rmapM_Ok. symmetry. by eapply Forall2_length. Qed.

Section Trees.
Context `{RT : PyRuntime}.
Open Scope nat_scope.

(** Induction over a tree and the values below it (keys are not visited). *)
Lemma tree_values_ind (P : tree -> Prop) :
  (forall a, P (TLeaf a)) ->
  (forall ts, Forall P ts -> P (TTuple ts)) ->
  (forall ts, Forall P ts -> P (TList ts)) ->
  (forall kvs, Forall (fun kv => P kv.2) kvs -> P (TDict kvs)) ->
  forall t, P t.
Proof.
  intros Hleaf Htuple Hlist Hdict.
  fix IH 1. intros [a|ts|ts|kvs].
  - apply Hleaf.
  - apply Htuple. induction ts as [|t ts IHts]; constructor; [apply IH | exact IHts].
  - apply Hlist. induction ts as [|t ts IHts]; constructor; [apply IH | exact IHts].
  - apply Hdict. induction kvs as [|[k v] kvs IHkvs]; constructor;
      [apply IH | exact IHkvs].
Qed.

Lemma normalize_leaf_idem a b :
  normalize_leaf a = Ok b -> normalize_leaf b = Ok b.
Proof.
  destruct a; simpl; try (intros [= <-]; reflexivity).
  - destruct (decode_utf8 b0); simpl; [intros [= <-]; reflexivity | discriminate].
  - destruct (float_of_decimal d); simpl; [intros [= <-]; reflexivity | discriminate].
Qed.

Lemma rmap_Ok {A B} (f : A -> B) (r : result A) b :
  rmap f r = Ok b <-> exists a, r = Ok a /\ b = f a.
Proof.
  destruct r as [a|e]; simpl.
  - split; [intros [= <-]; eauto | intros (a' & [= <-] & ->); reflexivity].
  - split; [discriminate | intros (a' & [=] & _)].
Qed.

Lemma normalize_results t t' :
  normalize t = Ok t' -> normal t' /\ size t' = size t /\ call_depth t' <= call_depth t.
Proof.
  revert t'. induction t as [a|ts IH|ts IH|kvs IH] using tree_values_ind; intros t'; simpl.
  - intros (b & Hb & ->)%rmap_Ok. unfold normal; simpl.
    rewrite (normalize_leaf_idem _ _ Hb). simpl. auto with lia.
  - intros (ts' & Hts & ->)%rmap_Ok. apply rmapM_Ok in Hts.
    assert (Forall2 (fun a b => normal b /\ size b = size a /\
                                (call_depth b <= call_depth a)%nat) ts ts') as H.
    { clear -IH Hts. induction Hts; inversion IH; subst; constructor; auto. }
    clear IH Hts. unfold normal; simpl.
    assert (rmapM normalize ts' = Ok ts' /\
            sum_list (map size ts') = sum_list (map size ts) /\
            (max_list (map call_depth ts') <= max_list (map call_depth ts))%nat)
      as (-> & -> & Hd).
    { induction H as [|a b l l' (Hn & Hs & Hc) _ (IH1 & IH2 & IH3)]; simpl;
        [auto|]. unfold normal in Hn. rewrite Hn, IH1. simpl. split; [done|]. lia. }
    simpl. split; [done|]. lia.
  - intros (ts' & Hts & ->)%rmap_Ok. apply rmapM_Ok in Hts.
    assert (Forall2 (fun a b => normal b /\ size b = size a /\
                                (call_depth b <= call_depth a)%nat) ts ts') as H.
    { clear -IH Hts. induction Hts; inversion IH; subst; constructor; auto. }
    clear IH Hts. unfold normal; simpl.
    assert (rmapM normalize ts' = Ok ts' /\
            sum_list (map size ts') = sum_list (map size ts) /\
            (max_list (map call_depth ts') <= max_list (map call_depth ts))%nat)
      as (-> & -> & Hd).
    { induction H as [|a b l l' (Hn & Hs & Hc) _ (IH1 & IH2 & IH3)]; simpl;
        [auto|]. unfold normal in Hn. rewrite Hn, IH1. simpl. split; [done|]. lia. }
    simpl. split; [done|]. lia.
  - intros (kvs' & Hkvs & ->)%rmap_Ok. apply rmapM_Ok in Hkvs.
    assert (Forall2 (fun a b => b.1 = a.1 /\ normal b.2 /\ size b.2 = size a.2 /\
                                (call_depth b.2 <= call_depth a.2)%nat) kvs kvs') as H.
    { clear -IH Hkvs. induction Hkvs as [|a b l l' Hab _ IHl];
        inversion IH; subst; constructor; auto.
      apply rmap_Ok in Hab as (v' & Hv & ->). simpl. split; [done|]. auto. }
    clear IH Hkvs. unfold normal; simpl.
    assert (rmapM (fun kv => rmap (pair kv.1) (normalize kv.2)) kvs' = Ok kvs' /\
            sum_list (map (fun kv => size kv.2) kvs') =
              sum_list (map (fun kv => size kv.2) kvs) /\
            (max_list (map (fun kv => call_depth kv.2) kvs') <=
               max_list (map (fun kv => call_depth kv.2) kvs))%nat)
      as (-> & -> & Hd).
    { induction H as [|a [k v] l l' (Hk & Hn & Hs & Hc) _ (IH1 & IH2 & IH3)]; simpl;
        [auto|]. simpl in *. unfold normal in Hn. rewrite Hn, IH1. simpl.
        split; [done|]. lia. }
    simpl. split; [done|]. lia.
Qed.

End Trees.

(** ** What a value denotes in a store *)

Section Denotation.
Context `{RT : PyRuntime}.
Open Scope nat_scope.
Implicit Types (h : heap) (v w r : value) (t : tree) (l : loc) (o : obj).

Lemma tree_of_mono fuel fuel' h v t :
  fuel <= fuel' -> tree_of fuel h v = Some t -> tree_of fuel' h v = Some t.
Proof.
  revert fuel' v t. induction fuel as [|f IH]; intros [|f'] v t Hle; simpl;
    try done; try lia.
  assert (forall vs ts, mapM (tree_of f h) vs = Some ts ->
                        mapM (tree_of f' h) vs = Some ts) as HM.
  { intros vs ts H%mapM_Some. apply mapM_Some.
    eapply Forall2_impl; [exact H|]. intros; apply IH; [lia|done]. }
  destruct v as [a|vs|l]; [done| |].
  - destruct (mapM (tree_of f h) vs) eqn:E; [|done].
    rewrite (HM _ _ E). done.
  - destruct (h !! l) as [o|]; [|done].
    destruct (mapM (tree_of f h) (obj_values o)) eqn:E; [|done].
    rewrite (HM _ _ E). done.
Qed.

Lemma denotes_inj h v t t' : denotes h v t -> denotes h v t' -> t = t'.
Proof.
  intros [f1 H1] [f2 H2].
  apply (tree_of_mono _ (f1 `max` f2)) in H1; [|lia].
  apply (tree_of_mono _ (f1 `max` f2)) in H2; [|lia]. congruence.
Qed.

Lemma denotes_all h vs ts :
  Forall2 (denotes h) vs ts <-> exists fuel, mapM (tree_of fuel h) vs = Some ts.
Proof.
  split.
  - induction 1 as [|v t vs ts [f1 H1] _ [f2 H2]].
    + exists 0. done.
    + exists (f1 `max` f2). apply mapM_Some. constructor.
      * eapply tree_of_mono; [|exact H1]. lia.
      * apply mapM_Some in H2. eapply Forall2_impl; [exact H2|].
        intros ? ? Hx. simpl in Hx. eapply tree_of_mono; [|exact Hx]. lia.
  - intros [f H%mapM_Some]. eapply Forall2_impl; [exact H|].
    intros ? ? ?. by exists f.
Qed.

Lemma denotes_leaf h a t : denotes h (VLeaf a) t <-> t = TLeaf a.
Proof.
  split.
  - intros [[|f] H]; simpl in H; congruence.
  - intros ->. by exists 1.
Qed.

Lemma denotes_tuple h vs t :
  denotes h (VTuple vs) t <->
  exists ts, Forall2 (denotes h) vs ts /\ t = TTuple ts.
Proof.
  split.
  - intros [[|f] H]; simpl in H; [done|].
    destruct (mapM (tree_of f h) vs) as [ts|] eqn:E; [|done].
    exists ts. split; [apply denotes_all; eauto | by injection H].
  - intros (ts & [f H]%denotes_all & ->). exists (S f). simpl. by rewrite H.
Qed.

Lemma denotes_ref h l t :
  denotes h (VRef l) t <->
  exists o ts, h !! l = Some o /\ Forall2 (denotes h) (obj_values o) ts /\
               t = obj_tree o ts.
Proof.
  split.
  - intros [[|f] H]; simpl in H; [done|].
    destruct (h !! l) as [o|]; [|done].
    destruct (mapM (tree_of f h) (obj_values o)) as [ts|] eqn:E; [|done].
    exists o, ts. split; [done|]. split; [apply denotes_all; eauto | by injection H].
  - intros (o & ts & Hl & [f H]%denotes_all & ->). exists (S f). simpl.
    by rewrite Hl, H.
Qed.

(** Induction over the unfolding of a value. *)
Lemma denotes_ind h (P : value -> tree -> Prop) :
  (forall a, P (VLeaf a) (TLeaf a)) ->
  (forall vs ts, Forall2 (denotes h) vs ts -> Forall2 P vs ts ->
                 P (VTuple vs) (TTuple ts)) ->
  (forall l o ts, h !! l = Some o ->
                  Forall2 (denotes h) (obj_values o) ts ->
                  Forall2 P (obj_values o) ts -> P (VRef l) (obj_tree o ts)) ->
  forall v t, denotes h v t -> P v t.
Proof.
  intros Hleaf Htuple Href v t [f H]. revert v t H.
  induction f as [|f IH]; intros v t H; simpl in H; [done|].
  assert (forall vs ts, mapM (tree_of f h) vs = Some ts ->
            Forall2 (denotes h) vs ts /\ Forall2 P vs ts) as HM.
  { intros vs ts E. split; [apply denotes_all; eauto|].
    apply mapM_Some in E. eapply Forall2_impl; [exact E|]. apply IH. }
  destruct v as [a|vs|l].
  - injection H as <-. apply Hleaf.
  - destruct (mapM (tree_of f h) vs) as [ts|] eqn:E; [|done].
    injection H as <-. apply Htuple; by apply HM.
  - destruct (h !! l) as [o|] eqn:Hl; [|done].
    destruct (mapM (tree_of f h) (obj_values o)) as [ts|] eqn:E; [|done].
    injection H as <-. apply Href; [done|by apply HM..].
Qed.

Lemma denotes_weaken h h' v t : h ⊆ h' -> denotes h v t -> denotes h' v t.
Proof.
  intros Hsub. revert v t. apply denotes_ind.
  - intros a. by apply denotes_leaf.
  - intros vs ts _ IH. apply denotes_tuple. eauto.
  - intros l o ts Hl _ IH. apply denotes_ref. exists o, ts.
    split; [by eapply lookup_weaken|]. done.
Qed.

End Denotation.

(** ** Trees of objects, and trees that are partly normalized *)

Section Nearer.
Context `{RT : PyRuntime}.
Open Scope nat_scope.
Implicit Types (h : heap) (v w r : value) (t : tree) (l : loc) (o : obj).

Lemma zip_rmapM (ks ts : list tree) :
  length ks = length ts ->
  rmapM (fun kv => rmap (pair kv.1) (normalize kv.2)) (zip ks ts)
  = rmap (zip ks) (rmapM normalize ts).
Proof.
  revert ts. induction ks as [|k ks IH]; intros [|t ts] Hlen; simpl in *;
    try done.
  destruct (normalize t); simpl; [|done].
  rewrite IH by lia. destruct (rmapM normalize ts); done.
Qed.

Lemma obj_values_length_keys (kvs : list (tree * value)) (ts : list tree) :
  length ts = length (obj_values (ODict kvs)) -> length kvs.*1 = length ts.
Proof. simpl. rewrite !length_fmap. done. Qed.

Lemma obj_tree_normalize o ts :
  length ts = length (obj_values o) ->
  normalize (obj_tree o ts) = rmap (obj_tree o) (rmapM normalize ts).
Proof.
  destruct o as [vs|kvs]; intros Hlen; simpl; [done|].
  rewrite zip_rmapM by by apply obj_values_length_keys.
  destruct (rmapM normalize ts); done.
Qed.

Lemma obj_tree_size o ts :
  length ts = length (obj_values o) ->
  size (obj_tree o ts) = S (sum_list (map size ts)).
Proof.
  destruct o as [vs|kvs]; intros Hlen; simpl; [done|].
  f_equal. f_equal. rewrite <- (snd_zip kvs.*1 ts) at 2.
  - by rewrite <- list_fmap_compose.
  - apply obj_values_length_keys in Hlen. lia.
Qed.

Lemma obj_tree_call_depth o ts :
  length ts = length (obj_values o) ->
  call_depth (obj_tree o ts) = S (max_list (map call_depth ts)).
Proof.
  destruct o as [vs|kvs]; intros Hlen; simpl; [done|].
  f_equal. f_equal. rewrite <- (snd_zip kvs.*1 ts) at 2.
  - by rewrite <- list_fmap_compose.
  - apply obj_values_length_keys in Hlen. lia.
Qed.

Lemma obj_tree_inj o ts ts' :
  length ts = length (obj_values o) -> length ts' = length (obj_values o) ->
  obj_tree o ts = obj_tree o ts' -> ts = ts'.
Proof.
  destruct o as [vs|kvs]; intros H1 H2; simpl; [congruence|].
  intros [= Hz]. apply obj_values_length_keys in H1, H2.
  rewrite <- (snd_zip kvs.*1 ts), <- (snd_zip kvs.*1 ts'), Hz by lia. done.
Qed.

Lemma obj_values_set idx x o :
  obj_values (obj_set idx x o) = <[idx := x]> (obj_values o).
Proof.
  destruct o as [vs|kvs]; simpl; [done|].
  revert idx. induction kvs as [|[k v] kvs IH]; intros [|idx]; simpl; try done.
  f_equal. apply IH.
Qed.

Lemma obj_tree_set idx x o ts : obj_tree (obj_set idx x o) ts = obj_tree o ts.
Proof.
  destruct o as [vs|kvs]; simpl; [done|]. do 2 f_equal.
  revert idx. induction kvs as [|[k v] kvs IH]; intros [|idx]; simpl; try done.
  f_equal. apply IH.
Qed.

Lemma size_pos t : 0 < size t.
Proof. destruct t; simpl; lia. Qed.

Lemma call_depth_pos t : 0 < call_depth t.
Proof. destruct t; simpl; lia. Qed.

Lemma size_elem t ts : t ∈ ts -> size t <= sum_list (map size ts).
Proof. induction 1; simpl; lia. Qed.

Lemma call_depth_elem t ts : t ∈ ts -> call_depth t <= max_list (map call_depth ts).
Proof. induction 1; simpl; lia. Qed.

Lemma nearer_refl t : nearer t t.
Proof. unfold nearer. auto. Qed.

Lemma nearer_trans t1 t2 t3 : nearer t1 t2 -> nearer t2 t3 -> nearer t1 t3.
Proof.
  intros (Hn & Hs & Hd & He) (Hn' & Hs' & Hd' & He'). unfold nearer.
  split; [congruence|]. split; [congruence|]. split; [lia|].
  intros H1. specialize (He H1). subst t2. auto.
Qed.

Lemma nearer_normalized t t' : normalize t = Ok t' -> nearer t t'.
Proof.
  intros H. destruct (normalize_results _ _ H) as (Hn & Hs & Hd).
  unfold nearer. split; [unfold normal in Hn; congruence|].
  split; [done|]. split; [done|]. unfold normal. congruence.
Qed.

Lemma nearer_normal t t' : nearer t t' -> normal t -> t' = t.
Proof. intros (_ & _ & _ & H). exact H. Qed.

Lemma nearer_all_trans (ts1 ts2 ts3 : list tree) :
  Forall2 nearer ts1 ts2 -> Forall2 nearer ts2 ts3 -> Forall2 nearer ts1 ts3.
Proof.
  intros H. revert ts3. induction H; intros ts3 H3; inversion H3; subst;
    constructor; eauto using nearer_trans.
Qed.

Lemma nearer_all_refl (ts : list tree) : Forall2 nearer ts ts.
Proof. induction ts; constructor; auto using nearer_refl. Qed.

Lemma nearer_all_sums (ts ts' : list tree) :
  Forall2 nearer ts ts' ->
  rmapM normalize ts' = rmapM normalize ts /\
  sum_list (map size ts') = sum_list (map size ts) /\
  max_list (map call_depth ts') <= max_list (map call_depth ts) /\
  (Forall normal ts -> ts' = ts).
Proof.
  induction 1 as [|t t' ts ts' (Hn & Hs & Hd & He) _ (IH1 & IH2 & IH3 & IH4)];
    simpl; [auto|].
  rewrite Hn, IH1. split; [done|]. split; [lia|]. split; [lia|].
  intros Hall. inversion Hall; subst. f_equal; auto.
Qed.

Lemma rmapM_normal (ts : list tree) : rmapM normalize ts = Ok ts <-> Forall normal ts.
Proof.
  rewrite rmapM_Ok. split.
  - intros H. apply Forall2_same_length_lookup in H as [_ H].
    apply Forall_lookup. intros i t Hi. eapply H; eauto.
  - intros H. apply Forall2_same_length_lookup. split; [done|].
    intros i t t' Hi Hi'. rewrite Hi in Hi'. injection Hi' as <-.
    eapply Forall_lookup in H; eauto.
Qed.

Lemma nearer_obj_tree o ts ts' :
  length ts = length (obj_values o) -> Forall2 nearer ts ts' ->
  nearer (obj_tree o ts) (obj_tree o ts').
Proof.
  intros Hlen H. assert (length ts' = length (obj_values o)) as Hlen'.
  { apply Forall2_length in H. lia. }
  destruct (nearer_all_sums _ _ H) as (Hn & Hs & Hd & He).
  unfold nearer. rewrite !obj_tree_normalize, !obj_tree_size, !obj_tree_call_depth by done.
  rewrite Hn, Hs. split; [done|]. split; [done|]. split; [lia|].
  unfold normal. rewrite obj_tree_normalize by done.
  intros (ts2 & Hts2 & Heq)%rmap_Ok.
  apply obj_tree_inj in Heq; [|done|]; last first.
  { apply rmapM_length in Hts2. lia. }
  subst ts2. apply rmapM_normal in Hts2. by rewrite (He Hts2).
Qed.

Lemma nearer_tuple ts ts' :
  Forall2 nearer ts ts' -> nearer (TTuple ts) (TTuple ts').
Proof.
  intros H. destruct (nearer_all_sums _ _ H) as (Hn & Hs & Hd & He).
  unfold nearer. simpl. rewrite Hn, Hs. split; [done|]. split; [done|].
  split; [lia|]. unfold normal. simpl.
  intros (ts2 & _ & [=])%rmap_Ok.
Qed.

End Nearer.

(** ** How a run of [_to_json_dumpable] changes the store *)

Section Frames.
Context `{RT : PyRuntime}.
Open Scope nat_scope.
Implicit Types (h : heap) (v w r : value) (t : tree) (l : loc) (o : obj).

Lemma frame_refl h : frame h h.
Proof. intros w tw H. exists tw. auto using nearer_refl. Qed.

Lemma frame_trans h1 h2 h3 : frame h1 h2 -> frame h2 h3 -> frame h1 h3.
Proof.
  intros H12 H23 w tw H. destruct (H12 _ _ H) as (tw2 & H2 & Hn2).
  destruct (H23 _ _ H2) as (tw3 & H3 & Hn3). exists tw3.
  eauto using nearer_trans.
Qed.

Lemma untouched_refl s h : untouched s h h.
Proof. intros l o T Hl _ _. exact Hl. Qed.

Lemma untouched_mono s s' h h' : s <= s' -> untouched s h h' -> untouched s' h h'.
Proof. intros Hle H l o T Hl HT Hs. eapply H; eauto. lia. Qed.

Lemma untouched_trans s h1 h2 h3 :
  frame h1 h2 -> untouched s h1 h2 -> untouched s h2 h3 -> untouched s h1 h3.
Proof.
  intros Hf H12 H23 l o T Hl HT Hs.
  destruct (Hf _ _ HT) as (T2 & HT2 & (_ & Hsz & _)).
  eapply H23; [by eapply H12 | exact HT2 | lia].
Qed.

Lemma frame_all h h' vs ts :
  frame h h' -> Forall2 (denotes h) vs ts ->
  exists ts', Forall2 (denotes h') vs ts' /\ Forall2 nearer ts ts'.
Proof.
  intros Hf. induction 1 as [|v t vs ts Hv _ (ts' & IH1 & IH2)].
  - exists []. split; constructor.
  - destruct (Hf _ _ Hv) as (t' & Ht' & Hn). exists (t' :: ts').
    split; constructor; done.
Qed.

Lemma Forall2_exists_nearer (P : value -> tree -> Prop) vs ts :
  Forall2 (fun v t => exists t', P v t' /\ nearer t t') vs ts ->
  exists ts', Forall2 P vs ts' /\ Forall2 nearer ts ts'.
Proof.
  induction 1 as [|v t vs ts (t' & Ht' & Hn) _ (ts' & IH1 & IH2)].
  - exists []. split; constructor.
  - exists (t' :: ts'). split; constructor; done.
Qed.

(** A value smaller than the object at [l] does not reach [l], so it reads
    the same whatever is stored there. *)
Lemma denotes_insert_small h l o2 T v t :
  denotes h (VRef l) T -> denotes h v t -> size t < size T ->
  denotes (<[l := o2]> h) v t.
Proof.
  intros HT Hv. revert v t Hv.
  apply (denotes_ind h (fun v t => size t < size T -> denotes (<[l:=o2]> h) v t)).
  - intros a _. by apply denotes_leaf.
  - intros vs ts _ IH Hs. apply denotes_tuple. exists ts. split; [|done].
    simpl in Hs. apply Forall2_same_length_lookup.
    split; [by eapply Forall2_length|].
    intros i v t Hv Ht. eapply Forall2_lookup_lr in IH; eauto. apply IH.
    pose proof (size_elem t ts (list_elem_of_lookup_2 _ _ _ Ht)). lia.
  - intros l' o ts Hl' Hden IH Hs.
    assert (length ts = length (obj_values o)) as Hlen.
    { symmetry. by eapply Forall2_length. }
    destruct (decide (l' = l)) as [->|Hne].
    + assert (obj_tree o ts = T) as <-.
      { eapply denotes_inj; [|exact HT]. apply denotes_ref. eauto. }
      lia.
    + apply denotes_ref. exists o, ts. rewrite lookup_insert_ne by done.
      split; [done|]. split; [|done].
      rewrite obj_tree_size in Hs by done.
      apply Forall2_same_length_lookup. split; [by eapply Forall2_length|].
      intros i v t Hv Ht. eapply Forall2_lookup_lr in IH; eauto. apply IH.
      pose proof (size_elem t ts (list_elem_of_lookup_2 _ _ _ Ht)). lia.
Qed.

(** Storing into the object at [l] values whose trees are nearer than the
    ones they replace. *)
Lemma frame_store h l o o2 ts ts2 :
  h !! l = Some o ->
  (forall xs, obj_tree o2 xs = obj_tree o xs) ->
  Forall2 (denotes h) (obj_values o) ts ->
  Forall2 (denotes h) (obj_values o2) ts2 ->
  Forall2 nearer ts ts2 ->
  frame h (<[l := o2]> h) /\
  Forall2 (denotes (<[l := o2]> h)) (obj_values o2) ts2.
Proof.
  intros Hl Hshape Hts Hts2 Hn.
  assert (length ts = length (obj_values o)) as Hlen.
  { symmetry. by eapply Forall2_length. }
  assert (denotes h (VRef l) (obj_tree o ts)) as HT.
  { apply denotes_ref. eauto. }
  assert (Forall2 (denotes (<[l := o2]> h)) (obj_values o2) ts2) as Hnew.
  { apply Forall2_same_length_lookup. split; [by eapply Forall2_length|].
    intros i v t2 Hv Ht2.
    eapply denotes_insert_small; [exact HT| by eapply Forall2_lookup_lr |].
    destruct (Forall2_lookup_r _ _ _ _ _ Hn Ht2) as (t & Ht & (_ & Hsz & _)).
    rewrite obj_tree_size by done.
    pose proof (size_elem t ts (list_elem_of_lookup_2 _ _ _ Ht)). lia. }
  split; [|exact Hnew]. unfold frame.
  apply (denotes_ind h (fun w tw =>
           exists tw', denotes (<[l:=o2]> h) w tw' /\ nearer tw tw')).
  - intros a. exists (TLeaf a). split; [by apply denotes_leaf | apply nearer_refl].
  - intros vs xs _ IH. apply Forall2_exists_nearer in IH as (xs' & IH1 & IH2).
    exists (TTuple xs'). split; [apply denotes_tuple; eauto | by apply nearer_tuple].
  - intros l' o' xs Hl' Hden IH.
    destruct (decide (l' = l)) as [->|Hne].
    + assert (o' = o) as -> by congruence.
      assert (xs = ts) as ->.
      { eapply obj_tree_inj; [symmetry; by eapply Forall2_length | done |].
        eapply denotes_inj; [|exact HT]. apply denotes_ref. eauto. }
      exists (obj_tree o2 ts2). split.
      * apply denotes_ref. exists o2, ts2. by rewrite lookup_insert_eq.
      * rewrite Hshape. by apply nearer_obj_tree.
    + apply Forall2_exists_nearer in IH as (xs' & IH1 & IH2).
      exists (obj_tree o' xs'). split.
      * apply denotes_ref. exists o', xs'. by rewrite lookup_insert_ne.
      * apply nearer_obj_tree; [symmetry; by eapply Forall2_length | done].
Qed.

End Frames.

(** ** The run of [_to_json_dumpable] against the table *)

Section Run.
Context `{RT : PyRuntime}.
Open Scope nat_scope.
Implicit Types (h : heap) (v w r : value) (t : tree) (l : loc) (o : obj).

Lemma rmapM_first_raise (ts : list tree) idx t e :
  (forall j x, j < idx -> ts !! j = Some x -> normal x) ->
  ts !! idx = Some t -> normalize t = Raise e ->
  rmapM normalize ts = Raise e.
Proof.
  revert ts. induction idx as [|idx IH]; intros [|x ts] Hpre Hidx He;
    simpl in *; try done.
  - injection Hidx as ->. by rewrite He.
  - assert (normalize x = Ok x) as -> by (apply (Hpre 0 x); [lia|done]). simpl.
    rewrite (IH ts); [done| |done..].
    intros j y Hj Hy. apply (Hpre (S j) y); [lia|done].
Qed.

Lemma untouched_store s h l o o2 T :
  h !! l = Some o -> denotes h (VRef l) T -> size T <= s ->
  untouched s h (<[l := o2]> h).
Proof.
  intros Hl HT Hs l' o' T' Hl' HT' Hs'.
  destruct (decide (l' = l)) as [->|Hne].
  - rewrite (denotes_inj _ _ _ _ HT HT') in Hs. lia.
  - by rewrite lookup_insert_ne.
Qed.

Section Loop.
Variable d : nat.
Hypothesis IHd : forall v h t res h',
  denotes h v t -> _to_json_dumpable d v h = (res, h') -> run_spec d h v t res h'.

Lemma rewrite_items_spec k : forall idx h l o ts res h',
  h !! l = Some o ->
  Forall2 (denotes h) (obj_values o) ts ->
  idx + k = length ts ->
  (forall j t, j < idx -> ts !! j = Some t -> normal t /\ call_depth t <= d) ->
  rewrite_items (_to_json_dumpable d) l k idx h = (res, h') ->
  match res with
  | Ok _ =>
      exists o' ts',
        h' !! l = Some o' /\ (forall xs, obj_tree o' xs = obj_tree o xs) /\
        Forall2 (denotes h') (obj_values o') ts' /\
        rmapM normalize ts = Ok ts' /\
        Forall (fun t => call_depth t <= d) ts' /\
        frame h h' /\ untouched (size (obj_tree o ts)) h h'
  | Raise e =>
      rmapM normalize ts = Raise e \/
      (e = RecursionError /\ d < max_list (map call_depth ts))
  end.
Proof.
  induction k as [|k IHk]; intros idx h l o ts res h' Hl Hts Hlen Hpre Hrun;
    simpl in Hrun.
  - injection Hrun as <- <-. exists o, ts.
    assert (Forall (fun t => normal t /\ call_depth t <= d) ts) as Hall.
    { apply Forall_lookup. intros j t Hj. apply (Hpre j t); [|done].
      apply lookup_lt_Some in Hj. lia. }
    split; [done|]. split; [done|]. split; [done|].
    split; [apply rmapM_normal; eapply Forall_impl; [exact Hall|]; by intros ? []|].
    split; [eapply Forall_impl; [exact Hall|]; by intros ? []|].
    split; [apply frame_refl | apply untouched_refl].
  - rewrite Hl in Hrun.
    assert (length ts = length (obj_values o)) as Hlen'.
    { symmetry. by eapply Forall2_length. }
    destruct (lookup_lt_is_Some_2 (obj_values o) idx) as [v Hv]; [lia|].
    rewrite Hv in Hrun.
    destruct (Forall2_lookup_l _ _ _ _ _ Hts Hv) as (ti & Hti & Hvti).
    assert (denotes h (VRef l) (obj_tree o ts)) as HT.
    { apply denotes_ref. eauto. }
    assert (size ti < size (obj_tree o ts)) as Hsmall.
    { rewrite obj_tree_size by done.
      pose proof (size_elem ti ts (list_elem_of_lookup_2 _ _ _ Hti)). lia. }
    destruct (_to_json_dumpable d v h) as [[x|e] h1] eqn:Ecall;
      pose proof (IHd _ _ _ _ _ Hvti Ecall) as Hspec; simpl in Hspec.
    + destruct Hspec as (ti' & Hnorm & Hx & Hdep & Hfr & Hunt & _).
      assert (h1 !! l = Some o) as Hl1 by (eapply Hunt; eauto).
      destruct (frame_all _ _ _ _ Hfr Hts) as (ts1 & Hts1 & Hn1).
      rewrite (alter_alt_Some _ _ _ _ Hl1) in Hrun.
      destruct (Forall2_lookup_l _ _ _ _ _ Hn1 Hti) as (t1i & Ht1i & Hnear_i).
      assert (Forall2 nearer ts1 (<[idx := ti']> ts1)) as Hn2.
      { rewrite <- (list_insert_id ts1 idx t1i) at 1 by done.
        apply Forall2_insert; [apply nearer_all_refl|].
        apply nearer_normalized. destruct Hnear_i as (-> & _). done. }
      destruct (frame_store h1 l o (obj_set idx x o) ts1 (<[idx := ti']> ts1))
        as (Hfr2 & Hts2); [done|apply obj_tree_set|done| |done|].
      { rewrite obj_values_set. by apply Forall2_insert. }
      assert (Forall2 nearer ts (<[idx := ti']> ts1)) as Hn02
        by (eapply nearer_all_trans; eauto).
      assert (length ts1 = length ts) as Hlen1
        by (symmetry; by eapply Forall2_length).
      specialize (IHk (S idx) (<[l := obj_set idx x o]> h1) l (obj_set idx x o)
                      (<[idx := ti']> ts1) res h').
      destruct (nearer_all_sums _ _ Hn02) as (Hsn & Hss & Hsd & _).
      destruct (nearer_all_sums _ _ Hn1) as (_ & Hss1 & _ & _).
      assert (size (obj_tree (obj_set idx x o) (<[idx := ti']> ts1))
              = size (obj_tree o ts)) as Hsz.
      { rewrite obj_tree_set, !obj_tree_size; [by rewrite Hss|done|].
        rewrite length_insert. lia. }
      assert (denotes h1 (VRef l) (obj_tree o ts1)) as HT1.
      { apply denotes_ref. eauto. }
      lapply IHk; [clear IHk; intros IHk|by rewrite lookup_insert_eq].
      lapply IHk; [clear IHk; intros IHk|done].
      lapply IHk; [clear IHk; intros IHk|rewrite length_insert; lia].
      lapply IHk; [clear IHk; intros IHk|].
      * specialize (IHk Hrun). destruct res as [[]|e].
        -- destruct IHk as (o' & ts' & Hl' & Hsh & Hden' & Hrm & Hdp & Hfr3 & Hunt3).
           exists o', ts'. split; [done|].
           split; [intros xs; by rewrite Hsh, obj_tree_set|].
           split; [done|]. split; [by rewrite <- Hsn|]. split; [done|].
           split; [eauto using frame_trans|].
           rewrite Hsz in Hunt3.
           eapply untouched_trans; [exact Hfr| |].
           { eapply untouched_mono; [|exact Hunt]. lia. }
           eapply untouched_trans; [exact Hfr2| |exact Hunt3].
           eapply untouched_store; [done|exact HT1|].
           rewrite !obj_tree_size by lia. lia.
        -- destruct IHk as [Hr|[-> Hr]]; [left; by rewrite <- Hsn | right].
           split; [done|]. lia.
      * intros j t Hj Hjt. destruct (decide (j = idx)) as [->|Hne].
        -- rewrite list_lookup_insert_eq in Hjt by lia. injection Hjt as <-.
           destruct (normalize_results _ _ Hnorm) as (Hnm & _). done.
        -- rewrite list_lookup_insert_ne in Hjt by done.
           destruct (Forall2_lookup_r _ _ _ _ _ Hn1 Hjt) as (t0 & Ht0 & Hn0).
           destruct (Hpre j t0) as [Hnm0 Hd0]; [lia|done|].
           rewrite (nearer_normal _ _ Hn0 Hnm0). done.
    + injection Hrun as <- <-. destruct Hspec as [He|[-> Hd]].
      * left. eapply rmapM_first_raise; [|exact Hti|exact He].
        intros j y Hj Hy. by apply (Hpre j y).
      * right. split; [done|].
        pose proof (call_depth_elem ti ts (list_elem_of_lookup_2 _ _ _ Hti)). lia.
Qed.

End Loop.

Lemma max_list_bound (ts : list tree) d :
  Forall (fun t => call_depth t <= d) ts -> max_list (map call_depth ts) <= d.
Proof. induction 1; simpl; lia. Qed.

Lemma frame_weaken h h' : h ⊆ h' -> frame h h'.
Proof.
  intros Hsub w tw H. exists tw. split; [by eapply denotes_weaken | apply nearer_refl].
Qed.

Lemma _to_json_dumpable_run n : forall v h t res h',
  denotes h v t -> _to_json_dumpable n v h = (res, h') -> run_spec n h v t res h'.
Proof.
  induction n as [|d IH]; intros v h t res h' Hden Hrun; simpl in Hrun.
  - injection Hrun as <- <-. right. split; [done|apply call_depth_pos].
  - destruct v as [a|vs|l].
    + apply denotes_leaf in Hden as ->.
      assert (forall b, normalize_leaf a = Ok b ->
                run_spec (S d) h (VLeaf a) (TLeaf a) (Ok (VLeaf b)) h) as Hok.
      { intros b Hb. exists (TLeaf b). simpl. rewrite Hb.
        split; [done|]. split; [by apply denotes_leaf|]. split; [lia|].
        split; [apply frame_refl|]. split; [apply untouched_refl|]. done. }
      destruct a; simpl in Hrun;
        try (injection Hrun as <- <-; by apply Hok).
      * destruct (decode_utf8 b) as [s|e] eqn:E; simpl in Hrun;
          injection Hrun as <- <-.
        -- apply Hok. simpl. by rewrite E.
        -- left. simpl. by rewrite E.
      * destruct (float_of_decimal d0) as [f|e] eqn:E; simpl in Hrun;
          injection Hrun as <- <-.
        -- apply Hok. simpl. by rewrite E.
        -- left. simpl. by rewrite E.
    + apply denotes_tuple in Hden as (ts & Hts & ->).
      set (l := fresh (dom h)) in *.
      assert (h !! l = None) as Hfresh by (apply not_elem_of_dom, is_fresh).
      pose proof (insert_subseteq h l (OList vs) Hfresh) as Hsub.
      assert (denotes (<[l := OList vs]> h) (VRef l) (TList ts)) as Hl.
      { apply denotes_ref. exists (OList vs), ts. rewrite lookup_insert_eq.
        split; [done|]. split; [|done]. eapply Forall2_impl; [exact Hts|].
        intros ? ? ?. by eapply denotes_weaken. }
      pose proof (IH _ _ _ _ _ Hl Hrun) as Hspec.
      destruct res as [r|e]; simpl in *.
      * destruct Hspec as (t' & Hn & Hr & Hdep & Hfr & Hunt & _).
        exists t'. split; [done|]. split; [done|]. split; [lia|].
        pose proof (frame_weaken _ _ Hsub) as Hfr0.
        split; [eauto using frame_trans|]. split; [|done].
        eapply untouched_trans; [exact Hfr0| |exact Hunt].
        intros l' o' T' Hl' _ _.
        rewrite lookup_insert_ne; [done|]. intros ->. congruence.
      * destruct Hspec as [He|[-> Hd]]; [by left | right]. split; [done|lia].
    + apply denotes_ref in Hden as (o & ts & Hl & Hts & ->).
      rewrite Hl in Hrun.
      assert (length ts = length (obj_values o)) as Hlen.
      { symmetry. by eapply Forall2_length. }
      destruct (rewrite_items (_to_json_dumpable d) l (length (obj_values o)) 0 h)
        as [[u|e] h2] eqn:Eloop; injection Hrun as <- <-;
        pose proof (rewrite_items_spec d IH (length (obj_values o)) 0 h l o ts
                      _ _ Hl Hts ltac:(simpl; lia) ltac:(intros; lia) Eloop)
          as Hloop;
        simpl in Hloop.
      * destruct Hloop as (o' & ts' & Hl' & Hsh & Hts' & Hrm & Hdp & Hfr & Hunt).
        assert (length ts' = length (obj_values o)) as Hlen'.
        { apply rmapM_length in Hrm. lia. }
        exists (obj_tree o ts'). rewrite obj_tree_normalize, Hrm by done.
        split; [done|]. split.
        { apply denotes_ref. exists o', ts'. by rewrite Hsh. }
        split.
        { rewrite obj_tree_call_depth by done.
          pose proof (max_list_bound _ _ Hdp). lia. }
        split; [done|]. split; [done|].
        intros l0 o0 ts0 [= <-] Hl0 Heq Hlen0. split; [done|].
        assert (o0 = o) as -> by congruence.
        apply obj_tree_inj in Heq; [|done..]. subst ts0. eauto 10.
      * destruct Hloop as [Hr|[-> Hd]].
        -- left. by rewrite obj_tree_normalize, Hr.
        -- right. split; [done|]. rewrite obj_tree_call_depth by done. lia.
Qed.

End Run.

(** ** Values already in normal form *)

Section Fixed.
Context `{RT : PyRuntime}.
Open Scope nat_scope.
Implicit Types (h : heap) (v w r : value) (t : tree) (l : loc) (o : obj).

Lemma normal_obj_tree o ts :
  length ts = length (obj_values o) -> normal (obj_tree o ts) -> Forall normal ts.
Proof.
  intros Hlen. unfold normal. rewrite obj_tree_normalize by done.
  intros (ts2 & Hts2 & Heq)%rmap_Ok.
  apply obj_tree_inj in Heq; [|done|apply rmapM_length in Hts2; lia].
  subst ts2. by apply rmapM_normal.
Qed.

Lemma obj_set_id idx v o : obj_values o !! idx = Some v -> obj_set idx v o = o.
Proof.
  destruct o as [vs|kvs]; simpl; intros H.
  - by rewrite list_insert_id.
  - f_equal. revert idx H. induction kvs as [|[k x] kvs IH]; intros [|idx] H;
      simpl in *; try done.
    + by injection H as ->.
    + f_equal. by apply IH.
Qed.

Lemma rewrite_items_fixed d
    (IHd : forall v h t, denotes h v t -> normal t -> call_depth t <= d ->
                         _to_json_dumpable d v h = (Ok v, h)) k :
  forall idx h l o ts,
    h !! l = Some o -> Forall2 (denotes h) (obj_values o) ts ->
    Forall normal ts -> Forall (fun t => call_depth t <= d) ts ->
    rewrite_items (_to_json_dumpable d) l k idx h = (Ok tt, h).
Proof.
  induction k as [|k IHk]; intros idx h l o ts Hl Hts Hn Hd; simpl; [done|].
  rewrite Hl. destruct (obj_values o !! idx) as [v|] eqn:Hv; [|done].
  destruct (Forall2_lookup_l _ _ _ _ _ Hts Hv) as (t & Ht & Hvt).
  rewrite (IHd v h t Hvt).
  - rewrite (alter_alt_Some _ _ _ _ Hl), (obj_set_id _ _ _ Hv), insert_id by done.
    by eapply IHk.
  - eapply Forall_lookup in Hn; eauto.
  - eapply Forall_lookup in Hd; eauto.
Qed.

Lemma _to_json_dumpable_fixed n : forall v h t,
  denotes h v t -> normal t -> call_depth t <= n ->
  _to_json_dumpable n v h = (Ok v, h).
Proof.
  induction n as [|d IH]; intros v h t Hden Hn Hd.
  - pose proof (call_depth_pos t). lia.
  - destruct v as [a|vs|l]; simpl.
    + apply denotes_leaf in Hden as ->. unfold normal in Hn. simpl in Hn.
      apply rmap_Ok in Hn as (b & Hb & [= <-]).
      destruct a; simpl in Hb; try done.
      * by destruct (decode_utf8 b).
      * by destruct (float_of_decimal d0).
    + apply denotes_tuple in Hden as (ts & _ & ->). unfold normal in Hn.
      simpl in Hn. by apply rmap_Ok in Hn as (? & _ & [=]).
    + apply denotes_ref in Hden as (o & ts & Hl & Hts & ->). rewrite Hl.
      assert (length ts = length (obj_values o)) as Hlen.
      { symmetry. by eapply Forall2_length. }
      rewrite (obj_tree_call_depth o ts Hlen) in Hd.
      rewrite (rewrite_items_fixed d IH _ 0 h l o ts); [done..| |].
      * by apply (normal_obj_tree o).
      * apply Forall_forall. intros t Ht.
        pose proof (call_depth_elem t ts Ht). lia.
Qed.

(** With enough frames, the run is the table: it succeeds exactly when
    [normalize] does. *)
Lemma _to_json_dumpable_normalize n v h t :
  denotes h v t -> call_depth t <= n ->
  match normalize t with
  | Ok t' => exists r h', _to_json_dumpable n v h = (Ok r, h') /\ denotes h' r t'
  | Raise e => exists h', _to_json_dumpable n v h = (Raise e, h')
  end.
Proof.
  intros Hden Hd.
  destruct (_to_json_dumpable n v h) as [res h'] eqn:Hrun.
  pose proof (_to_json_dumpable_run n v h t res h' Hden Hrun) as Hspec.
  destruct res as [r|e]; simpl in Hspec.
  - destruct Hspec as (t' & -> & Hr & _). eauto.
  - destruct Hspec as [->|[_ Hlt]]; [eauto | lia].
Qed.

End Fixed.

(** ** Digits and dates *)

Section Digits.
Open Scope N_scope.

Lemma fixed_digits_length w n : length (fixed_digits w n) = w.
Proof.
  revert n. induction w as [|w IH]; intros n; simpl; [done|].
  rewrite length_app, IH. simpl. lia.
Qed.

Lemma fixed_digits_0 w : fixed_digits w 0 = repeat 48 w.
Proof.
  induction w as [|w IH]; simpl; [done|].
  change (0 / 10) with 0. rewrite IH. change (48 + 0 mod 10) with 48.
  clear IH. induction w as [|w IH]; simpl; [done|]. by rewrite IH.
Qed.

Lemma fixed_digits_digit w n :
  Forall (fun c => 48 <= c <= 57) (fixed_digits w n).
Proof.
  revert n. induction w as [|w IH]; intros n; simpl; [constructor|].
  apply Forall_app. split; [apply IH|]. constructor; [|constructor].
  assert (n mod 10 < 10) as H by (apply N.mod_upper_bound; lia).
  revert H. generalize (n mod 10). intros. lia.
Qed.

Lemma pow10_succ (k : nat) : 10 ^ N.of_nat (S k) = 10 * 10 ^ N.of_nat k.
Proof. by rewrite Nat2N.inj_succ, N.pow_succ_r'. Qed.

Lemma digits_go_fixed f : forall n acc (w : nat),
  n < 10 ^ N.of_nat (S f) -> n < 10 ^ N.of_nat (S w) ->
  exists k, (k <= w)%nat /\
    digits_go (S f) n acc = drop k (fixed_digits (S w) n) ++ acc /\
    take k (fixed_digits (S w) n) = repeat 48 k.
Proof.
  assert (forall n acc (w : nat) fuel, n < 10 ->
    exists k, (k <= w)%nat /\
      digits_go (S fuel) n acc = drop k (fixed_digits (S w) n) ++ acc /\
      take k (fixed_digits (S w) n) = repeat 48 k) as Hsmall.
  { intros n acc w fuel Hn. exists w. split; [done|]. simpl.
    apply N.ltb_lt in Hn as Hn'. rewrite Hn'.
    rewrite (N.div_small n 10), (N.mod_small n 10), fixed_digits_0 by done.
    rewrite drop_app_length', take_app_length' by (by rewrite repeat_length).
    done. }
  induction f as [|f IH]; intros n acc w Hf Hw.
  - apply Hsmall. simpl in Hf. lia.
  - destruct (N.ltb_spec n 10) as [Hn|Hn]; [by apply Hsmall|].
    destruct w as [|w].
    { change (10 ^ N.of_nat 1) with 10 in Hw. lia. }
    rewrite pow10_succ in Hf, Hw.
    assert (n / 10 < 10 ^ N.of_nat (S f)) as Hf'
      by (apply N.Div0.div_lt_upper_bound; lia).
    assert (n / 10 < 10 ^ N.of_nat (S w)) as Hw'
      by (apply N.Div0.div_lt_upper_bound; lia).
    destruct (IH (n / 10) ((48 + n mod 10) :: acc) w Hf' Hw') as (k & Hk & Hgo & Htake).
    exists k. split; [lia|].
    change (digits_go (S (S f)) n acc) with
      (if n <? 10 then (48 + n) :: acc
       else digits_go (S f) (n / 10) ((48 + n mod 10) :: acc)).
    apply N.ltb_ge in Hn as Hn'. rewrite Hn', Hgo.
    change (fixed_digits (S (S w)) n) with
      (fixed_digits (S w) (n / 10) ++ [48 + n mod 10]).
    pose proof (fixed_digits_length (S w) (n / 10)) as Hlen.
    rewrite drop_app_le, take_app_le by lia.
    rewrite <- app_assoc. done.
Qed.

Lemma N_repr_bound n : n < 10 ^ N.of_nat (S (N.to_nat (N.log2 n))).
Proof.
  destruct (N.eq_dec n 0) as [->|Hn]; [done|].
  rewrite Nat2N.inj_succ, N2Nat.id.
  destruct (N.log2_spec n) as [_ Hlt]; [lia|].
  eapply N.lt_le_trans; [exact Hlt|].
  apply N.pow_le_mono_l. lia.
Qed.

Lemma zpad_fixed (w : nat) n :
  n < 10 ^ N.of_nat (S w) -> zpad (S w) n = fixed_digits (S w) n.
Proof.
  intros Hn. unfold zpad, N_repr.
  destruct (digits_go_fixed _ n [] w (N_repr_bound n) Hn) as (k & Hk & -> & Htake).
  rewrite app_nil_r, length_drop, fixed_digits_length.
  replace (S w - (S w - k))%nat with k by lia.
  rewrite <- Htake. apply take_drop.
Qed.

End Digits.

Lemma strftime_datetime (t : datetime) :
  valid_datetime t = true ->
  strftime t (str "%Y-%m-%d %H:%M:%S.%f") =
  fixed_digits 4 (year (dt_date t)) ++ str "-" ++
  fixed_digits 2 (month (dt_date t)) ++ str "-" ++
  fixed_digits 2 (day (dt_date t)) ++ str " " ++
  fixed_digits 2 (hour t) ++ str ":" ++ fixed_digits 2 (minute t) ++ str ":" ++
  fixed_digits 2 (second t) ++ str "." ++ fixed_digits 6 (microsecond t).
Proof.
  unfold valid_datetime, valid_date. intros H.
  repeat (apply andb_prop in H as [H ?]).
  repeat match goal with
         | H : (_ <=? _)%N = true |- _ => apply N.leb_le in H
         | H : (_ <? _)%N = true |- _ => apply N.ltb_lt in H
         end.
  change (strftime t (str "%Y-%m-%d %H:%M:%S.%f")) with
    (zpad 4 (year (dt_date t)) ++ str "-" ++ zpad 2 (month (dt_date t)) ++
     str "-" ++ zpad 2 (day (dt_date t)) ++ str " " ++ zpad 2 (hour t) ++
     str ":" ++ zpad 2 (minute t) ++ str ":" ++ zpad 2 (second t) ++
     str "." ++ (zpad 6 (microsecond t) ++ [])).
  rewrite app_nil_r.
  rewrite !zpad_fixed; [done|simpl; lia..].
Qed.

Lemma strftime_date (d : date) :
  valid_date d = true ->
  date_strftime d (str "%Y-%m-%d") =
  fixed_digits 4 (year d) ++ str "-" ++ fixed_digits 2 (month d) ++ str "-" ++
  fixed_digits 2 (day d).
Proof.
  unfold valid_date. intros H.
  repeat (apply andb_prop in H as [H ?]).
  repeat match goal with
         | H : (_ <=? _)%N = true |- _ => apply N.leb_le in H
         end.
  change (date_strftime d (str "%Y-%m-%d")) with
    (zpad 4 (year d) ++ str "-" ++ zpad 2 (month d) ++ str "-" ++
     (zpad 2 (day d) ++ [])).
  rewrite app_nil_r.
  rewrite !zpad_fixed; [done|simpl; lia..].
Qed.

(** ** Paths as strings and as components *)

Section Paths.
Implicit Types (s a b p : pystr).

Local Abbreviation fields s := (split s (str "/")).

Lemma startswith_slash c s : startswith (str "/") (c :: s) = (47 =? c)%N.
Proof.
  change (startswith (str "/") (c :: s)) with ((47 =? c)%N && true).
  apply andb_true_r.
Qed.

Lemma split_go_slash c s :
  split_go (str "/") 0 (c :: s) =
  if (47 =? c)%N
  then ([], let '(f, r) := split_go (str "/") 0 s in f :: r)
  else let '(f, r) := split_go (str "/") 0 s in (c :: f, r).
Proof.
  change (split_go (str "/") 0 (c :: s)) with
    (if startswith (str "/") (c :: s)
     then ([], let '(f, r) := split_go (str "/") 0 s in f :: r)
     else let '(f, r) := split_go (str "/") 0 s in (c :: f, r)).
  by rewrite startswith_slash.
Qed.

Lemma fields_nil : fields [] = [[]].
Proof. reflexivity. Qed.

Lemma fields_slash s : fields (47%N :: s) = [] :: fields s.
Proof.
  unfold split. rewrite split_go_slash. simpl.
  destruct (split_go (str "/") 0 s) as [f r]. done.
Qed.

Lemma fields_other c s :
  c <> 47%N ->
  fields (c :: s) =
  match fields s with
  | f :: r => (c :: f) :: r
  | [] => [[c]]
  end.
Proof.
  intros Hc. unfold split. rewrite split_go_slash.
  destruct (N.eqb_spec 47 c) as [<-|_]; [by destruct Hc|].
  destruct (split_go (str "/") 0 s) as [f r]. done.
Qed.

Lemma fields_cons s : exists f r, fields s = f :: r.
Proof. unfold split. destruct (split_go _ 0 s) as [f r]. eauto. Qed.

Lemma fields_app a b : fields (a ++ 47%N :: b) = fields a ++ fields b.
Proof.
  induction a as [|c a IH].
  - change ([] ++ 47%N :: b) with (47%N :: b). by rewrite fields_slash.
  - change ((c :: a) ++ 47%N :: b) with (c :: (a ++ 47%N :: b)).
    destruct (decide (c = 47%N)) as [->|Hc].
    + by rewrite !fields_slash, IH.
    + rewrite !fields_other, IH by done.
      destruct (fields_cons a) as (f & r & ->). done.
Qed.

Lemma fields_no_slash s : 47%N ∉ s -> fields s = [s].
Proof.
  induction s as [|c s IH]; intros Hs; [done|].
  apply not_elem_of_cons in Hs as [Hc Hs].
  rewrite fields_other by done. by rewrite IH.
Qed.

Lemma components_app a b :
  components (a ++ str "/" ++ b) = components a ++ components b.
Proof.
  unfold components.
  change (str "/" ++ b) with (47%N :: b). by rewrite fields_app, filter_app.
Qed.

Lemma components_nil : components [] = [].
Proof. reflexivity. Qed.

Lemma components_no_slash s : s <> [] -> 47%N ∉ s -> components s = [s].
Proof.
  intros Hne Hs. unfold components.
  rewrite fields_no_slash by done. by rewrite filter_cons_True.
Qed.

Lemma components_slashes k : components (repeat 47%N k) = [].
Proof.
  unfold components.
  induction k as [|k IH]; [done|].
  change (repeat 47%N (S k)) with (47%N :: repeat 47%N k).
  rewrite fields_slash, filter_cons_False; [done|]. intros H. by apply H.
Qed.

Lemma components_trailing a k : components (a ++ repeat 47%N k) = components a.
Proof.
  destruct k as [|k]; simpl; [by rewrite app_nil_r|].
  change (a ++ 47%N :: repeat 47%N k) with (a ++ str "/" ++ repeat 47%N k).
  by rewrite components_app, components_slashes, app_nil_r.
Qed.

Lemma rstrip_slash_spec s : exists k, s = rstrip_slash s ++ repeat 47%N k.
Proof.
  induction s as [|c s (k & IH)]; [by exists 0%nat|]. simpl.
  destruct (rstrip_slash s) as [|c' r] eqn:E.
  - simpl in IH. destruct (N.eqb_spec c 47) as [->|Hc].
    + exists (S k). simpl. by rewrite <- IH.
    + exists k. simpl. by rewrite <- IH.
  - exists k. simpl. f_equal. exact IH.
Qed.

Lemma rstrip_slash_nil s : rstrip_slash s = [] -> all_slashes s = true.
Proof.
  induction s as [|c s IH]; [done|]. simpl.
  destruct (rstrip_slash s) as [|c' r]; [|done].
  destruct (N.eqb_spec c 47) as [->|Hc]; [|done]. intros _. by apply IH.
Qed.

Lemma components_rstrip s : components (rstrip_slash s) = components s.
Proof.
  destruct (rstrip_slash_spec s) as (k & Hk). rewrite Hk at 2.
  by rewrite components_trailing.
Qed.

Lemma parent_snoc (l : list pystr) x : parent (l ++ [x]) = l.
Proof.
  unfold parent. rewrite length_app. simpl. rewrite take_app_length'; [done|lia].
Qed.

(** [rfind] of a slash: the text after the last slash has none. *)
Lemma rfind_from_cons c s i :
  rfind_from (str "/") (c :: s) i =
  let r := rfind_from (str "/") s (i + 1) in
  if 0 <=? r then r else if (47 =? c)%N then i else -1.
Proof.
  change (rfind_from (str "/") (c :: s) i) with
    (let r := rfind_from (str "/") s (i + 1) in
     if 0 <=? r then r else if startswith (str "/") (c :: s) then i else -1).
  by rewrite startswith_slash.
Qed.

Lemma rfind_from_slash s : forall i, 0 <= i ->
  ((47%N ∉ s) /\ rfind_from (str "/") s i = -1) \/
  (exists a b, s = a ++ 47%N :: b /\ (47%N ∉ b) /\
               rfind_from (str "/") s i = i + Z.of_nat (length a)).
Proof.
  induction s as [|c s IH]; intros i Hi.
  - left. split; [set_solver|done].
  - rewrite rfind_from_cons.
    destruct (IH (i + 1)) as [[Hs ->]|(a & b & -> & Hb & ->)]; [lia| |].
    + cbv zeta. change (0 <=? -1) with false. cbv iota.
      destruct (N.eqb_spec 47 c) as [<-|Hc].
      * right. exists [], s. split; [done|]. split; [done|]. cbn [length]. lia.
      * left. split; [|done]. apply not_elem_of_cons. split; [done|done].
    + right. exists (c :: a), b. split; [done|]. split; [done|]. cbv zeta.
      cbn [length].
      destruct (Z.leb_spec 0 (i + 1 + Z.of_nat (length a))); lia.
Qed.

Lemma dirname_basename_split p :
  ((47%N ∉ p) /\ dirname p = [] /\ basename p = p) \/
  (exists a b, p = a ++ 47%N :: b /\ (47%N ∉ b) /\ basename p = b /\
               components (dirname p) = components a /\
               truthy (dirname p) = true).
Proof.
  unfold dirname, basename, rfind, slice_to, slice_from.
  destruct (rfind_from_slash p 0) as [[Hp ->]|(a & b & -> & Hb & ->)]; [lia| |].
  - left. by simpl.
  - right. exists a, b. split; [done|]. split; [done|].
    replace (Z.to_nat (0 + Z.of_nat (length a) + 1)) with (length (a ++ [47%N]))
      by (rewrite length_app; simpl; lia).
    replace (a ++ 47%N :: b) with ((a ++ [47%N]) ++ b) by by rewrite <- app_assoc.
    rewrite drop_app_length, take_app_length. split; [done|].
    assert (components (a ++ [47%N]) = components a) as Hc
      by apply (components_trailing a 1).
    assert (truthy (a ++ [47%N]) = true) as Ht by (by destruct a).
    rewrite Ht. simpl.
    destruct (all_slashes (a ++ [47%N])) eqn:Hall; simpl; [done|].
    rewrite components_rstrip. split; [done|].
    destruct (rstrip_slash (a ++ [47%N])) eqn:Hr; [|done].
    apply rstrip_slash_nil in Hr. congruence.
Qed.

Lemma components_dirname p :
  p <> [] -> last p <> Some 47%N ->
  components (dirname p) = parent (components p).
Proof.
  intros Hne Hlast.
  destruct (dirname_basename_split p) as [(Hp & -> & _)|(a & b & -> & Hb & _ & -> & _)].
  - rewrite (components_no_slash p) by done. done.
  - assert (b <> []) as Hbne.
    { intros ->. apply Hlast.
      change (a ++ [47%N]) with (a ++ [47%N]). by rewrite last_snoc. }
    change (a ++ 47%N :: b) with (a ++ str "/" ++ b).
    rewrite components_app, (components_no_slash b) by done.
    by rewrite parent_snoc.
Qed.

End Paths.

(** ** Directories and files *)

Section FileSystem.
Implicit Types (fs : filesystem) (c : list pystr) (p : pystr).
Open Scope nat_scope.

Lemma parent_length c : c <> [] -> length (parent c) < length c.
Proof.
  intros Hc. unfold parent. rewrite length_take. destruct c; [done|]. simpl. lia.
Qed.

Lemma parent_ne c : c <> [] -> parent c <> c.
Proof. intros Hc Heq. pose proof (parent_length c Hc). rewrite Heq in H. lia. Qed.

Lemma lookup_path_insert_ne fs c c' n :
  c <> c' -> lookup_path (<[c := n]> fs) c' = lookup_path fs c'.
Proof. intros Hne. destruct c'; [done|]. simpl. by rewrite lookup_insert_ne. Qed.

Lemma lookup_path_insert_eq fs c n :
  c <> [] -> lookup_path (<[c := n]> fs) c = Some n.
Proof. intros Hne. destruct c; [done|]. simpl. by rewrite lookup_insert_eq. Qed.

Lemma lookup_path_cons fs c : c <> [] -> lookup_path fs c = fs !! c.
Proof. by destruct c. Qed.

Lemma grows_under_refl c fs : grows_under c fs fs.
Proof. intros c'. by left. Qed.

Lemma grows_under_trans c fs1 fs2 fs3 :
  grows_under c fs1 fs2 -> grows_under c fs2 fs3 -> grows_under c fs1 fs3.
Proof.
  intros H12 H23 c'. destruct (H23 c') as [->|(H2 & H3 & Hk)]; [apply H12|].
  destruct (H12 c') as [H1|(H1 & H2' & _)]; [|congruence].
  right. rewrite <- H1. done.
Qed.

Lemma grows_under_app c x fs fs1 :
  grows_under c fs fs1 -> grows_under (c ++ x) fs fs1.
Proof.
  intros H c'. destruct (H c') as [->|(H1 & H2 & k & ->)]; [by left|].
  right. split; [done|]. split; [done|].
  exists (k `min` length c). rewrite take_app_le by lia.
  destruct (decide (k <= length c)).
  - by rewrite Nat.min_l.
  - rewrite Nat.min_r, !take_ge by lia. done.
Qed.

Lemma grows_lookup_path c0 fs fs1 c n :
  grows_under c0 fs fs1 -> lookup_path fs c = Some n -> lookup_path fs1 c = Some n.
Proof.
  intros H Hc. destruct c as [|x c]; [done|]. simpl in *.
  destruct (H (x :: c)) as [->|(Hn & _)]; [done|congruence].
Qed.

Lemma mkdir_grows c fs r fs1 : mkdir c fs = (r, fs1) -> grows_under c fs fs1.
Proof.
  unfold mkdir. destruct (lookup_path fs c) as [n|] eqn:Hc.
  - intros [= <- <-]. apply grows_under_refl.
  - destruct (lookup_path fs (parent c)) as [[text|]|];
      intros [= <- <-]; try apply grows_under_refl.
    intros c'. destruct (decide (c = c')) as [<-|Hne].
    + right. assert (c <> []) as Hne by (intros ->; done).
      rewrite lookup_path_cons in Hc by done. rewrite lookup_insert_eq.
      split; [done|]. split; [done|]. exists (length c). by rewrite take_ge.
    + left. by rewrite lookup_insert_ne.
Qed.

Lemma makedirs_rev_grows rc : forall fs r fs1,
  makedirs_rev rc fs = (r, fs1) -> grows_under (rev rc) fs fs1.
Proof.
  induction rc as [|x rhead IH]; intros fs r fs1; simpl.
  - apply mkdir_grows.
  - set (head_made := match rhead with
                      | [] => (Ok tt, fs)
                      | _ :: _ =>
                          match lookup_path fs (rev rhead) with
                          | Some _ => (Ok tt, fs)
                          | None => makedirs_rev rhead fs
                          end
                      end).
    assert (grows_under (rev rhead) fs head_made.2) as Hhead.
    { subst head_made. destruct rhead as [|y rt]; [apply grows_under_refl|].
      destruct (lookup_path fs (rev (y :: rt))); [apply grows_under_refl|].
      destruct (makedirs_rev (y :: rt) fs) as [r0 fs0] eqn:E. by eapply IH. }
    destruct head_made as [[[]|e] fs0]; simpl in Hhead.
    + intros H%mkdir_grows. eapply grows_under_trans; [|exact H].
      by apply grows_under_app.
    + destruct e as [| |[]| | | |]; try (intros [= <- <-]; by apply grows_under_app).
      intros H%mkdir_grows. eapply grows_under_trans; [|exact H].
      by apply grows_under_app.
Qed.

Lemma makedirs_grows name fs r fs1 :
  makedirs name fs = (r, fs1) -> grows_under (components name) fs fs1.
Proof.
  unfold makedirs. destruct (truthy name).
  - intros H%makedirs_rev_grows. by rewrite rev_involutive in H.
  - intros [= <- <-]. apply grows_under_refl.
Qed.

Lemma check_grows p fs r fs1 :
  _check_file_can_be_created p fs = (r, fs1) ->
  grows_under (components (dirname p)) fs fs1.
Proof.
  unfold _check_file_can_be_created. destruct (negb (path_exists fs p)).
  - destruct (makedirs (dirname p) fs) as [r0 fs0] eqn:E.
    apply makedirs_grows in E.
    destruct r0 as [[]|e]; [by intros [= <- <-]|].
    destruct e as [| |[]| | | |]; by intros [= <- <-].
  - intros [= <- <-]. apply grows_under_refl.
Qed.

Lemma closed_prefix fs c n :
  closed fs -> lookup_path fs c = Some n ->
  forall k, k < length c -> lookup_path fs (take k c) = Some Dir.
Proof.
  intros Hcl. remember (length c) as len eqn:Hlen. revert c n Hlen.
  induction len as [|len IH]; intros c n Hlen Hc k Hk; [lia|].
  assert (c <> []) as Hne by (intros ->; done).
  rewrite lookup_path_cons in Hc by done.
  destruct (Hcl c n Hc) as [_ Hpar].
  assert (length (parent c) = len) as Hplen.
  { unfold parent. rewrite length_take. lia. }
  destruct (decide (k = len)) as [->|Hklen].
  - unfold parent in Hpar. rewrite <- Hlen in Hpar.
    replace (S len - 1) with len in Hpar by lia. done.
  - replace (take k c) with (take k (parent c)).
    + eapply (IH (parent c)); [done|exact Hpar|lia].
    + unfold parent. rewrite take_take. f_equal. lia.
Qed.

Lemma closed_insert fs c n :
  closed fs -> c <> [] -> lookup_path fs (parent c) = Some Dir ->
  (n = Dir \/ fs !! c <> Some Dir) ->
  closed (<[c := n]> fs).
Proof.
  intros Hcl Hne Hpar Hn c' n' Hc'.
  destruct (decide (c = c')) as [<-|Hcc'].
  - split; [done|]. rewrite lookup_path_insert_ne by (symmetry; by apply parent_ne).
    done.
  - rewrite lookup_insert_ne in Hc' by done.
    destruct (Hcl c' n' Hc') as [Hne' Hpar']. split; [done|].
    destruct (decide (c = parent c')) as [Heq|Hneq].
    + rewrite <- Heq in *. rewrite lookup_path_insert_eq by done.
      rewrite lookup_path_cons in Hpar' by done.
      destruct Hn as [->|Hn]; [done|]. by destruct Hn.
    + by rewrite lookup_path_insert_ne.
Qed.

Lemma no_file_above_app fs c x : no_file_above fs (c ++ x) -> no_file_above fs c.
Proof.
  intros H k text. destruct (decide (k <= length c)).
  - rewrite <- (take_app_le c x) by done. apply H.
  - rewrite take_ge by lia. rewrite <- (take_app_length c x). apply H.
Qed.

Lemma makedirs_rev_closed rc : forall fs,
  closed fs -> no_file_above fs (rev rc) ->
  exists r fs1,
    makedirs_rev rc fs = (r, fs1) /\
    (r = Ok tt \/ r = Raise (OSError EEXIST)) /\ closed fs1 /\
    forall k, lookup_path fs1 (take k (rev rc)) = Some Dir.
Proof.
  induction rc as [|x rhead IH]; intros fs Hcl Hno.
  - exists (Raise (OSError EEXIST)), fs. simpl. split; [done|]. split; [by right|].
    split; [done|]. intros k. by destruct k.
  - simpl rev in *. pose proof (no_file_above_app _ _ _ Hno) as Hno'.
    set (c := rev rhead ++ [x]) in *.
    assert (exists r0 fs0,
              match rhead with
              | [] => (Ok tt, fs)
              | _ :: _ =>
                  match lookup_path fs (rev rhead) with
                  | Some _ => (Ok tt, fs)
                  | None => makedirs_rev rhead fs
                  end
              end = (r0, fs0) /\
              (r0 = Ok tt \/ r0 = Raise (OSError EEXIST)) /\ closed fs0 /\
              grows_under (rev rhead) fs fs0 /\
              forall k, lookup_path fs0 (take k (rev rhead)) = Some Dir)
      as (r0 & fs0 & Hhead & Hr0 & Hcl0 & Hgr0 & Hdirs0).
    { destruct rhead as [|y rt].
      - exists (Ok tt), fs. split; [done|]. split; [by left|]. split; [done|].
        split; [apply grows_under_refl|]. intros k. by destruct k.
      - destruct (lookup_path fs (rev (y :: rt))) as [n|] eqn:Hl.
        + exists (Ok tt), fs. split; [done|]. split; [by left|]. split; [done|].
          split; [apply grows_under_refl|]. intros k.
          destruct (decide (k < length (rev (y :: rt)))).
          * by eapply closed_prefix.
          * rewrite take_ge by lia. destruct n as [text|]; [|done].
            exfalso. apply (Hno' (length (rev (y :: rt))) text).
            by rewrite take_ge.
        + destruct (IH fs Hcl Hno') as (r1 & fs1 & E & Hr1 & Hcl1 & Hd1).
          exists r1, fs1. split; [done|]. split; [done|]. split; [done|].
          split; [by eapply makedirs_rev_grows|done]. }
    assert (c <> []) as Hcne by (subst c; by destruct (rev rhead)).
    assert (makedirs_rev (x :: rhead) fs = mkdir c fs0) as ->.
    { simpl. rewrite Hhead. by destruct Hr0 as [->| ->]. }
    assert (forall k, k <= length (rev rhead) ->
                      take k c = take k (rev rhead)) as Htake.
    { intros k Hk. subst c. by rewrite take_app_le. }
    unfold mkdir. destruct (lookup_path fs0 c) as [n|] eqn:Hc.
    + exists (Raise (OSError EEXIST)), fs0. split; [done|]. split; [by right|].
      split; [done|]. intros k. destruct (decide (k <= length (rev rhead))).
      * rewrite Htake by done. apply Hdirs0.
      * rewrite take_ge by (subst c; rewrite length_app; simpl; lia).
        destruct n as [text|]; [|done]. exfalso.
        rewrite lookup_path_cons in Hc by done.
        destruct (Hgr0 c) as [Heq|(_ & Heq & _)]; [|congruence].
        apply (Hno (length c) text). rewrite take_ge by done.
        rewrite lookup_path_cons by done. congruence.
    + assert (parent c = rev rhead) as Hpar by (subst c; apply parent_snoc).
      rewrite Hpar. specialize (Hdirs0 (length (rev rhead))) as Hd.
      rewrite take_ge in Hd by done. rewrite Hd.
      exists (Ok tt), (<[c := Dir]> fs0). split; [done|]. split; [by left|].
      split.
      { apply closed_insert; [done|done|by rewrite Hpar|by left]. }
      intros k. destruct (decide (k <= length (rev rhead))).
      * rewrite Htake by done. rewrite lookup_path_insert_ne; [apply Hdirs0|].
        intros Heq. apply (f_equal length) in Heq.
        rewrite length_take in Heq. subst c. rewrite length_app in Heq.
        simpl in Heq. lia.
      * rewrite take_ge by (subst c; rewrite length_app; simpl; lia).
        by apply lookup_path_insert_eq.
Qed.

End FileSystem.

Section Creating.
Implicit Types (fs : filesystem) (c : list pystr) (p : pystr).
Open Scope nat_scope.

Lemma take_parent k c : exists j, take k (parent c) = take j c /\ (c <> [] -> j < length c).
Proof.
  unfold parent. rewrite take_take. exists (k `min` (length c - 1)).
  split; [done|]. intros Hc. destruct c; [done|]. simpl. lia.
Qed.

Lemma path_exists_false fs p :
  truthy p = true -> path_exists fs p = false ->
  lookup_path fs (components p) = None.
Proof.
  unfold path_exists. intros ->. simpl.
  by destruct (lookup_path fs (components p)).
Qed.

Lemma check_creates p fs :
  closed fs -> last p <> Some 47%N -> 47%N ∈ p ->
  no_file_above fs (parent (components p)) ->
  exists fs1,
    _check_file_can_be_created p fs = (Ok tt, fs1) /\ closed fs1 /\
    grows_under (parent (components p)) fs fs1 /\
    forall k, lookup_path fs1 (take k (parent (components p))) = Some Dir.
Proof.
  intros Hcl Hlast Hin Hno.
  assert (p <> []) as Hne by (intros ->; by apply elem_of_nil in Hin).
  pose proof (components_dirname p Hne Hlast) as Hdir.
  unfold _check_file_can_be_created.
  destruct (path_exists fs p) eqn:Hex; simpl.
  - exists fs. split; [done|]. split; [done|]. split; [apply grows_under_refl|].
    intros k. unfold path_exists in Hex. apply andb_prop in Hex as [_ Hex].
    destruct (lookup_path fs (components p)) as [n|] eqn:Hl; [|done].
    destruct (take_parent k (components p)) as (j & -> & Hj).
    destruct (decide (components p = [])) as [->|Hc]; [by destruct j|].
    eapply closed_prefix; eauto.
  - assert (truthy (dirname p) = true) as Ht.
    { destruct (dirname_basename_split p)
        as [(Hp & _)|(a & b & _ & _ & _ & _ & Ht)]; [done|exact Ht]. }
    unfold makedirs. rewrite Ht, Hdir.
    destruct (makedirs_rev_closed (rev (parent (components p))) fs Hcl)
      as (r & fs1 & E & Hr & Hcl1 & Hd); [by rewrite rev_involutive|].
    rewrite rev_involutive in Hd. rewrite E. exists fs1.
    split; [by destruct Hr as [->| ->]|]. split; [done|]. split; [|done].
    apply makedirs_rev_grows in E. by rewrite rev_involutive in E.
Qed.

Lemma open_write_ok p text fs :
  truthy p = true -> lookup_path fs (components p) = None ->
  lookup_path fs (parent (components p)) = Some Dir ->
  open_write p text fs = (Ok tt, <[components p := File text]> fs).
Proof.
  intros Ht Hc Hpar. unfold open_write, writable. by rewrite Ht, Hc, Hpar.
Qed.

Lemma closedb_closed fs : closedb fs = true -> closed fs.
Proof.
  unfold closedb. intros H c n Hc.
  apply elem_of_map_to_list in Hc. apply list_elem_of_In in Hc.
  rewrite forallb_forall in H. specialize (H _ Hc). simpl in H.
  destruct c as [|x c]; [done|]. split; [done|].
  by destruct (lookup_path fs (parent (x :: c))) as [[]|].
Qed.

Lemma no_file_aboveb_no_file_above fs c :
  no_file_aboveb fs c = true -> no_file_above fs c.
Proof.
  unfold no_file_aboveb. intros H k text.
  rewrite forallb_forall in H.
  assert (take k c = take (k `min` length c) c) as ->.
  { destruct (decide (k <= length c)) as [Hk|Hk].
    - by rewrite Nat.min_l.
    - rewrite Nat.min_r by lia. by rewrite !take_ge by lia. }
  specialize (H (k `min` length c)). intros Hl. rewrite Hl in H.
  assert (false = true) as Hft; [|done].
  apply H. apply in_seq. lia.
Qed.

End Creating.

(** ** The text [json.dumps] writes *)

Section JsonText.
Context `{RT : PyRuntime}.
Implicit Types (s : pystr) (o : tree).

Lemma N_repr_digits n :
  N_repr n <> [] /\ Forall (fun c => (48 <= c <= 57)%N) (N_repr n).
Proof.
  unfold N_repr.
  destruct (digits_go_fixed _ n [] _ (N_repr_bound n) (N_repr_bound n))
    as (k & Hk & -> & _).
  rewrite app_nil_r. split.
  - intros H%(f_equal length).
    rewrite length_drop, fixed_digits_length in H. simpl in H. lia.
  - apply Forall_drop, fixed_digits_digit.
Qed.

Lemma int_repr_chars z :
  int_repr z <> [] /\ Forall (fun c => (45 <= c <= 57)%N) (int_repr z).
Proof.
  unfold int_repr. destruct (z <? 0).
  - change (str "-") with [45%N]. split; [done|]. apply Forall_app. split.
    + constructor; [lia|constructor].
    + eapply Forall_impl; [apply N_repr_digits|]. simpl. lia.
  - split; [apply N_repr_digits|].
    eapply Forall_impl; [apply N_repr_digits|]. simpl. lia.
Qed.

Lemma float_repr_safe f :
  float_repr f <> [] /\
  Forall (fun c => c <> 13%N /\ c <> 10%N) (float_repr f).
Proof.
  destruct (float_repr_chars f) as [Hne Hall]. split; [done|].
  eapply Forall_impl; [exact Hall|]. intros c Hc.
  split; intros ->; apply list_elem_of_In in Hc; vm_compute in Hc;
    intuition discriminate.
Qed.

Lemma Forall_snoc_text (P : N -> Prop) s :
  s <> [] -> Forall P s -> exists body c, s = body ++ [c] /\ P c.
Proof.
  intros Hne Hall. destruct s as [|x s] using rev_ind; [done|].
  exists s, x. split; [done|]. apply Forall_app in Hall as [_ Hx].
  by inversion Hx.
Qed.

Lemma hex_digit_ge n : (48 <= hex_digit n)%N.
Proof. unfold hex_digit. destruct (n <? 10)%N; lia. Qed.

Lemma backslash_u_no_cr n : no_cr (backslash_u n).
Proof.
  unfold backslash_u, hex4, no_cr. apply Forall_app. split.
  - repeat constructor; done.
  - repeat constructor; intros H;
      match type of H with hex_digit ?x = _ => pose proof (hex_digit_ge x) end; lia.
Qed.

Lemma escape_char_no_cr ea c : no_cr (escape_char ea c).
Proof.
  unfold escape_char.
  repeat match goal with
         | |- no_cr (if (?a =? ?b)%N then _ else _) =>
             destruct (N.eqb_spec a b); [repeat constructor; done|]
         | |- no_cr (if ?b then _ else _) => destruct b
         end;
    try apply backslash_u_no_cr.
  - apply Forall_app. split; apply backslash_u_no_cr.
  - by repeat constructor.
Qed.

Lemma encode_basestring_no_cr ea s : no_cr (encode_basestring ea s).
Proof.
  unfold encode_basestring, no_cr. apply Forall_app. split; [by repeat constructor|].
  apply Forall_app. split; [|by repeat constructor].
  induction s as [|c s IH]; simpl; [constructor|].
  apply Forall_app. split; [apply escape_char_no_cr|exact IH].
Qed.

Lemma encode_basestring_ends ea s : ends_in_text (encode_basestring ea s).
Proof.
  unfold encode_basestring. exists ([34%N] ++ flat_map (escape_char ea) s), 34%N.
  split; [by rewrite <- app_assoc|done].
Qed.

Lemma encode_leaf_text opts default a :
  no_cr (encode_leaf opts default a) /\ ends_in_text (encode_leaf opts default a).
Proof.
  assert (forall z, no_cr (int_repr z) /\ ends_in_text (int_repr z)) as Hint.
  { intros z. destruct (int_repr_chars z) as [Hne Hall]. split.
    - eapply Forall_impl; [exact Hall|]. simpl. lia.
    - destruct (Forall_snoc_text _ _ Hne Hall) as (body & c & -> & Hc).
      exists body, c. split; [done|lia]. }
  assert (forall f, no_cr (float_repr f) /\ ends_in_text (float_repr f)) as Hfloat.
  { intros f. destruct (float_repr_safe f) as [Hne Hall]. split.
    - eapply Forall_impl; [exact Hall|]. by intros c [].
    - destruct (Forall_snoc_text _ _ Hne Hall) as (body & c & -> & Hc).
      exists body, c. split; [done|]. by destruct Hc. }
  destruct a as [|[]| | | | | | | |]; simpl;
    try (split; [apply encode_basestring_no_cr|apply encode_basestring_ends]);
    try apply Hint; try apply Hfloat.
  - split; [by repeat constructor|]. by exists (str "nul"), 108%N.
  - split; [by repeat constructor|]. by exists (str "tru"), 101%N.
  - split; [by repeat constructor|]. by exists (str "fals"), 101%N.
Qed.

Lemma join_no_cr sep items :
  no_cr sep -> Forall no_cr items -> no_cr (join sep items).
Proof.
  intros Hsep. induction 1 as [|x items Hx Hitems IH]; [constructor|].
  simpl. destruct items as [|y items]; [done|].
  apply Forall_app. split; [done|]. apply Forall_app. split; [done|exact IH].
Qed.

Lemma newline_indent_no_cr opts level : no_cr (newline_indent opts level).
Proof.
  unfold newline_indent. destruct (indent opts); [|constructor].
  apply Forall_app. split; [by repeat constructor|].
  apply Forall_forall. intros c Hc%list_elem_of_In%repeat_spec. by subst.
Qed.

Lemma bracketed_text opts level op cl items :
  no_cr (item_separator opts) -> no_cr op -> no_cr cl -> ends_in_text cl ->
  Forall no_cr items ->
  no_cr (bracketed opts level op cl items) /\
  ends_in_text (bracketed opts level op cl items).
Proof.
  intros Hsep Hop Hcl (body & c & -> & Hc) Hitems. unfold bracketed.
  destruct items as [|x items].
  - split; [by apply Forall_app|]. exists (op ++ body), c.
    split; [by rewrite <- app_assoc|done].
  - split.
    + pose proof Hcl as Hcl'. apply Forall_app in Hcl' as [Hb Hc1].
      repeat (apply Forall_app; split); try done;
        try apply newline_indent_no_cr.
      apply join_no_cr; [|done]. apply Forall_app. split; [done|].
      apply newline_indent_no_cr.
    + exists (op ++ newline_indent opts (S level) ++
              join (item_separator opts ++ newline_indent opts (S level))
                (x :: items) ++
              newline_indent opts level ++ body), c.
      split; [|done]. by rewrite <- !app_assoc.
Qed.

Lemma iterencode_text opts default o : forall level text,
  no_cr (item_separator opts) -> no_cr (key_separator opts) ->
  iterencode opts default level o = Ok text ->
  no_cr text /\ ends_in_text text.
Proof.
  induction o as [a|ts IH|ts IH|kvs IH] using tree_values_ind;
    intros level text Hsep Hkey; simpl.
  - intros [= <-]. apply encode_leaf_text.
  - intros (items & Hitems & ->)%rmap_Ok. apply rmapM_Ok in Hitems.
    apply bracketed_text; try done; [by repeat constructor..| |].
    + by exists [], 93%N.
    + clear -IH Hitems Hsep Hkey. induction Hitems; inversion IH; subst;
        constructor; [|auto]. by eapply H2.
  - intros (items & Hitems & ->)%rmap_Ok. apply rmapM_Ok in Hitems.
    apply bracketed_text; try done; [by repeat constructor..| |].
    + by exists [], 93%N.
    + clear -IH Hitems Hsep Hkey. induction Hitems; inversion IH; subst;
        constructor; [|auto]. by eapply H2.
  - intros (items & Hitems & ->)%rmap_Ok. apply rmapM_Ok in Hitems.
    apply bracketed_text; try done; [by repeat constructor..| |].
    + by exists [], 125%N.
    + clear -IH Hitems Hsep Hkey.
      induction Hitems as [|kv item kvs items Hkv _ IHl]; inversion IH; subst;
        constructor; [|auto].
      destruct (encode_key opts kv.1) as [k|e] eqn:Ek; simpl in Hkv; [|done].
      apply rmap_Ok in Hkv as (v & Hv & ->).
      unfold encode_key in Ek. apply rmap_Ok in Ek as (k0 & _ & ->).
      apply Forall_app. split; [apply encode_basestring_no_cr|].
      apply Forall_app. split; [done|]. by eapply H1.
Qed.

Lemma universal_newlines_id s : no_cr s -> universal_newlines s = s.
Proof.
  induction 1 as [|c s Hc _ IH]; simpl; [done|].
  destruct (N.eqb_spec c 13); [done|]. by rewrite IH.
Qed.

Lemma actual_json_of_text o text :
  actual_json_of o = Ok text ->
  no_cr text /\ exists body, text = body ++ [10%N] /\ ends_in_text body.
Proof.
  unfold actual_json_of, json_dumps. intros (s & Hs & ->)%rmap_Ok.
  apply iterencode_text in Hs as [Hcr Hend]; [|by repeat constructor..].
  split; [apply Forall_app; split; [done|by repeat constructor]|]. eauto.
Qed.

End JsonText.

(** ** The steps of [assert_equals_resultset] *)

Section Steps.
Context `{RT : PyRuntime}.
Implicit Types (w : world) (E : env) (p : pystr).

Lemma load_expected_unfold p w :
  load_expected p w =
  if path_exists (fs w) p
  then (rmap Some (open_read p (fs w)), w)
  else
    match open_write p (str "{}") (fs w) with
    | (Ok _, fs1) => (Ok None, World fs1 (store w) (fixture_dir w) (output w))
    | (Raise e, fs1) => (Raise e, World fs1 (store w) (fixture_dir w) (output w))
    end.
Proof.
  unfold load_expected, bind, read_fs, on_fs, ret.
  destruct (path_exists (fs w) p).
  - by destruct (open_read p (fs w)).
  - by destruct (open_write p (str "{}") (fs w)) as [[[]|e] fs1].
Qed.

Lemma dump_actual_unfold E actual w :
  dump_actual E actual w =
  match _to_json_dumpable (recursion_limit E) actual (store w) with
  | (Ok data, h) =>
      (match tree_of (recursion_limit E) h data with
       | Some o => actual_json_of o
       | None => Raise RecursionError
       end, World (fs w) h (fixture_dir w) (output w))
  | (Raise e, h) => (Raise e, World (fs w) h (fixture_dir w) (output w))
  end.
Proof.
  unfold dump_actual, bind, on_store.
  destruct (_to_json_dumpable (recursion_limit E) actual (store w)) as [[data|e] h];
    [|done]. simpl. by destruct (tree_of (recursion_limit E) h data).
Qed.

Lemma report_failure_unfold E filename filename_noext method_name rs actual_json w :
  let tmp := tmp_actual_path (ROOT_DIR E) filename_noext method_name in
  report_failure E filename filename_noext method_name rs actual_json w =
  match _check_file_can_be_created tmp (fs w) with
  | (Raise e, fs1) => (Raise e, World fs1 (store w) (fixture_dir w) (output w))
  | (Ok _, fs1) =>
      match open_write tmp actual_json fs1 with
      | (Raise e, fs2) => (Raise e, World fs2 (store w) (fixture_dir w) (output w))
      | (Ok _, fs2) =>
          match open_append (diff_cmd_path (ROOT_DIR E))
                  (diff_command E rs tmp) fs2 with
          | (Raise e, fs3) =>
              (Raise e, World fs3 (store w) (fixture_dir w) (output w))
          | (Ok _, fs3) =>
              (Raise AssertionError,
               World fs3 (store w) (fixture_dir w)
                 (output w ++ failure_output E filename method_name rs tmp))
          end
      end
  end.
Proof.
  intros tmp. unfold report_failure, bind, on_fs, emit, raise. fold tmp.
  destruct (_check_file_can_be_created tmp (fs w)) as [[[]|e] fs1]; [|done].
  simpl. destruct (open_write tmp actual_json fs1) as [[[]|e] fs2]; [|done].
  simpl. destruct (open_append _ _ fs2) as [[[]|e] fs3]; [|done].
  simpl. unfold failure_output. by rewrite <- !app_assoc.
Qed.

Lemma assert_unfold E actual calling_filename w :
  assert_equals_resultset E actual calling_filename w =
  match resolve_names E calling_filename (fixture_dir w) with
  | (Raise e, attr) => (Raise e, World (fs w) (store w) attr (output w))
  | (Ok nm, attr) =>
      match _check_file_can_be_created (nm_resultset_filename nm) (fs w) with
      | (Raise e, fs1) => (Raise e, World fs1 (store w) attr (output w))
      | (Ok _, fs1) =>
          match load_expected (nm_resultset_filename nm)
                  (World fs1 (store w) attr (output w)) with
          | (Raise e, w2) => (Raise e, w2)
          | (Ok expected, w2) =>
              match dump_actual E actual w2 with
              | (Raise e, w3) => (Raise e, w3)
              | (Ok actual_json, w3) =>
                  if bool_decide (expected = Some actual_json) then (Ok tt, w3)
                  else report_failure E (nm_filename nm) (nm_filename_noext nm)
                         (nm_method_name nm) (nm_resultset_filename nm)
                         actual_json w3
              end
          end
      end
  end.
Proof.
  unfold assert_equals_resultset, bind, on_attr, on_fs, ret.
  destruct (resolve_names E calling_filename (fixture_dir w)) as [[nm|e] attr];
    [|done]. simpl.
  destruct (_check_file_can_be_created _ (fs w)) as [[[]|e] fs1]; [|done]. simpl.
  destruct (load_expected _ _) as [[expected|e] w2]; [|done].
  destruct (dump_actual E actual w2) as [[actual_json|e] w3]; [|done].
  by destruct (bool_decide (expected = Some actual_json)).
Qed.

Lemma mkdir_raises c fs e fs1 :
  mkdir c fs = (Raise e, fs1) -> exists n, e = OSError n.
Proof.
  unfold mkdir. destruct (lookup_path fs c); [intros [= <- _]; eauto|].
  destruct (lookup_path fs (parent c)) as [[]|]; intros [= <- _]; eauto.
Qed.

Lemma makedirs_rev_raises rc : forall fs e fs1,
  makedirs_rev rc fs = (Raise e, fs1) -> exists n, e = OSError n.
Proof.
  induction rc as [|x rhead IH]; intros fs e fs1 Em.
  - by eapply mkdir_raises.
  - simpl in Em. destruct rhead as [|y rt]; [by eapply mkdir_raises|].
    destruct (lookup_path fs (rev (y :: rt))); [by eapply mkdir_raises|].
    destruct (makedirs_rev (y :: rt) fs) as [[[]|e1] fs1'] eqn:Er;
      [by eapply mkdir_raises|].
    destruct (IH _ _ _ Er) as [n ->].
    destruct n; try (injection Em as <- _; eauto). by eapply mkdir_raises.
Qed.

Lemma check_raises p fs e fs1 :
  _check_file_can_be_created p fs = (Raise e, fs1) -> exists n, e = OSError n.
Proof.
  unfold _check_file_can_be_created.
  destruct (negb (path_exists fs p)); [|done].
  destruct (makedirs (dirname p) fs) as [[[]|e0] fs0] eqn:Em; [done|].
  assert (exists n, e0 = OSError n) as [n ->].
  { unfold makedirs in Em. destruct (truthy _).
    - by eapply makedirs_rev_raises.
    - injection Em as <- _. eauto. }
  destruct n; intros [= <- _]; eauto.
Qed.

Lemma writable_raises fs p e :
  writable fs p = Raise e -> exists n, e = OSError n.
Proof.
  unfold writable. destruct (truthy p); [|intros [= <-]; eauto].
  destruct (lookup_path fs (components p)) as [[]|]; try done;
    try (intros [= <-]; eauto).
  destruct (lookup_path fs (parent (components p))) as [[]|]; try done;
    intros [= <-]; eauto.
Qed.

Lemma open_write_raises p text fs e fs1 :
  open_write p text fs = (Raise e, fs1) -> exists n, e = OSError n.
Proof.
  unfold open_write. destruct (writable fs p) eqn:Ew; [done|].
  intros [= <- _]. by eapply writable_raises.
Qed.

Lemma open_append_raises p text fs e fs1 :
  open_append p text fs = (Raise e, fs1) -> exists n, e = OSError n.
Proof.
  unfold open_append. destruct (writable fs p) as [c|e'] eqn:Ew.
  - by destruct (fs !! c) as [[]|].
  - intros [= <- _]. by eapply writable_raises.
Qed.

Lemma open_read_raises p fs e :
  open_read p fs = Raise e -> exists n, e = OSError n.
Proof.
  unfold open_read. destruct (truthy p); [|intros [= <-]; eauto].
  destruct (lookup_path fs (components p)) as [[]|]; try done;
    intros [= <-]; eauto.
Qed.

Lemma load_expected_raises p w e w' :
  load_expected p w = (Raise e, w') -> exists n, e = OSError n.
Proof.
  rewrite load_expected_unfold. destruct (path_exists (fs w) p).
  - destruct (open_read p (fs w)) eqn:Er; simpl; [done|].
    intros [= <- _]. by eapply open_read_raises.
  - destruct (open_write p (str "{}") (fs w)) as [[[]|e1] fs1] eqn:Eo; [done|].
    intros [= <- _]. by eapply open_write_raises.
Qed.

Lemma first_frame_raises test_filename calframe e :
  first_frame test_filename calframe = Raise e -> e <> AssertionError.
Proof.
  induction calframe as [|f rest IH]; simpl; [by intros [= <-]|].
  by destruct (0 <=? find (frame_filename f) test_filename).
Qed.

Lemma pop_until_tests_raises n : forall dir_names e,
  pop_until_tests n dir_names = Raise e -> e = IndexError.
Proof.
  induction n as [|n IH]; intros [|d rest] e; simpl; try done.
  - by intros [= <-].
  - destruct (str_eqb d (str "tests")); [done|]. apply IH.
Qed.

Lemma resolve_names_raises E calling_filename attr e attr' :
  resolve_names E calling_filename attr = (Raise e, attr') ->
  e <> AssertionError.
Proof.
  unfold resolve_names.
  destruct (_get_calframe E calling_filename) as [frame|e0] eqn:Ef.
  - destruct (_get_test_subdir (ROOT_DIR E) (class_file E)) as [sub|e1] eqn:Es.
    + unfold get_resultsets_dir, get_test_fixtures_dir.
      destruct (negb (attr_truthy attr)); [|done].
      destruct (negb (0 <? find (class_file E) (str "/tests"))); [|done].
      simpl. by intros [= <- _].
    + intros [= <- _]. unfold _get_test_subdir in Es.
      destruct (pop_until_tests _ _) eqn:Ep; [done|]. simpl in Es.
      injection Es as <-. by rewrite (pop_until_tests_raises _ _ _ Ep).
  - intros [= <- _]. by eapply first_frame_raises.
Qed.

Lemma report_failure_raises E filename filename_noext method_name rs actual_json w :
  exists e w', report_failure E filename filename_noext method_name rs
                 actual_json w = (Raise e, w') /\
               (e = AssertionError \/ exists n, e = OSError n).
Proof.
  rewrite report_failure_unfold.
  destruct (_check_file_can_be_created _ (fs w)) as [[[]|e] fs1] eqn:E1.
  - destruct (open_write _ actual_json fs1) as [[[]|e] fs2] eqn:E2.
    + destruct (open_append _ _ fs2) as [[[]|e] fs3] eqn:E3; [eauto|].
      eexists _, _. split; [done|]. right. by eapply open_append_raises.
    + eexists _, _. split; [done|]. right. by eapply open_write_raises.
  - eexists _, _. split; [done|]. right. by eapply check_raises.
Qed.

(** The objects after the call are those [_to_json_dumpable] leaves, once
    the call has come to the comparison. *)
Lemma assert_store E actual calling_filename w res w' :
  assert_equals_resultset E actual calling_filename w = (res, w') ->
  res = Ok tt \/ res = Raise AssertionError ->
  store w' = (_to_json_dumpable (recursion_limit E) actual (store w)).2.
Proof.
  rewrite assert_unfold.
  destruct (resolve_names E calling_filename (fixture_dir w))
    as [[nm|e] attr] eqn:En.
  2:{ intros [= <- _] [|[= ->]]; [done|].
      by apply resolve_names_raises in En. }
  destruct (_check_file_can_be_created _ (fs w)) as [[[]|e] fs1] eqn:Ec.
  2:{ intros [= <- _] [|[= ->]]; [done|]. by apply check_raises in Ec as [? ?]. }
  destruct (load_expected _ _) as [[expected|e] w2] eqn:El.
  2:{ intros [= <- _] [|[= ->]]; [done|].
      by apply load_expected_raises in El as [? ?]. }
  assert (store w2 = store w) as Hs.
  { rewrite load_expected_unfold in El. simpl in El.
    destruct (path_exists fs1 _).
    - by injection El as _ <-.
    - destruct (open_write _ _ fs1) as [[[]|?] ?]; [|done].
      by injection El as _ <-. }
  rewrite dump_actual_unfold, Hs.
  destruct (_to_json_dumpable (recursion_limit E) actual (store w))
    as [[data|e] h] eqn:Er; simpl.
  2:{ by intros [= _ <-] _. }
  destruct (match tree_of _ h data with Some o => actual_json_of o | None => _ end)
    as [actual_json|e].
  2:{ by intros [= _ <-] _. }
  destruct (bool_decide (expected = Some actual_json)).
  { by intros [= _ <-] _. }
  rewrite report_failure_unfold. simpl.
  destruct (_check_file_can_be_created _ (fs w2)) as [[[]|?] ?];
    [|by intros [= _ <-] _].
  destruct (open_write _ actual_json _) as [[[]|?] ?]; [|by intros [= _ <-] _].
  destruct (open_append _ _ _) as [[[]|?] ?]; by intros [= _ <-] _.
Qed.

End Steps.

(** ** [find], [replace] and the names of the result set *)

Section Names.
Implicit Types (s sub old new root rel a b : pystr).

Lemma startswith_app sub s : startswith sub (sub ++ s) = true.
Proof. induction sub as [|c sub IH]; simpl; [done|]. by rewrite N.eqb_refl. Qed.

Lemma startswith_spec sub s :
  startswith sub s = true <-> exists rest, s = sub ++ rest.
Proof.
  split.
  - revert s. induction sub as [|c sub IH]; intros s; simpl; [eauto|].
    destruct s as [|c' s]; [done|]. intros [Hc Hs]%andb_prop.
    apply N.eqb_eq in Hc as ->. destruct (IH _ Hs) as [rest ->]. eauto.
  - intros [rest ->]. apply startswith_app.
Qed.

Lemma find_from_range sub s : forall i,
  find_from sub s i = -1 \/
  i <= find_from sub s i <= i + Z.of_nat (length s).
Proof.
  induction s as [|c s IH]; intros i; simpl.
  - destruct (startswith sub []); [right; lia|by left].
  - destruct (startswith sub (c :: s)); [right; lia|].
    destruct (IH (i + 1)) as [->|?]; [by left|right; lia].
Qed.

(** [find] gives the first place where [sub] starts, and [-1] exactly when
    [sub] starts nowhere. *)
Lemma find_from_found sub s : forall i,
  0 <= i -> 0 <= find_from sub s i ->
  exists a b, s = a ++ sub ++ b /\ find_from sub s i = i + Z.of_nat (length a) /\
              forall k, (k < length a)%nat -> startswith sub (drop k s) = false.
Proof.
  induction s as [|c s IH]; intros i Hi; simpl.
  - destruct (startswith sub []) eqn:Hs; [|lia]. intros _.
    apply startswith_spec in Hs as [rest Hs]. exists [], rest.
    split; [done|]. split; [simpl; lia|]. simpl. lia.
  - destruct (startswith sub (c :: s)) eqn:Hs.
    + intros _. apply startswith_spec in Hs as [rest Hs]. exists [], rest.
      split; [done|]. split; [simpl; lia|]. simpl. lia.
    + intros Hf. destruct (IH (i + 1) ltac:(lia) Hf) as (a & b & -> & Hfa & Hmin).
      rewrite Hfa.
      exists (c :: a), b. split; [done|]. split; [cbn [length]; lia|].
      intros [|k] Hk; [done|]. simpl. apply Hmin. simpl in Hk. lia.
Qed.

Lemma find_from_absent sub s : forall i,
  0 <= i -> find_from sub s i < 0 ->
  forall a b, s <> a ++ sub ++ b.
Proof.
  induction s as [|c s IH]; intros i Hi; simpl.
  - destruct (startswith sub []) eqn:Hs; [lia|]. intros _ a b Hab.
    destruct a; [|done]. simpl in Hab.
    assert (startswith sub [] = true) by (apply startswith_spec; eauto).
    congruence.
  - destruct (startswith sub (c :: s)) eqn:Hs; [lia|]. intros Hf a b Hab.
    destruct a as [|x a].
    + simpl in Hab.
      assert (startswith sub (c :: s) = true) by (apply startswith_spec; eauto).
      congruence.
    + injection Hab as -> ->. by eapply (IH (i + 1)); [lia|done|].
Qed.

Lemma replace_go_skip old new a s :
  replace_go old new (length a) (a ++ s) = replace_go old new 0 s.
Proof.
  induction a as [|c a IH]; [done|]. simpl. done.
Qed.

Lemma replace_go_absent old new s : forall i,
  0 <= i -> find_from old s i < 0 -> replace_go old new 0 s = s.
Proof.
  induction s as [|c s IH]; intros i Hi; simpl; [done|].
  destruct (startswith old (c :: s)); [lia|]. intros Hf.
  by rewrite (IH (i + 1)) by (lia || done).
Qed.

(** Removing [root] from a path that starts with it leaves the rest, when
    [root] does not come again in the rest. *)
Lemma replace_prefix root rel :
  find rel root < 0 -> replace (root ++ rel) root [] = rel.
Proof.
  intros Hf. destruct root as [|c root].
  - unfold find in Hf. destruct rel; simpl in Hf; lia.
  - unfold replace. change ((c :: root) ++ rel) with (c :: (root ++ rel)).
    cbn [replace_go].
    change (c :: root ++ rel) with ((c :: root) ++ rel).
    rewrite startswith_app. cbn [length app].
    replace (S (length root) - 1)%nat with (length root) by lia.
    rewrite replace_go_skip. by eapply (replace_go_absent _ _ _ 0).
Qed.

Lemma last_slash_unique a b a' b' :
  a ++ 47%N :: b = a' ++ 47%N :: b' -> (47%N ∉ b) -> (47%N ∉ b') ->
  a = a' /\ b = b'.
Proof.
  revert a'. induction a as [|x a IH]; intros [|y a'] Heq Hb Hb'; simpl in Heq.
  - by injection Heq as ->.
  - injection Heq as <- ->. exfalso. apply Hb.
    apply elem_of_app. right. left.
  - injection Heq as -> <-. exfalso. apply Hb'.
    apply elem_of_app. right. left.
  - injection Heq as -> Heq. destruct (IH _ Heq) as [-> ->]; done.
Qed.

Lemma basename_app a b : (47%N ∉ b) -> basename (a ++ 47%N :: b) = b.
Proof.
  intros Hb.
  destruct (dirname_basename_split (a ++ 47%N :: b))
    as [(Hp & _)|(a' & b' & Heq & Hb' & -> & _)].
  - exfalso. apply Hp. apply elem_of_app. right. left.
  - by destruct (last_slash_unique _ _ _ _ Heq Hb Hb') as [_ ->].
Qed.

(** [get_test_fixtures_dir] with nothing cached. *)
Lemma get_test_fixtures_dir_fresh filename :
  let pos := find filename (str "/tests") in
  get_test_fixtures_dir filename None =
  if 0 <? pos
  then (Ok (slice_to filename pos ++ str "/tests/fixtures"),
        Some (slice_to filename pos ++ str "/tests/fixtures"))
  else (Raise (ValueError (fstr_unable filename)), None).
Proof.
  unfold get_test_fixtures_dir. simpl.
  by destruct (0 <? find filename (str "/tests")).
Qed.

(** The names for a test class in [<root>/app/tests/unit/test_foo.py], when
    [root] does not come again inside [/app/tests/unit/test_foo.py]. *)
Lemma resolve_names_under_root (E : env) attr fixtures attr' frame :
  class_file E = ROOT_DIR E ++ str "/app/tests/unit/test_foo.py" ->
  find (str "/app/tests/unit/test_foo.py") (ROOT_DIR E) < 0 ->
  _get_calframe E None = Ok frame ->
  get_test_fixtures_dir (class_file E) attr = (Ok fixtures, attr') ->
  _get_test_subdir (ROOT_DIR E) (class_file E) = Ok (str "unit") /\
  resolve_names E None attr =
    (Ok (Names (class_file E) (str "test_foo") (frame_function frame)
           (fixtures ++ str "/resultsets/unit/test_foo/" ++
            frame_function frame ++ str ".json")), attr').
Proof.
  intros Hfile Hroot Hframe Hfix.
  assert (_get_test_subdir (ROOT_DIR E) (class_file E) = Ok (str "unit")) as Hsub.
  { unfold _get_test_subdir. rewrite Hfile, replace_prefix by done.
    by vm_compute. }
  split; [done|]. unfold resolve_names, get_resultsets_dir.
  rewrite Hframe, Hsub, Hfix. simpl.
  assert (basename (class_file E) = str "test_foo.py") as ->.
  { rewrite Hfile.
    change (str "/app/tests/unit/test_foo.py") with
      (str "/app/tests/unit" ++ 47%N :: str "test_foo.py").
    rewrite app_assoc. apply basename_app. vm_compute.
    intros H. apply list_elem_of_In in H. simpl in H. intuition discriminate. }
  f_equal. f_equal. unfold resultset_path.
  change (replace (str "test_foo.py") (str ".py") []) with (str "test_foo").
  rewrite <- !app_assoc. done.
Qed.

End Names.

(** * What the specification says, checked against the code *)

(** ** Normalization *)

Section NormalizationClaims.
Context `{RT : PyRuntime}.
Open Scope nat_scope.
Implicit Types (h : heap) (v r : value) (t : tree) (l : loc) (o : obj).

Lemma normalize_dumpable t t' : normalize t = Ok t' -> dumpable t' = true.
Proof.
  revert t'. induction t as [a|ts IH|ts IH|kvs IH] using tree_values_ind;
    intros t'; simpl.
  - intros (b & Hb & ->)%rmap_Ok. simpl.
    destruct a; simpl in Hb; try (by injection Hb as <-).
    + by destruct (decode_utf8 b0); simpl in Hb; [injection Hb as <-|].
    + by destruct (float_of_decimal d); simpl in Hb; [injection Hb as <-|].
  - intros (ts' & Hts & ->)%rmap_Ok. apply rmapM_Ok in Hts. simpl.
    induction Hts as [|x y xs ys Hxy _ IHs]; [done|].
    inversion IH as [|? ? Hx Hxs]; subst. simpl.
    by rewrite (Hx _ Hxy), IHs.
  - intros (ts' & Hts & ->)%rmap_Ok. apply rmapM_Ok in Hts. simpl.
    induction Hts as [|x y xs ys Hxy _ IHs]; [done|].
    inversion IH as [|? ? Hx Hxs]; subst. simpl.
    by rewrite (Hx _ Hxy), IHs.
  - intros (kvs' & Hkvs & ->)%rmap_Ok. apply rmapM_Ok in Hkvs. simpl.
    induction Hkvs as [|x y xs ys Hxy _ IHs]; [done|].
    inversion IH as [|? ? Hx Hxs]; subst. simpl.
    apply rmap_Ok in Hxy as (z & Hz & ->). simpl.
    by rewrite (Hx _ Hz), IHs.
Qed.

Lemma normalize_dict_keys (kvs : list (tree * tree)) t' :
  normalize (TDict kvs) = Ok t' ->
  exists vs', rmapM normalize kvs.*2 = Ok vs' /\ t' = TDict (zip kvs.*1 vs').
Proof.
  simpl. intros (kvs' & Hkvs & ->)%rmap_Ok. apply rmapM_Ok in Hkvs.
  exists kvs'.*2. split.
  - apply rmapM_Ok. induction Hkvs as [|x y xs ys Hxy _ IHs]; [constructor|].
    apply rmap_Ok in Hxy as (z & Hz & ->). simpl. by constructor.
  - f_equal. induction Hkvs as [|x y xs ys Hxy _ IHs]; [done|].
    apply rmap_Ok in Hxy as (z & Hz & ->). simpl. by f_equal.
Qed.

(** The run of [dump_actual] on a value that is read from the store. *)
Lemma dump_actual_Ok E actual w text w1 :
  dump_actual E actual w = (Ok text, w1) ->
  exists r (tr : tree),
    _to_json_dumpable (recursion_limit E) actual (store w) = (Ok r, store w1) /\
    w1 = World (fs w) (store w1) (fixture_dir w) (output w) /\
    tree_of (recursion_limit E) (store w1) r = Some tr /\
    actual_json_of tr = Ok text.
Proof.
  rewrite dump_actual_unfold.
  destruct (_to_json_dumpable (recursion_limit E) actual (store w))
    as [[r|e] h'] eqn:Hrun; [|done].
  destruct (tree_of (recursion_limit E) h' r) as [tr|] eqn:Ho; [|done].
  intros [= Htext <-]. simpl. eauto 10.
Qed.

(** C2: normalization is idempotent.  For a value [actual] that reads as the
    tree [t]: the normal form of [t] is its own normal form; when
    [_to_json_dumpable] returns [r], a second call on [r] returns [r] again
    and changes no object, so the text serialized after two calls is the
    text serialized after one; and a value that is already in normal form is
    returned as it is, with no object changed. *)
Theorem C2_normalization_idempotent (E : env) (actual : value) (w : world)
    (t : tree) :
  denotes (store w) actual t ->
  (forall t', normalize t = Ok t' -> normalize t' = Ok t') /\
  (forall r h',
     _to_json_dumpable (recursion_limit E) actual (store w) = (Ok r, h') ->
     _to_json_dumpable (recursion_limit E) r h' = (Ok r, h')) /\
  (forall text w1,
     dump_actual E actual w = (Ok text, w1) ->
     exists r,
       _to_json_dumpable (recursion_limit E) actual (store w) = (Ok r, store w1) /\
       dump_actual E r w1 = (Ok text, w1)) /\
  (normal t -> call_depth t <= recursion_limit E ->
   _to_json_dumpable (recursion_limit E) actual (store w) = (Ok actual, store w)).
Proof.
  intros Hden.
  assert (forall r h',
     _to_json_dumpable (recursion_limit E) actual (store w) = (Ok r, h') ->
     _to_json_dumpable (recursion_limit E) r h' = (Ok r, h')) as Htwice.
  { intros r h' Hrun.
    pose proof (_to_json_dumpable_run _ _ _ _ _ _ Hden Hrun) as Hspec.
    simpl in Hspec. destruct Hspec as (t' & Hn & Hr & Hd & _).
    apply normalize_results in Hn as (Hn & _).
    by eapply _to_json_dumpable_fixed. }
  split; [|split; [done|split]].
  - intros t' Hn. by apply normalize_results in Hn as (Hn & _).
  - intros text w1 (r & o & Hrun & Hw1 & Ho & Htext)%dump_actual_Ok.
    exists r. split; [done|]. rewrite dump_actual_unfold.
    rewrite (Htwice _ _ Hrun), Ho, Htext. clear. by destruct w1.
  - intros Hn Hd. by eapply _to_json_dumpable_fixed.
Qed.

(** C3: the table of the leaves.  With a frame left for the call, a decimal
    becomes [float] of it (or the call raises what [float] raises); a
    date-time becomes the text [YYYY-MM-DD HH:MM:SS.ffffff], every field in
    its full width of digits; a date becomes [YYYY-MM-DD]; a byte string
    becomes what decoding it as UTF-8 gives (or the call raises what the
    decoding raises); any other value that is no list, dict or tuple is
    returned as it is.  No object of the store is changed. *)
Theorem C3_leaf_table (d : nat) (h : heap) (t : datetime) (x : date) :
  valid_datetime t = true -> valid_date x = true ->
  (forall dec, _to_json_dumpable (S d) (VLeaf (LDecimal dec)) h =
               (rmap (fun f => VLeaf (LFloat f)) (float_of_decimal dec), h)) /\
  _to_json_dumpable (S d) (VLeaf (LDateTime t)) h =
    (Ok (VLeaf (LStr (
       fixed_digits 4 (year (dt_date t)) ++ str "-" ++
       fixed_digits 2 (month (dt_date t)) ++ str "-" ++
       fixed_digits 2 (day (dt_date t)) ++ str " " ++
       fixed_digits 2 (hour t) ++ str ":" ++
       fixed_digits 2 (minute t) ++ str ":" ++
       fixed_digits 2 (second t) ++ str "." ++
       fixed_digits 6 (microsecond t)))), h) /\
  _to_json_dumpable (S d) (VLeaf (LDate x)) h =
    (Ok (VLeaf (LStr (
       fixed_digits 4 (year x) ++ str "-" ++
       fixed_digits 2 (month x) ++ str "-" ++
       fixed_digits 2 (day x)))), h) /\
  (forall b, _to_json_dumpable (S d) (VLeaf (LBytes b)) h =
             (rmap (fun s => VLeaf (LStr s)) (decode_utf8 b), h)) /\
  (forall a, dumpable_leaf a = true ->
             _to_json_dumpable (S d) (VLeaf a) h = (Ok (VLeaf a), h)) /\
  (forall width n, length (fixed_digits width n) = width /\
                   Forall (fun c => (48 <= c <= 57)%N) (fixed_digits width n)).
Proof.
  intros Ht Hx. split; [done|]. split.
  { by rewrite <- (strftime_datetime t Ht). }
  split.
  { by rewrite <- (strftime_date x Hx). }
  split; [done|]. split.
  { by intros []. }
  intros width n. split; [apply fixed_digits_length|apply fixed_digits_digit].
Qed.

(** C4: normalization goes through every level.  For a value that reads as
    [t], with frames enough for the depth of [t]: when the table gives the
    normal form [t'], the call returns a value that reads as [t'], and
    nothing is left in [t'] to convert at any depth; when the table fails
    on some leaf, the call raises the same exception.  In the table a dict
    keeps its keys, in their order, each with the normal form of its value,
    and a tuple or list becomes the list of the normal forms of its
    elements. *)
Theorem C4_recursive_normalization (n : nat) (v : value) (h : heap) (t : tree) :
  denotes h v t -> call_depth t <= n ->
  (forall t', normalize t = Ok t' ->
     dumpable t' = true /\
     exists r h', _to_json_dumpable n v h = (Ok r, h') /\ denotes h' r t') /\
  (forall e, normalize t = Raise e ->
     exists h', _to_json_dumpable n v h = (Raise e, h')) /\
  (forall (kvs : list (tree * tree)) t',
     normalize (TDict kvs) = Ok t' ->
     exists vs', rmapM normalize kvs.*2 = Ok vs' /\ t' = TDict (zip kvs.*1 vs')) /\
  (forall ts t',
     normalize (TTuple ts) = Ok t' \/ normalize (TList ts) = Ok t' ->
     exists ts', rmapM normalize ts = Ok ts' /\ t' = TList ts').
Proof.
  intros Hden Hd.
  pose proof (_to_json_dumpable_normalize n v h t Hden Hd) as Hrun.
  split; [|split; [|split]].
  - intros t' Ht'. rewrite Ht' in Hrun. split; [by eapply normalize_dumpable|done].
  - intros e He. by rewrite He in Hrun.
  - apply normalize_dict_keys.
  - intros ts t' [H|H]; simpl in H; apply rmap_Ok in H as (ts' & ? & ->); eauto.
Qed.

(** C10: lists and dicts are normalized in place.  Given a reference to a
    list or dict, [_to_json_dumpable] returns the same reference; the
    object under it is of the same kind, with the same keys, and its
    entries now read as the normal forms of the entries it had.  The
    objects are left that way by [assert_equals_resultset], when it passes
    and when it fails the comparison.  Given a tuple, the call returns a
    reference that was not in use before, to a list. *)
Theorem C10_in_place (E : env) (actual : value) (calling_filename : option pystr)
    (w : world) (t : tree) (r : value) (h' : heap) :
  denotes (store w) actual t ->
  _to_json_dumpable (recursion_limit E) actual (store w) = (Ok r, h') ->
  (forall l o, actual = VRef l -> store w !! l = Some o ->
     r = VRef l /\
     exists o' ts ts',
       t = obj_tree o ts /\ h' !! l = Some o' /\
       (forall xs, obj_tree o' xs = obj_tree o xs) /\
       rmapM normalize ts = Ok ts' /\
       Forall2 (denotes h') (obj_values o') ts') /\
  (forall res w',
     assert_equals_resultset E actual calling_filename w = (res, w') ->
     res = Ok tt \/ res = Raise AssertionError -> store w' = h') /\
  (forall vs, actual = VTuple vs ->
     exists l' xs, r = VRef l' /\ store w !! l' = None /\
                   h' !! l' = Some (OList xs)).
Proof.
  intros Hden Hrun. split; [|split].
  - intros l o -> Hl.
    pose proof (_to_json_dumpable_run _ _ _ _ _ _ Hden Hrun) as Hspec.
    simpl in Hspec. destruct Hspec as (t' & _ & _ & _ & _ & _ & Hsame).
    pose proof Hden as Hden'.
    apply denotes_ref in Hden' as (o0 & ts & Hl0 & Hts & ->).
    assert (o0 = o) as -> by congruence.
    assert (length ts = length (obj_values o)) as Hlen.
    { symmetry. by eapply Forall2_length. }
    destruct (Hsame l o ts eq_refl Hl eq_refl Hlen)
      as (-> & o' & ts' & Hl' & Hkind & Hts' & Hden').
    split; [done|]. exists o', ts, ts'. done.
  - intros res w' Hcall Hres.
    rewrite (assert_store _ _ _ _ _ _ Hcall Hres). by rewrite Hrun.
  - intros vs ->. destruct (recursion_limit E) as [|d]; [done|].
    simpl in Hrun. set (l' := fresh (dom (store w))) in *.
    assert (store w !! l' = None) as Hfresh.
    { apply not_elem_of_dom. apply is_fresh. }
    destruct d as [|d]; [done|]. simpl in Hrun.
    rewrite lookup_insert_eq in Hrun. simpl in Hrun.
    destruct (rewrite_items (_to_json_dumpable d) l' (length vs) 0
                (<[l' := OList vs]> (store w))) as [[u|e] h2] eqn:Hloop; [|done].
    injection Hrun as <- <-.
    assert (denotes (<[l' := OList vs]> (store w)) (VRef l') (TList
              match t with TTuple ts => ts | _ => [] end)) as Hl.
    { apply denotes_tuple in Hden as (ts & Hts & ->).
      apply denotes_ref. exists (OList vs), ts. rewrite lookup_insert_eq.
      split; [done|]. split; [|done]. eapply Forall2_impl; [exact Hts|].
      intros ? ? ?. eapply denotes_weaken; [|done].
      by apply insert_subseteq. }
    assert (_to_json_dumpable (S d) (VRef l') (<[l' := OList vs]> (store w))
            = (Ok (VRef l'), h2)) as Hrun2.
    { simpl. rewrite lookup_insert_eq. simpl. by rewrite Hloop. }
    pose proof (_to_json_dumpable_run _ _ _ _ _ _ Hl Hrun2) as Hspec.
    simpl in Hspec. destruct Hspec as (t' & _ & _ & _ & _ & _ & Hsame).
    apply denotes_tuple in Hden as (ts & Hts & ->).
    destruct (Hsame l' (OList vs) ts eq_refl) as (_ & o' & ts' & Hl' & Hkind & _).
    { by rewrite lookup_insert_eq. }
    { done. }
    { simpl. symmetry. by eapply Forall2_length. }
    exists l'. destruct o' as [xs|kvs].
    + exists xs. done.
    + specialize (Hkind []). done.
Qed.

End NormalizationClaims.

(** ** The directories and the path of the result set *)

(** C6: [get_test_fixtures_dir] raises [ValueError] exactly when [find]
    gives no index above zero, and for an index above zero it returns the
    text before it followed by [/tests/fixtures].  A path that starts with
    the marker has it at index zero: [/tests/test_foo.py] is refused with
    [ValueError], where the marker is found and the directory would be
    [/tests/fixtures]. *)
Theorem C6_marker_at_start_rejected :
  find (str "/tests/test_foo.py") (str "/tests") = 0 /\
  get_test_fixtures_dir (str "/tests/test_foo.py") None =
    (Raise (ValueError (fstr_unable (str "/tests/test_foo.py"))), None) /\
  slice_to (str "/tests/test_foo.py") 0 ++ str "/tests/fixtures" =
    str "/tests/fixtures" /\
  forall filename,
    ((get_test_fixtures_dir filename None).1 =
       Raise (ValueError (fstr_unable filename)) <->
     find filename (str "/tests") <= 0) /\
    ((get_test_fixtures_dir filename None).1 =
       Ok (slice_to filename (find filename (str "/tests")) ++
           str "/tests/fixtures") <->
     0 < find filename (str "/tests")).
Proof.
  split; [done|]. split; [done|]. split; [done|]. intros filename.
  rewrite get_test_fixtures_dir_fresh. cbv zeta.
  destruct (Z.ltb_spec 0 (find filename (str "/tests"))); simpl.
  - split; (split; [done || lia|]); [lia|done].
  - split; (split; [done || lia|]); [done|lia].
Qed.

(** C7: [_get_test_subdir] removes [ROOT_DIR] wherever it comes in the path
    of the caller, not only in front.  With [ROOT_DIR] [/unit], the caller
    [/unit/app/tests/unit/test_foo.py] gets the empty sub-directory, not
    [unit], and the result set of [test_bar] is put at
    [/unit/app/tests/fixtures/resultsets//test_foo/test_bar.json]. *)
Theorem C7_root_removed_everywhere :
  let root := str "/unit" in
  let caller := str "/unit/app/tests/unit/test_foo.py" in
  let E := Env root (str "/site/abstract_django_testcase.py") caller
             [FrameInfo caller (str "test_bar")] (fun _ => None) 1000 in
  caller = root ++ str "/app/tests/unit/test_foo.py" /\
  replace caller root [] = str "/app/tests/test_foo.py" /\
  _get_test_subdir root caller = Ok [] /\
  (resolve_names E None None).1 =
    Ok (Names caller (str "test_foo") (str "test_bar")
          (str "/unit/app/tests/fixtures/resultsets//test_foo/test_bar.json")).
Proof. cbv zeta. repeat split; by vm_compute. Qed.

(** ** [assert_equals_resultset] *)

Section AssertClaims.
Context `{RT : PyRuntime}.
Implicit Types (w : world) (E : env) (p : pystr).

Lemma resultset_path_shape resultsets_dir sub_dir filename_noext method_name :
  let p := resultset_path resultsets_dir sub_dir filename_noext method_name in
  truthy p = true /\ last p <> Some 47%N /\ 47%N ∈ p.
Proof.
  cbv zeta. unfold resultset_path. split; [|split].
  - by destruct resultsets_dir.
  - rewrite !app_assoc. change (str ".json") with (str ".jso" ++ [110%N]).
    rewrite app_assoc, last_snoc. done.
  - apply elem_of_app. right. apply elem_of_app. left. by left.
Qed.

Lemma resolve_names_Ok E calling_filename attr nm attr' :
  resolve_names E calling_filename attr = (Ok nm, attr') ->
  exists resultsets_dir sub_dir,
    nm_resultset_filename nm =
    resultset_path resultsets_dir sub_dir (nm_filename_noext nm)
      (nm_method_name nm).
Proof.
  unfold resolve_names.
  destruct (_get_calframe E calling_filename) as [frame|e]; [|done].
  destruct (_get_test_subdir (ROOT_DIR E) (class_file E)) as [sub|e]; [|done].
  destruct (get_resultsets_dir (class_file E) attr) as [[dir|e] a]; [|done].
  simpl. intros [= <- _]. simpl. eauto.
Qed.

Lemma resolve_names_shape E calling_filename attr nm attr' :
  resolve_names E calling_filename attr = (Ok nm, attr') ->
  truthy (nm_resultset_filename nm) = true /\
  last (nm_resultset_filename nm) <> Some 47%N /\
  47%N ∈ nm_resultset_filename nm.
Proof.
  intros (dir & sub & ->)%resolve_names_Ok. apply resultset_path_shape.
Qed.

(** The layout of [json.dumps] under the options of the call. *)
Lemma newline_indent_resultset level :
  newline_indent resultset_options level = [10%N] ++ repeat 32%N (4 * level).
Proof. done. Qed.

Lemma escape_char_literal c :
  (32 <= c)%N -> c <> 34%N -> c <> 92%N ->
  escape_char (ensure_ascii resultset_options) c = [c].
Proof.
  intros H32 H34 H92. unfold escape_char. simpl.
  repeat match goal with
         | |- context [(c =? ?k)%N] =>
             destruct (N.eqb_spec c k) as [?|_]; [lia|]
         end.
  destruct (N.ltb_spec c 32); [lia|done].
Qed.

(** C8: the text of the actual value.  When [dump_actual] gives a text, it
    is what the encoder writes for the normalized value, then one line
    feed, and the encoder's text does not end with a line feed.  Under the
    options of the call an array or object that is not empty is written
    with each item on a line of its own, indented by four spaces for each
    level, the items parted by a comma; a dict gives its members in the
    order of its entries, each as key, colon, space, value; and inside a
    string every character from the space upwards, but the double quote
    and the backslash, is written as it is, whether ASCII or not. *)
Theorem C8_json_format (E : env) (actual : value) (w : world) (text : pystr)
    (w1 : world) :
  dump_actual E actual w = (Ok text, w1) ->
  (exists r (tr : tree) body,
     _to_json_dumpable (recursion_limit E) actual (store w) = (Ok r, store w1) /\
     tree_of (recursion_limit E) (store w1) r = Some tr /\
     iterencode resultset_options default_str 0 tr = Ok body /\
     text = body ++ [10%N] /\ ends_in_text body) /\
  (forall level op cl x items,
     bracketed resultset_options level op cl (x :: items) =
     op ++ [10%N] ++ repeat 32%N (4 * S level) ++
     join (str "," ++ [10%N] ++ repeat 32%N (4 * S level)) (x :: items) ++
     [10%N] ++ repeat 32%N (4 * level) ++ cl) /\
  (forall level (kvs : list (tree * tree)) body,
     iterencode resultset_options default_str level (TDict kvs) = Ok body ->
     exists items,
       body = bracketed resultset_options level (str "{") (str "}") items /\
       Forall2 (fun kv item =>
                  exists k v,
                    encode_key resultset_options kv.1 = Ok k /\
                    iterencode resultset_options default_str (S level) kv.2
                      = Ok v /\
                    item = k ++ str ": " ++ v) kvs items) /\
  (forall level ts body,
     iterencode resultset_options default_str level (TList ts) = Ok body ->
     exists items,
       body = bracketed resultset_options level (str "[") (str "]") items /\
       Forall2 (fun x item =>
                  iterencode resultset_options default_str (S level) x = Ok item)
               ts items) /\
  (forall s,
     Forall (fun c => (32 <= c)%N /\ c <> 34%N /\ c <> 92%N) s ->
     encode_basestring (ensure_ascii resultset_options) s =
     [34%N] ++ s ++ [34%N]).
Proof.
  intros (r & tr & Hrun & _ & Htr & Htext)%dump_actual_Ok.
  split; [|split; [|split; [|split]]].
  - pose proof (actual_json_of_text _ _ Htext) as (_ & body & -> & Hbody).
    unfold actual_json_of, json_dumps in Htext.
    apply rmap_Ok in Htext as (body' & Hb & Heq).
    apply app_inj_tail in Heq as [-> _]. eauto 10.
  - intros level op cl x items. unfold bracketed.
    by rewrite !newline_indent_resultset, <- !app_assoc.
  - intros level kvs body. simpl.
    intros (items & Hitems & ->)%rmap_Ok. exists items. split; [done|].
    apply rmapM_Ok in Hitems. eapply Forall2_impl; [exact Hitems|].
    intros [k0 v0] item. simpl.
    destruct (encode_key resultset_options k0) as [k|e]; [|done]. simpl.
    intros (v & Hv & ->)%rmap_Ok. eauto.
  - intros level ts body. simpl.
    intros (items & Hitems & ->)%rmap_Ok. exists items. split; [done|].
    by apply rmapM_Ok in Hitems.
  - intros s Hs. unfold encode_basestring. f_equal. f_equal.
    induction Hs as [|c s (H32 & H34 & H92) _ IH]; [done|].
    cbn [flat_map]. by rewrite (escape_char_literal c), IH.
Qed.

Lemma components_last p : p <> [] -> last p <> Some 47%N -> components p <> [].
Proof.
  intros Hne Hlast.
  destruct (dirname_basename_split p) as [(Hp & _)|(a & b & -> & Hb & _)].
  - by rewrite (components_no_slash p).
  - assert (b <> []) as Hbne.
    { intros ->. apply Hlast. by rewrite last_snoc. }
    change (a ++ 47%N :: b) with (a ++ str "/" ++ b).
    rewrite components_app, (components_no_slash b) by done.
    by destruct (components a).
Qed.

Lemma grows_under_parent_keeps c fs0 fs1 :
  c <> [] -> grows_under (parent c) fs0 fs1 -> fs1 !! c = fs0 !! c.
Proof.
  intros Hc H. destruct (H c) as [->|(_ & _ & k & Hk)]; [done|].
  pose proof (parent_length c Hc) as Hlen. rewrite Hk in Hlen at 2.
  rewrite length_take in Hlen. lia.
Qed.

(** C9: a matching file lets the call pass.  When the file of the result
    set holds the text that the actual value serializes to, the call
    returns normally; the files are those it found, and nothing is printed
    or run. *)
Theorem C9_match_passes (E : env) (actual : value)
    (calling_filename : option pystr) (w : world) (nm : names)
    (attr' : option pystr) (text : pystr) (w1 : world) :
  resolve_names E calling_filename (fixture_dir w) = (Ok nm, attr') ->
  lookup_path (fs w) (components (nm_resultset_filename nm)) = Some (File text) ->
  dump_actual E actual (World (fs w) (store w) attr' (output w)) = (Ok text, w1) ->
  assert_equals_resultset E actual calling_filename w = (Ok tt, w1) /\
  fs w1 = fs w /\ output w1 = output w.
Proof.
  intros Hnm Hfile Hdump.
  pose proof (resolve_names_shape _ _ _ _ _ Hnm) as (Ht & _ & _).
  assert (path_exists (fs w) (nm_resultset_filename nm) = true) as Hex.
  { unfold path_exists. by rewrite Ht, Hfile. }
  pose proof Hdump as (r & tr & _ & Hw1 & _ & Htext)%dump_actual_Ok.
  simpl in Hw1. split; [|by rewrite Hw1].
  rewrite assert_unfold, Hnm. unfold _check_file_can_be_created.
  rewrite Hex. simpl. rewrite load_expected_unfold. simpl. rewrite Hex.
  unfold open_read. rewrite Ht, Hfile. simpl.
  apply actual_json_of_text in Htext as (Hcr & _).
  rewrite (universal_newlines_id _ Hcr), Hdump.
  by rewrite bool_decide_eq_true_2.
Qed.

(** C1: a missing file is made, and the call fails.  When the file of the
    result set is not there, the call does not return normally, whatever
    the actual value.  In a file system where every node lies in a
    directory and no file stands in the way of the directories of the
    path, [_check_file_can_be_created] leaves every directory above the
    file in place, changing nothing else, and the file is then written
    with [{}] while the expected text is [None], which is no text. *)
Theorem C1_missing_file_created (E : env) (actual : value)
    (calling_filename : option pystr) (w : world) (nm : names)
    (attr' : option pystr) :
  resolve_names E calling_filename (fixture_dir w) = (Ok nm, attr') ->
  path_exists (fs w) (nm_resultset_filename nm) = false ->
  let p := nm_resultset_filename nm in
  (exists e, (assert_equals_resultset E actual calling_filename w).1 = Raise e) /\
  (closed (fs w) -> no_file_above (fs w) (parent (components p)) ->
   exists fs1,
     _check_file_can_be_created p (fs w) = (Ok tt, fs1) /\
     grows_under (parent (components p)) (fs w) fs1 /\
     (forall k, lookup_path fs1 (take k (parent (components p))) = Some Dir) /\
     load_expected p (World fs1 (store w) attr' (output w)) =
       (Ok None,
        World (<[components p := File (str "{}")]> fs1) (store w) attr'
          (output w)) /\
     forall actual_json : pystr, None <> Some actual_json).
Proof.
  intros Hnm Hex p.
  pose proof (resolve_names_shape _ _ _ _ _ Hnm) as (Ht & Hlast & Hin).
  fold p in Ht, Hlast, Hin.
  assert (p <> []) as Hne by (by destruct p).
  pose proof (components_last p Hne Hlast) as Hc.
  pose proof (path_exists_false _ _ Ht Hex) as Hnone.
  split.
  - rewrite assert_unfold, Hnm. fold p.
    destruct (_check_file_can_be_created p (fs w)) as [[[]|e] fs1] eqn:Ec;
      [|eauto].
    rewrite load_expected_unfold. simpl.
    destruct (path_exists fs1 p) eqn:Hex1.
    + assert (lookup_path fs1 (components p) = Some Dir) as Hdir.
      { unfold path_exists in Hex1. rewrite Ht in Hex1. simpl in Hex1.
        apply check_grows in Ec. rewrite lookup_path_cons in * by done.
        destruct (Ec (components p)) as [Heq|(_ & ? & _)]; [|done].
        rewrite Heq, Hnone in Hex1. done. }
      unfold open_read. rewrite Ht, Hdir. simpl. eauto.
    + destruct (open_write p (str "{}") fs1) as [[[]|e] fs2]; [|eauto].
      destruct (dump_actual E actual _) as [[actual_json|e] w3]; [|eauto].
      rewrite bool_decide_eq_false_2 by done.
      destruct (report_failure_raises E (nm_filename nm) (nm_filename_noext nm)
                  (nm_method_name nm) p actual_json w3) as (e & w' & -> & _).
      eauto.
  - intros Hcl Hno.
    destruct (check_creates p (fs w) Hcl Hlast Hin Hno)
      as (fs1 & Hcheck & Hcl1 & Hgrow & Hdirs).
    exists fs1. split; [done|]. split; [done|]. split; [done|]. split; [|done].
    assert (lookup_path fs1 (components p) = None) as Hnone1.
    { rewrite lookup_path_cons in * by done.
      by rewrite (grows_under_parent_keeps _ _ _ Hc Hgrow). }
    rewrite load_expected_unfold. simpl.
    unfold path_exists. rewrite Ht, Hnone1. simpl.
    rewrite open_write_ok; [done..|].
    specialize (Hdirs (length (parent (components p)))).
    by rewrite firstn_all in Hdirs.
Qed.

(** The components of the two paths of the handler. *)
Lemma diff_cmd_path_components root :
  components (diff_cmd_path root) =
  components root ++ [str ".donotcommit_tmp_diff_cmd"].
Proof.
  unfold diff_cmd_path.
  change (str "/.donotcommit_tmp_diff_cmd") with
    (str "/" ++ str ".donotcommit_tmp_diff_cmd").
  rewrite components_app. by f_equal.
Qed.

Lemma tmp_actual_path_components root filename_noext method_name :
  exists rest,
    rest <> [] /\
    components (tmp_actual_path root filename_noext method_name) =
    components root ++ [str ".donotcommit_tmp"] ++ rest.
Proof.
  unfold tmp_actual_path.
  set (file := filename_noext ++ str "-" ++ method_name ++ str "_ACTUAL.json").
  exists (components file). split.
  - apply components_last.
    + unfold file. by destruct filename_noext.
    + unfold file. rewrite !app_assoc.
      change (str "_ACTUAL.json") with (str "_ACTUAL.jso" ++ [110%N]).
      by rewrite app_assoc, last_snoc.
  - change (str "/.donotcommit_tmp/" ++ file) with
      (str "/" ++ (str ".donotcommit_tmp" ++ str "/" ++ file)).
    rewrite !components_app. by repeat f_equal.
Qed.

Lemma tmp_actual_path_shape root filename_noext method_name :
  let p := tmp_actual_path root filename_noext method_name in
  truthy p = true /\ last p <> Some 47%N /\ 47%N ∈ p.
Proof.
  cbv zeta. unfold tmp_actual_path. split; [|split].
  - by destruct root.
  - rewrite !app_assoc.
    change (str "_ACTUAL.json") with (str "_ACTUAL.jso" ++ [110%N]).
    by rewrite app_assoc, last_snoc.
  - apply elem_of_app. right. by left.
Qed.

Lemma parent_app (c : list pystr) rest :
  rest <> [] -> parent (c ++ rest) = c ++ parent rest.
Proof.
  intros Hne. unfold parent. rewrite length_app.
  destruct rest as [|x rest]; [done|]. simpl length.
  rewrite take_app_ge by lia. f_equal. f_equal. lia.
Qed.

(** Which command goes to the log. *)
Lemma diff_command_cases E rs tmp :
  let cmd := diff_command E rs tmp in
  (which E (str "charm") <> None ->
   cmd = str "charm diff " ++ rs ++ str " " ++ tmp ++ [10%N]) /\
  (which E (str "charm") = None ->
   which E (str "pycharm-community") <> None ->
   cmd = str "pycharm-community diff " ++ rs ++ str " " ++ tmp ++ [10%N]) /\
  (which E (str "charm") = None -> which E (str "pycharm-community") = None ->
   which E (str "meld") <> None ->
   cmd = str "meld " ++ tmp ++ str " " ++ rs ++ [10%N]) /\
  (which E (str "charm") = None -> which E (str "pycharm-community") = None ->
   which E (str "meld") = None -> which E (str "code") <> None ->
   cmd = str "code -d " ++ tmp ++ str " " ++ rs ++ [10%N]) /\
  (which E (str "charm") = None -> which E (str "pycharm-community") = None ->
   which E (str "meld") = None -> which E (str "code") = None ->
   cmd = []).
Proof.
  cbv zeta. unfold diff_command.
  destruct (which E (str "charm")), (which E (str "pycharm-community")),
    (which E (str "meld")), (which E (str "code")); simpl; by repeat split.
Qed.

(** C5: what a mismatch leaves behind.  When the call has come to the
    comparison and the expected text is not the actual text, in a file
    system that lets the two files be written, the call raises
    [AssertionError]; the file [<root>/.donotcommit_tmp/<file>-<method>_ACTUAL.json]
    then holds the actual text, and the log [<root>/.donotcommit_tmp_diff_cmd]
    holds what it held before followed by the command for the first tool
    that [which] finds among [charm], [pycharm-community], [meld] and
    [code], or by nothing when it finds none. *)
Theorem C5_mismatch_reported (E : env) (actual : value)
    (calling_filename : option pystr) (w : world) (nm : names)
    (attr' : option pystr) (fs1 : filesystem) (expected : option pystr)
    (w2 : world) (actual_json : pystr) (w3 : world) :
  resolve_names E calling_filename (fixture_dir w) = (Ok nm, attr') ->
  _check_file_can_be_created (nm_resultset_filename nm) (fs w) = (Ok tt, fs1) ->
  load_expected (nm_resultset_filename nm)
    (World fs1 (store w) attr' (output w)) = (Ok expected, w2) ->
  dump_actual E actual w2 = (Ok actual_json, w3) ->
  expected <> Some actual_json ->
  let tmp :=
    tmp_actual_path (ROOT_DIR E) (nm_filename_noext nm) (nm_method_name nm) in
  let log := diff_cmd_path (ROOT_DIR E) in
  let cmd := diff_command E (nm_resultset_filename nm) tmp in
  let old := match lookup_path (fs w3) (components log) with
             | Some (File s) => s
             | _ => []
             end in
  closed (fs w3) ->
  no_file_above (fs w3) (parent (components tmp)) ->
  lookup_path (fs w3) (components tmp) <> Some Dir ->
  lookup_path (fs w3) (components log) <> Some Dir ->
  exists fs',
    assert_equals_resultset E actual calling_filename w =
      (Raise AssertionError,
       World fs' (store w3) (fixture_dir w3)
         (output w3 ++ failure_output E (nm_filename nm) (nm_method_name nm)
                         (nm_resultset_filename nm) tmp)) /\
    lookup_path fs' (components tmp) = Some (File actual_json) /\
    lookup_path fs' (components log) = Some (File (old ++ cmd)) /\
    (which E (str "charm") <> None ->
     cmd = str "charm diff " ++ nm_resultset_filename nm ++ str " " ++ tmp ++
           [10%N]) /\
    (which E (str "charm") = None ->
     which E (str "pycharm-community") <> None ->
     cmd = str "pycharm-community diff " ++ nm_resultset_filename nm ++
           str " " ++ tmp ++ [10%N]) /\
    (which E (str "charm") = None -> which E (str "pycharm-community") = None ->
     which E (str "meld") <> None ->
     cmd = str "meld " ++ tmp ++ str " " ++ nm_resultset_filename nm ++ [10%N]) /\
    (which E (str "charm") = None -> which E (str "pycharm-community") = None ->
     which E (str "meld") = None -> which E (str "code") <> None ->
     cmd = str "code -d " ++ tmp ++ str " " ++ nm_resultset_filename nm ++
           [10%N]) /\
    (which E (str "charm") = None -> which E (str "pycharm-community") = None ->
     which E (str "meld") = None -> which E (str "code") = None ->
     cmd = []).
Proof.
  intros Hnm Hcheck Hload Hdump Hne tmp log cmd old Hcl Hno Htmp Hlog.
  rewrite assert_unfold, Hnm, Hcheck, Hload, Hdump.
  rewrite bool_decide_eq_false_2 by done.
  rewrite report_failure_unfold. cbv zeta. fold tmp log cmd.
  pose proof (tmp_actual_path_shape (ROOT_DIR E) (nm_filename_noext nm)
                (nm_method_name nm)) as (Ht & Hlast & Hin).
  fold tmp in Ht, Hlast, Hin.
  destruct (check_creates tmp (fs w3) Hcl Hlast Hin Hno)
    as (fs4 & -> & Hcl4 & Hgrow & Hdirs).
  destruct (tmp_actual_path_components (ROOT_DIR E) (nm_filename_noext nm)
              (nm_method_name nm)) as (rest & Hrest & Hct).
  fold tmp in Hct.
  pose proof (diff_cmd_path_components (ROOT_DIR E)) as Hclog. fold log in Hclog.
  set (cr := components (ROOT_DIR E)) in *.
  assert (components tmp <> []) as Hctne.
  { rewrite Hct. by destruct cr. }
  assert (components log <> []) as Hclne.
  { rewrite Hclog. by destruct cr. }
  assert (parent (components tmp) = cr ++ [str ".donotcommit_tmp"] ++ parent rest)
    as Hpar.
  { rewrite Hct, app_assoc, parent_app by done. by rewrite <- app_assoc. }
  assert (components log <> components tmp) as Hdiff.
  { rewrite Hct, Hclog. intros Heq. apply app_inv_head in Heq.
    by injection Heq. }
  assert (forall k, components log <> take k (parent (components tmp))) as Hnotdir.
  { intros k. rewrite Hpar, Hclog. intros Heq.
    destruct (decide (k <= length cr)%nat) as [Hk|Hk].
    - rewrite take_app_le in Heq by done.
      apply (f_equal length) in Heq. rewrite length_app, length_take in Heq.
      simpl in Heq. lia.
    - rewrite take_app_ge in Heq by lia. apply app_inv_head in Heq.
      destruct (k - length cr)%nat as [|j] eqn:Hj; [lia|]. simpl in Heq.
      by injection Heq. }
  assert (lookup_path fs4 cr = Some Dir) as Hroot.
  { specialize (Hdirs (length cr)). rewrite Hpar in Hdirs.
    by rewrite take_app_length in Hdirs. }
  assert (cr <> components tmp) as Hcrtmp.
  { rewrite Hct. intros Heq. apply (f_equal length) in Heq.
    rewrite length_app in Heq. simpl in Heq. lia. }
  assert (fs4 !! components tmp = fs w3 !! components tmp) as Hsame_tmp
    by (by apply grows_under_parent_keeps).
  assert (fs4 !! components log = fs w3 !! components log) as Hsame_log.
  { destruct (Hgrow (components log)) as [->|(_ & _ & k & Hk)]; [done|].
    by destruct (Hnotdir k). }
  rewrite !lookup_path_cons in Htmp, Hlog by done.
  assert (open_write tmp actual_json fs4 =
          (Ok tt, <[components tmp := File actual_json]> fs4)) as ->.
  { unfold open_write, writable. rewrite Ht.
    rewrite lookup_path_cons, Hsame_tmp by done.
    destruct (fs w3 !! components tmp) as [[s|]|]; [done|done|].
    specialize (Hdirs (length (parent (components tmp)))).
    rewrite firstn_all in Hdirs. by rewrite Hdirs. }
  set (fs5 := <[components tmp := File actual_json]> fs4).
  assert (fs5 !! components log = fs w3 !! components log) as Hlog5.
  { unfold fs5. rewrite lookup_insert_ne by done. exact Hsame_log. }
  assert (open_append log cmd fs5 =
          (Ok tt, <[components log := File (old ++ cmd)]> fs5)) as ->.
  { unfold open_append, writable.
    assert (truthy log = true) as -> by (unfold log, diff_cmd_path;
                                          by destruct (ROOT_DIR E)).
    unfold old.
    rewrite (lookup_path_cons fs5), (lookup_path_cons (fs w3)), Hlog5 by done.
    destruct (fs w3 !! components log) as [[s|]|] eqn:Hl; [|done|].
    - by rewrite Hlog5.
    - assert (parent (components log) = cr) as ->.
      { rewrite Hclog. apply parent_snoc. }
      unfold fs5. rewrite lookup_path_insert_ne by done.
      rewrite Hroot. fold fs5. by rewrite Hlog5. }
  eexists. split; [done|]. split; [|split].
  - rewrite lookup_path_insert_ne by done. unfold fs5.
    by rewrite lookup_path_insert_eq.
  - by rewrite lookup_path_insert_eq.
  - apply diff_command_cases.
Qed.

End AssertClaims.

(** * Further properties of the code *)

(** ** Directories and names *)

Section MorePaths.
Implicit Types (s sub filename : pystr) (fs : filesystem).

Lemma find_absent_iff s sub :
  find s sub < 0 <-> forall a b, s <> a ++ sub ++ b.
Proof.
  split.
  - intros H. by apply (find_from_absent sub s 0).
  - intros H. unfold find. destruct (find_from_range sub s 0) as [->|Hr]; [lia|].
    destruct (find_from_found sub s 0) as (a & b & Hs & _); [lia|lia|].
    by destruct (H a b).
Qed.

(** X1: [get_test_fixtures_dir] cuts the path at the first [/tests].  When
    it returns a directory, the file name is [prefix ++ "/tests" ++ rest]
    with a prefix that is not empty, the directory is
    [prefix ++ "/tests/fixtures"], it is what the attribute now caches, and
    no [/tests] starts earlier in the file name.  When [/tests] comes
    nowhere in the file name the call raises [ValueError] and caches
    nothing. *)
Theorem get_test_fixtures_dir_first_marker filename :
  (forall d attr,
     get_test_fixtures_dir filename None = (Ok d, attr) ->
     exists prefix rest,
       filename = prefix ++ str "/tests" ++ rest /\ prefix <> [] /\
       d = prefix ++ str "/tests/fixtures" /\ attr = Some d /\
       forall a b, filename = a ++ str "/tests" ++ b ->
                   (length prefix <= length a)%nat) /\
  ((forall a b, filename <> a ++ str "/tests" ++ b) ->
   get_test_fixtures_dir filename None =
   (Raise (ValueError (fstr_unable filename)), None)).
Proof.
  split.
  - intros d attr. rewrite get_test_fixtures_dir_fresh. cbv zeta.
    destruct (Z.ltb_spec 0 (find filename (str "/tests"))) as [Hpos|]; [|done].
    intros [= <- <-]. unfold find in *.
    destruct (find_from_found (str "/tests") filename 0)
      as (prefix & rest & Hs & Hf & Hmin); [lia|lia|].
    exists prefix, rest. split; [done|].
    assert (prefix <> []) as Hne by (intros ->; simpl in Hf; lia).
    split; [done|]. rewrite Hf. unfold slice_to.
    replace (Z.to_nat (0 + Z.of_nat (length prefix))) with (length prefix) by lia.
    assert (take (length prefix) filename = prefix) as ->
      by (rewrite Hs; apply take_app_length).
    split; [done|]. split; [done|].
    intros a b Hab.
    destruct (decide (length prefix <= length a)%nat) as [|Hlt]; [done|].
    exfalso. specialize (Hmin (length a) ltac:(lia)).
    rewrite Hab, drop_app_length, startswith_app in Hmin. done.
  - intros Habs. apply (proj2 (find_absent_iff filename (str "/tests"))) in Habs.
    rewrite get_test_fixtures_dir_fresh. cbv zeta.
    by destruct (Z.ltb_spec 0 (find filename (str "/tests"))); [lia|].
Qed.

(** X2: the fixtures directory is computed once.  After a call that
    returned a directory, every later call returns that directory and
    leaves the attribute as it is, whatever file name it is made for, also
    one without [/tests]; a call that raised has cached nothing. *)
Theorem get_test_fixtures_dir_cached filename filename' r attr :
  get_test_fixtures_dir filename None = (r, attr) ->
  match r with
  | Ok d => get_test_fixtures_dir filename' attr = (Ok d, attr)
  | Raise _ => attr = None
  end.
Proof.
  rewrite get_test_fixtures_dir_fresh. cbv zeta.
  destruct (0 <? find filename (str "/tests")); intros [= <- <-]; [|done].
  unfold get_test_fixtures_dir.
  assert (attr_truthy (Some (slice_to filename (find filename (str "/tests")) ++
                             str "/tests/fixtures")) = true) as ->; [|done].
  simpl. by destruct (slice_to filename (find filename (str "/tests"))).
Qed.

Lemma pop_until_tests_cons n x rest :
  pop_until_tests (S n) (x :: rest) =
  if str_eqb x (str "tests") then Ok rest else pop_until_tests n rest.
Proof. done. Qed.

Lemma pop_until_tests_split n : forall names a b,
  names = a ++ str "tests" :: b -> (str "tests" ∉ a) ->
  (length a < n)%nat -> pop_until_tests n names = Ok b.
Proof.
  induction n as [|n IH]; intros names a b -> Ha Hn; [lia|].
  destruct a as [|x a].
  - change ([] ++ str "tests" :: b) with (str "tests" :: b).
    rewrite pop_until_tests_cons.
    unfold str_eqb. by rewrite bool_decide_eq_true_2.
  - apply not_elem_of_cons in Ha as [Hx Ha].
    change ((x :: a) ++ str "tests" :: b) with (x :: (a ++ str "tests" :: b)).
    rewrite pop_until_tests_cons.
    unfold str_eqb. rewrite bool_decide_eq_false_2 by done.
    apply (IH _ a b); [done|done|]. simpl in Hn. lia.
Qed.

Lemma pop_until_tests_none names :
  (str "tests" ∉ names) -> pop_until_tests (length names) names = Ok [].
Proof.
  induction names as [|x names IH]; intros Hno; [done|].
  apply not_elem_of_cons in Hno as [Hx Hno].
  change (length (x :: names)) with (S (length names)).
  rewrite pop_until_tests_cons.
  unfold str_eqb. rewrite bool_decide_eq_false_2 by done. by apply IH.
Qed.

(** X3: [_get_test_subdir] never raises, and gives the directories after
    the first [tests].  With [names] the directory names of the caller's
    path, once [ROOT_DIR] is taken out of it: the result is the names after
    the first name that is [tests], joined by [/]; it is the empty string
    when no name is [tests]. *)
Theorem _get_test_subdir_after_tests (working_dir filename : pystr) :
  let names := split (dirname (replace filename working_dir [])) (str "/") in
  (exists sub_dir, _get_test_subdir working_dir filename = Ok sub_dir) /\
  (forall a b, names = a ++ str "tests" :: b -> (str "tests" ∉ a) ->
     _get_test_subdir working_dir filename = Ok (join (str "/") b)) /\
  ((str "tests" ∉ names) -> _get_test_subdir working_dir filename = Ok []).
Proof.
  intros names. unfold _get_test_subdir. fold names.
  assert (forall a b, names = a ++ str "tests" :: b -> (str "tests" ∉ a) ->
            pop_until_tests (length names) names = Ok b) as Hsplit.
  { intros a b Hab Ha. apply (pop_until_tests_split _ _ a b Hab Ha).
    rewrite Hab, length_app. simpl. lia. }
  split; [|split].
  - destruct (decide (str "tests" ∈ names)) as [Hin|Hno].
    + apply list_elem_of_split_l in Hin as (a & b & Hab & Ha).
      rewrite (Hsplit a b Hab Ha). simpl. eauto.
    + rewrite (pop_until_tests_none names Hno). simpl. eauto.
  - intros a b Hab Ha. by rewrite (Hsplit a b Hab Ha).
  - intros Hno. by rewrite (pop_until_tests_none names Hno).
Qed.

Lemma find_present_iff s sub :
  0 <= find s sub <-> exists a b, s = a ++ sub ++ b.
Proof.
  split.
  - intros H. destruct (find_from_found sub s 0) as (a & b & Hs & _); [lia|done|].
    eauto.
  - intros (a & b & Hs).
    destruct (Z.lt_ge_cases (find s sub) 0) as [Hneg|]; [|done].
    pose proof (proj1 (find_absent_iff s sub) Hneg) as Habs.
    by destruct (Habs a b).
Qed.

Lemma first_frame_spec test_filename frames :
  match first_frame test_filename frames with
  | Ok frame =>
      exists before after,
        frames = before ++ frame :: after /\
        0 <= find (frame_filename frame) test_filename /\
        Forall (fun f => find (frame_filename f) test_filename < 0) before
  | Raise e =>
      e = ValueError (str "Unable to determine calling frame") /\
      Forall (fun f => find (frame_filename f) test_filename < 0) frames
  end.
Proof.
  induction frames as [|f rest IH]; simpl; [done|].
  destruct (Z.leb_spec 0 (find (frame_filename f) test_filename)) as [Hf|Hf].
  - exists [], rest. done.
  - destruct (first_frame test_filename rest) as [frame|e].
    + destruct IH as (before & after & -> & Hfr & Hbefore).
      exists (f :: before), after. split; [done|]. split; [done|].
      by constructor.
    + destruct IH as [-> Hall]. split; [done|]. by constructor.
Qed.

(** X4: [_get_calframe] returns the innermost frame whose file name
    contains the name of the test file, its own frame and the frame of
    [assert_equals_resultset] included; it raises [ValueError] exactly when
    no frame on the stack has such a file name.  The name of the test file
    is the keyword argument, or the file of the class when the argument is
    missing or empty. *)
Theorem _get_calframe_first_match (E : env) (calling_filename : option pystr) :
  let test_filename :=
    if attr_truthy calling_filename then default [] calling_filename
    else class_file E in
  let stack :=
    FrameInfo (module_file E) (str "_get_calframe") ::
    FrameInfo (module_file E) (str "assert_equals_resultset") :: callers E in
  match _get_calframe E calling_filename with
  | Ok frame =>
      exists before after,
        stack = before ++ frame :: after /\
        (exists a b, frame_filename frame = a ++ test_filename ++ b) /\
        Forall (fun f => forall a b,
                  frame_filename f <> a ++ test_filename ++ b) before
  | Raise e =>
      e = ValueError (str "Unable to determine calling frame") /\
      Forall (fun f => forall a b,
                frame_filename f <> a ++ test_filename ++ b) stack
  end.
Proof.
  intros test_filename stack. unfold _get_calframe.
  assert ((if negb (attr_truthy calling_filename) then class_file E
           else default [] calling_filename) = test_filename) as ->.
  { unfold test_filename. by destruct (attr_truthy calling_filename). }
  fold stack. pose proof (first_frame_spec test_filename stack) as H.
  destruct (first_frame test_filename stack) as [frame|e].
  - destruct H as (before & after & Hs & Hfr & Hbefore).
    exists before, after. split; [done|]. split; [by apply find_present_iff|].
    eapply Forall_impl; [exact Hbefore|]. intros f Hf.
    by apply (proj1 (find_absent_iff _ _)).
  - destruct H as [-> Hall]. split; [done|].
    eapply Forall_impl; [exact Hall|]. intros f Hf.
    by apply (proj1 (find_absent_iff _ _)).
Qed.

(** X17: the sandbox, the datasets and the result sets lie under the
    fixtures directory.  When [get_test_fixtures_dir] gives the directory
    [d], the three other getters give paths whose components are those of
    [d], then [sandbox], [datasets] or [resultsets], then those of the file
    name they were given; an empty file name gives the sandbox directory
    itself, written with a slash at its end.  When
    [get_test_fixtures_dir] raises, the three raise the same exception.  The
    cached attribute is left as [get_test_fixtures_dir] leaves it. *)
Theorem fixture_directories_layout (calling_file filename : pystr)
    (attr : option pystr) :
  match get_test_fixtures_dir calling_file attr with
  | (Ok d, attr') =>
      (exists p, get_sandbox_dir calling_file (Some filename) attr = (Ok p, attr') /\
                 components p =
                 components d ++ [str "sandbox"] ++ components filename) /\
      (exists p, get_sandbox_dir calling_file None attr = (Ok p, attr') /\
                 components p = components d ++ [str "sandbox"]) /\
      get_sandbox_dir calling_file (Some []) attr =
        (Ok (d ++ str "/sandbox/"), attr') /\
      (exists p, get_datasets_dir calling_file filename attr = (Ok p, attr') /\
                 components p =
                 components d ++ [str "datasets"] ++ components filename) /\
      (exists p, get_resultsets_dir calling_file attr = (Ok p, attr') /\
                 components p = components d ++ [str "resultsets"])
  | (Raise e, attr') =>
      get_sandbox_dir calling_file (Some filename) attr = (Raise e, attr') /\
      get_sandbox_dir calling_file None attr = (Raise e, attr') /\
      get_datasets_dir calling_file filename attr = (Raise e, attr') /\
      get_resultsets_dir calling_file attr = (Raise e, attr')
  end.
Proof.
  unfold get_sandbox_dir, get_datasets_dir, get_resultsets_dir.
  destruct (get_test_fixtures_dir calling_file attr) as [[d|e] attr']; [|done].
  cbn [rmap].
  assert (forall name, components (d ++ str "/" ++ name) =
                       components d ++ components name) as Happ
    by (intros; apply components_app).
  split; [|split; [|split; [|split]]].
  - eexists. split; [done|].
    change (d ++ str "/sandbox") with (d ++ str "/" ++ str "sandbox").
    rewrite <- !app_assoc.
    change (d ++ str "/" ++ str "sandbox" ++ str "/" ++ filename) with
      (d ++ str "/" ++ (str "sandbox" ++ str "/" ++ filename)).
    by rewrite Happ, components_app.
  - eexists. split; [done|].
    change (d ++ str "/sandbox") with (d ++ str "/" ++ str "sandbox").
    by rewrite Happ.
  - cbv beta iota delta [rmap rbind]. by rewrite <- app_assoc, app_nil_r.
  - eexists. split; [done|].
    change (d ++ str "/datasets/" ++ filename) with
      (d ++ str "/" ++ (str "datasets" ++ str "/" ++ filename)).
    by rewrite Happ, components_app.
  - eexists. split; [done|].
    change (d ++ str "/resultsets") with (d ++ str "/" ++ str "resultsets").
    by rewrite Happ.
Qed.

End MorePaths.

(** ** [_check_file_can_be_created] *)

Section MoreCreating.
Implicit Types (fs : filesystem) (c : list pystr) (p : pystr).
Open Scope nat_scope.

Lemma mkdir_result c fs r fs1 :
  closed fs -> mkdir c fs = (r, fs1) ->
  closed fs1 /\
  (r = Ok tt \/ r = Raise (OSError EEXIST) ->
   exists n, lookup_path fs1 c = Some n).
Proof.
  intros Hcl. unfold mkdir.
  destruct (lookup_path fs c) as [n|] eqn:Hc.
  - intros [= <- <-]. eauto.
  - assert (c <> []) as Hne by (by intros ->).
    destruct (lookup_path fs (parent c)) as [[text|]|] eqn:Hp;
      intros [= <- <-]; try (split; [done|]; by intros [|]).
    split; [apply closed_insert; auto|].
    intros _. exists Dir. by apply lookup_path_insert_eq.
Qed.

Lemma makedirs_rev_result rc : forall fs r fs1,
  closed fs -> makedirs_rev rc fs = (r, fs1) ->
  closed fs1 /\
  (r = Ok tt \/ r = Raise (OSError EEXIST) ->
   exists n, lookup_path fs1 (rev rc) = Some n).
Proof.
  induction rc as [|x rhead IH]; intros fs r fs1 Hcl.
  - apply mkdir_result; done.
  - cbn [makedirs_rev].
    destruct rhead as [|y rt]; [by apply mkdir_result|].
    destruct (lookup_path fs (rev (y :: rt))); [by apply mkdir_result|].
    destruct (makedirs_rev (y :: rt) fs) as [[[]|e] fs0] eqn:Hhead;
      pose proof (IH _ _ _ Hcl Hhead) as [Hcl0 _].
    + by apply mkdir_result.
    + destruct e as [| |[]| | | |]; try (by intros [= <- <-]; split;
        [done|intros [|]]).
      by apply mkdir_result.
Qed.

Lemma makedirs_rev_existing rc fs n :
  closed fs -> lookup_path fs (rev rc) = Some n ->
  makedirs_rev rc fs = (Raise (OSError EEXIST), fs).
Proof.
  intros Hcl Hn. destruct rc as [|x rhead].
  - done.
  - cbn [makedirs_rev].
    assert (match rhead with
            | [] => (Ok tt, fs)
            | _ :: _ =>
                match lookup_path fs (rev rhead) with
                | Some _ => (Ok tt, fs)
                | None => makedirs_rev rhead fs
                end
            end = (Ok tt, fs)) as ->.
    { destruct rhead as [|y rt]; [done|].
      pose proof (closed_prefix fs _ n Hcl Hn (length (rev (y :: rt)))) as Hp.
      change (rev (x :: y :: rt)) with (rev (y :: rt) ++ [x]) in Hp.
      rewrite take_app_length in Hp. rewrite Hp; [done|].
      rewrite length_app. simpl. lia. }
    unfold mkdir. by rewrite Hn.
Qed.

Lemma check_existing_dirname p fs n :
  closed fs -> truthy (dirname p) = true ->
  lookup_path fs (components (dirname p)) = Some n ->
  _check_file_can_be_created p fs = (Ok tt, fs).
Proof.
  intros Hcl Ht Hn. unfold _check_file_can_be_created.
  destruct (negb (path_exists fs p)); [|done].
  unfold makedirs. rewrite Ht.
  by rewrite (makedirs_rev_existing _ fs n Hcl) by (by rewrite rev_involutive).
Qed.

(** X5: [_check_file_can_be_created] only adds directories.  Whatever it
    returns or raises, every file and directory that was there is still
    there, a file with the text it had; and what is new is a directory, at
    the directory of the file name or above it. *)
Theorem _check_file_can_be_created_only_adds p fs r fs1 :
  _check_file_can_be_created p fs = (r, fs1) ->
  (forall c n, lookup_path fs c = Some n -> lookup_path fs1 c = Some n) /\
  (forall c, lookup_path fs c = None ->
     lookup_path fs1 c = None \/
     (lookup_path fs1 c = Some Dir /\
      exists k, c = take k (components (dirname p)))).
Proof.
  intros Hgrow%check_grows. split.
  - intros c n. by eapply grows_lookup_path.
  - intros c Hc. destruct c as [|x c]; [done|]. simpl in *.
    destruct (Hgrow (x :: c)) as [->|(_ & Hd & Hk)]; [by left|by right].
Qed.

(** X6: what [os.makedirs] finds in place is passed over.  When something
    is already at the directory of the file name, a directory or even a
    regular file, the call returns normally and changes nothing: the
    [FileExistsError] of [os.makedirs] is swallowed. *)
Theorem _check_file_can_be_created_existing p fs n :
  closed fs -> truthy (dirname p) = true ->
  lookup_path fs (components (dirname p)) = Some n ->
  _check_file_can_be_created p fs = (Ok tt, fs) /\
  makedirs (dirname p) fs = (Raise (OSError EEXIST), fs).
Proof.
  intros Hcl Ht Hn. split; [by eapply check_existing_dirname|].
  unfold makedirs. rewrite Ht.
  by rewrite (makedirs_rev_existing _ fs n Hcl) by (by rewrite rev_involutive).
Qed.

(** X7: a bare file name is refused.  For a name with no slash in it that
    does not exist, the directory part is empty, [os.makedirs("")] raises
    [FileNotFoundError], and the call lets it through; nothing is
    changed. *)
Theorem _check_file_can_be_created_bare_name p fs :
  (47%N ∉ p) -> path_exists fs p = false ->
  dirname p = [] /\
  _check_file_can_be_created p fs = (Raise (OSError ENOENT), fs).
Proof.
  intros Hp Hex.
  assert (dirname p = []) as Hd.
  { destruct (dirname_basename_split p) as [(_ & Hd & _)|(a & b & -> & _)];
      [done|]. exfalso. apply Hp. apply elem_of_app. right. left. }
  split; [done|]. unfold _check_file_can_be_created. rewrite Hex, Hd. done.
Qed.

(** X8: a second call changes nothing.  In a file system where every node
    lies in a directory, after a call that returned normally the same call
    returns normally again and leaves every file and directory as it
    is. *)
Theorem _check_file_can_be_created_twice p fs fs1 :
  closed fs -> _check_file_can_be_created p fs = (Ok tt, fs1) ->
  closed fs1 /\ _check_file_can_be_created p fs1 = (Ok tt, fs1).
Proof.
  intros Hcl Hcheck. pose proof Hcheck as Hcheck'.
  unfold _check_file_can_be_created in Hcheck.
  destruct (path_exists fs p) eqn:Hex; simpl in Hcheck.
  { injection Hcheck as <-. done. }
  unfold makedirs in Hcheck.
  destruct (truthy (dirname p)) eqn:Ht; [|done].
  destruct (makedirs_rev (rev (components (dirname p))) fs) as [r0 fs0] eqn:Hm.
  destruct (makedirs_rev_result _ _ _ _ Hcl Hm) as [Hcl0 Hthere].
  rewrite rev_involutive in Hthere.
  assert (fs0 = fs1 /\ (r0 = Ok tt \/ r0 = Raise (OSError EEXIST))) as [-> Hr0].
  { destruct r0 as [[]|e]; [injection Hcheck as <-; auto|].
    destruct e as [| |[]| | | |]; try done. injection Hcheck as <-. auto. }
  destruct (Hthere Hr0) as [n Hn]. split; [done|].
  by eapply check_existing_dirname.
Qed.

End MoreCreating.

(** ** [_to_json_dumpable] on any store *)

Section MoreNormalization.
Context `{RT : PyRuntime}.
Open Scope nat_scope.
Implicit Types (h : heap) (v r : value) (l : loc) (o : obj).

(** The length of a list, the keys of a dict. *)
Definition shape (o : obj) : nat + list tree :=
  match o with
  | OList vs => inl (length vs)
  | ODict kvs => inr kvs.*1
  end.

Definition keeps_shapes h h' : Prop :=
  forall l o, h !! l = Some o ->
              exists o', h' !! l = Some o' /\ shape o' = shape o.

Lemma keeps_shapes_refl h : keeps_shapes h h.
Proof. intros l o Hl. eauto. Qed.

Lemma keeps_shapes_trans h1 h2 h3 :
  keeps_shapes h1 h2 -> keeps_shapes h2 h3 -> keeps_shapes h1 h3.
Proof.
  intros H12 H23 l o Hl. destruct (H12 l o Hl) as (o2 & Hl2 & Hs2).
  destruct (H23 l o2 Hl2) as (o3 & Hl3 & Hs3). exists o3. split; [done|].
  congruence.
Qed.

Lemma shape_obj_set idx x o : shape (obj_set idx x o) = shape o.
Proof.
  destruct o as [vs|kvs]; simpl.
  - by rewrite length_insert.
  - f_equal. revert idx.
    induction kvs as [|[k v] kvs IH]; intros [|idx]; simpl; try done.
    f_equal. apply IH.
Qed.

Lemma keeps_shapes_alter idx x l h :
  keeps_shapes h (alter (obj_set idx x) l h).
Proof.
  intros l' o Hl'. destruct (decide (l = l')) as [<-|Hne].
  - exists (obj_set idx x o). rewrite lookup_alter_eq, Hl'. simpl.
    split; [done|apply shape_obj_set].
  - exists o. by rewrite lookup_alter_ne.
Qed.

Lemma rewrite_items_keeps_shapes (f : value -> heap -> result value * heap) l :
  (forall v h res h', f v h = (res, h') -> keeps_shapes h h') ->
  forall n idx h res h',
    rewrite_items f l n idx h = (res, h') -> keeps_shapes h h'.
Proof.
  intros Hf. induction n as [|n IH]; intros idx h res h'; simpl.
  - intros [= <- <-]. apply keeps_shapes_refl.
  - destruct (h !! l) as [o|]; [|intros [= <- <-]; apply keeps_shapes_refl].
    destruct (obj_values o !! idx) as [v|];
      [|intros [= <- <-]; apply keeps_shapes_refl].
    destruct (f v h) as [[x|e] h1] eqn:Hfv.
    + intros Hrest. eapply keeps_shapes_trans; [by eapply Hf|].
      eapply keeps_shapes_trans; [apply keeps_shapes_alter|]. by eapply IH.
    + intros [= <- <-]. by eapply Hf.
Qed.

(** X9: no object changes its shape.  Whatever [_to_json_dumpable] is
    given, on any store (also one with cycles), and whether it returns or
    raises, every list of the store keeps its length and every dict keeps
    its keys, in their order; no object is removed. *)
Theorem _to_json_dumpable_keeps_shapes (n : nat) :
  forall v h res h',
    _to_json_dumpable n v h = (res, h') ->
    forall l o, h !! l = Some o ->
                exists o', h' !! l = Some o' /\ shape o' = shape o.
Proof.
  change (forall v h res h',
            _to_json_dumpable n v h = (res, h') -> keeps_shapes h h').
  induction n as [|d IH]; intros v h res h'; simpl.
  - intros [= <- <-]. apply keeps_shapes_refl.
  - destruct v as [a|vs|l].
    + destruct a; intros [= <- <-]; apply keeps_shapes_refl.
    + intros Hrun. eapply keeps_shapes_trans; [|by eapply IH].
      intros l o Hl. exists o. split; [|done].
      rewrite lookup_insert_ne; [done|]. intros <-.
      pose proof (is_fresh (dom h)) as Hfresh.
      apply Hfresh. by apply elem_of_dom.
    + destruct (h !! l) as [o|] eqn:Hl;
        [|intros [= <- <-]; apply keeps_shapes_refl].
      destruct (rewrite_items (_to_json_dumpable d) l (length (obj_values o)) 0 h)
        as [[u|e] h2] eqn:Hloop; intros [= <- <-];
        by eapply (rewrite_items_keeps_shapes _ l IH).
Qed.

(** X10: a list or dict that holds itself cannot be normalized.  When the
    first item of the object at [l] is the reference [l] itself, the call
    raises [RecursionError] whatever the limit of recursion, and the store
    is as it was. *)
Theorem _to_json_dumpable_self_reference (n : nat) l o h :
  h !! l = Some o -> obj_values o !! 0 = Some (VRef l) ->
  _to_json_dumpable n (VRef l) h = (Raise RecursionError, h).
Proof.
  intros Hl Hfirst. induction n as [|d IH]; [done|].
  simpl. rewrite Hl.
  destruct (obj_values o) as [|v vs] eqn:Hvs; [done|].
  injection Hfirst as ->. simpl. rewrite Hl, Hvs. simpl. by rewrite IH.
Qed.

Lemma rewrite_items_step (f : value -> heap -> result value * heap)
    l n idx h o v :
  h !! l = Some o -> obj_values o !! idx = Some v ->
  rewrite_items f l (S n) idx h =
  match f v h with
  | (Ok x, h1) => rewrite_items f l n (S idx) (alter (obj_set idx x) l h1)
  | (Raise e, h1) => (Raise e, h1)
  end.
Proof. intros Hl Hv. simpl. by rewrite Hl, Hv. Qed.

Lemma _to_json_dumpable_ref d l h o :
  h !! l = Some o ->
  _to_json_dumpable (S d) (VRef l) h =
  match rewrite_items (_to_json_dumpable d) l (length (obj_values o)) 0 h with
  | (Ok _, h') => (Ok (VRef l), h')
  | (Raise e, h') => (Raise e, h')
  end.
Proof. intros Hl. simpl. by rewrite Hl. Qed.

(** X11: a failure does not undo what was already converted.  For a list
    that starts with a decimal and a byte string, when the decimal converts
    and the bytes are not UTF-8, the call raises the error of the decoding
    and leaves the list with the float in the place of the decimal. *)
Theorem _to_json_dumpable_not_atomic (d : nat) l h dec f b e rest :
  h !! l = Some (OList (VLeaf (LDecimal dec) :: VLeaf (LBytes b) :: rest)) ->
  float_of_decimal dec = Ok f -> decode_utf8 b = Raise e ->
  _to_json_dumpable (S (S d)) (VRef l) h =
  (Raise e,
   <[l := OList (VLeaf (LFloat f) :: VLeaf (LBytes b) :: rest)]> h).
Proof.
  intros Hl Hf Hb. rewrite (_to_json_dumpable_ref _ _ _ _ Hl).
  cbn [obj_values length].
  rewrite (rewrite_items_step _ l _ 0 h _ (VLeaf (LDecimal dec)) Hl eq_refl).
  assert (_to_json_dumpable (S d) (VLeaf (LDecimal dec)) h =
          (Ok (VLeaf (LFloat f)), h)) as ->.
  { cbn [_to_json_dumpable]. by rewrite Hf. }
  assert (alter (obj_set 0 (VLeaf (LFloat f))) l h =
          <[l := OList (VLeaf (LFloat f) :: VLeaf (LBytes b) :: rest)]> h) as ->.
  { apply map_eq. intros l'. destruct (decide (l = l')) as [<-|Hne].
    - by rewrite lookup_alter_eq, lookup_insert_eq, Hl.
    - by rewrite lookup_alter_ne, lookup_insert_ne. }
  rewrite (rewrite_items_step _ l _ 1 _
             (OList (VLeaf (LFloat f) :: VLeaf (LBytes b) :: rest))
             (VLeaf (LBytes b)) (lookup_insert_eq _ _ _) eq_refl).
  assert (forall h0, _to_json_dumpable (S d) (VLeaf (LBytes b)) h0 = (Raise e, h0))
    as ->; [|done].
  intros h0. cbn [_to_json_dumpable]. by rewrite Hb.
Qed.

Lemma rmap_Raise {A B} (g : A -> B) (x : result A) e :
  rmap g x = Raise e <-> x = Raise e.
Proof. destruct x; simpl; split; congruence. Qed.

Lemma rmapM_Raise {A B} (g : A -> result B) (xs : list A) e :
  rmapM g xs = Raise e -> exists x, x ∈ xs /\ g x = Raise e.
Proof.
  induction xs as [|x xs IH]; simpl; [done|].
  destruct (g x) as [y|e'] eqn:Hx; simpl.
  - intros (x' & Hin & Hx')%rmap_Raise%IH. exists x'. split; [by right|done].
  - intros [= ->]. exists x. split; [by left|done].
Qed.

Lemma utf8_decode_N_raises (n : nat) :
  forall bs e, length bs <= n -> utf8_decode_N bs = Raise e ->
               e = UnicodeDecodeError.
Proof.
  induction n as [|n IH]; intros [|b0 r0] e Hlen; simpl in *; try done; try lia.
  repeat match goal with
         | |- context [if ?b then _ else _] => destruct b
         | |- context [match ?xs with [] => _ | _ :: _ => _ end] =>
             destruct xs
         end;
    try (by intros [= <-]);
    intros Hr%rmap_Raise; (eapply IH; [|exact Hr]); simpl in *; lia.
Qed.

Lemma decode_utf8_raises b e : decode_utf8 b = Raise e -> e = UnicodeDecodeError.
Proof. unfold decode_utf8. by apply (utf8_decode_N_raises _ _ _ (le_n _)). Qed.

(** The exceptions of the conversions: the limit of recursion, the decoding
    of bytes, and what [float] raises for some decimal. *)
Definition conversion_error (e : exn) : Prop :=
  e = RecursionError \/ e = UnicodeDecodeError \/
  exists d, float_of_decimal d = Raise e.

Lemma rewrite_items_raises (f : value -> heap -> result value * heap) l :
  (forall v h e h', f v h = (Raise e, h') -> conversion_error e) ->
  forall n idx h e h',
    rewrite_items f l n idx h = (Raise e, h') -> conversion_error e.
Proof.
  intros Hf. induction n as [|n IH]; intros idx h e h'; simpl; [done|].
  destruct (h !! l) as [o|]; [|done].
  destruct (obj_values o !! idx) as [v|]; [|done].
  destruct (f v h) as [[x|e0] h1] eqn:Hfv.
  - apply IH.
  - intros [= <- <-]. by eapply Hf.
Qed.

Lemma _to_json_dumpable_conversion_error (n : nat) :
  forall v h e h',
    _to_json_dumpable n v h = (Raise e, h') -> conversion_error e.
Proof.
  induction n as [|d IH]; intros v h e h'; simpl.
  - intros [= <- <-]. by left.
  - destruct v as [a|vs|l].
    + destruct a; try done.
      * intros [= He _]. apply rmap_Raise in He. right. left.
        by eapply decode_utf8_raises.
      * intros [= He _]. apply rmap_Raise in He. right. right. eauto.
    + apply IH.
    + destruct (h !! l) as [o|]; [|done].
      destruct (rewrite_items (_to_json_dumpable d) l (length (obj_values o)) 0 h)
        as [[u|e0] h2] eqn:Hloop; [done|].
      intros [= <- <-]. by eapply (rewrite_items_raises _ l IH).
Qed.

(** X14: what [_to_json_dumpable] can raise.  On any store, an exception
    that comes out of the call is [RecursionError], or the
    [UnicodeDecodeError] of a byte string that is not UTF-8, or an
    exception that [float] raises for some decimal. *)
Theorem _to_json_dumpable_raises (n : nat) (v : value) (h : heap) (e : exn)
    (h' : heap) :
  _to_json_dumpable n v h = (Raise e, h') ->
  e = RecursionError \/ e = UnicodeDecodeError \/
  exists d, float_of_decimal d = Raise e.
Proof. apply _to_json_dumpable_conversion_error. Qed.

Lemma encode_key_raises opts (k : tree) e :
  encode_key opts k = Raise e -> e = TypeError.
Proof.
  unfold encode_key. intros He%rmap_Raise.
  destruct k as [[]| | |]; try done; try (by injection He).
  by destruct b.
Qed.

Lemma iterencode_raises opts default (o : tree) :
  forall level e, iterencode opts default level o = Raise e -> e = TypeError.
Proof.
  induction o as [a|ts IH|ts IH|kvs IH] using tree_values_ind;
    intros level e; simpl; [done| | |].
  - intros (x & Hin & Hx)%rmap_Raise%rmapM_Raise.
    eapply Forall_forall in IH; [|exact Hin]. by eapply IH.
  - intros (x & Hin & Hx)%rmap_Raise%rmapM_Raise.
    eapply Forall_forall in IH; [|exact Hin]. by eapply IH.
  - intros (kv & Hin & Hkv)%rmap_Raise%rmapM_Raise.
    destruct (encode_key opts kv.1) as [k|e'] eqn:Hk; simpl in Hkv.
    + apply rmap_Raise in Hkv. eapply Forall_forall in IH; [|exact Hin].
      by eapply IH.
    + injection Hkv as <-. by eapply encode_key_raises.
Qed.

End MoreNormalization.

(** ** The texts of dates *)

Section MoreDigits.
Open Scope N_scope.

Lemma fixed_digits_inj (w : nat) : forall n m,
  n < 10 ^ N.of_nat w -> m < 10 ^ N.of_nat w ->
  fixed_digits w n = fixed_digits w m -> n = m.
Proof.
  induction w as [|w IH]; intros n m Hn Hm Heq.
  - simpl in Hn, Hm. lia.
  - simpl in Heq. apply app_inj_tail in Heq as [Hhead Hlast].
    rewrite pow10_succ in Hn, Hm.
    assert (n / 10 = m / 10) as Hdiv.
    { apply IH; [| |done].
      - apply N.Div0.div_lt_upper_bound. lia.
      - apply N.Div0.div_lt_upper_bound. lia. }
    assert (n mod 10 = m mod 10) as Hmod by lia.
    rewrite (N.div_mod n 10), (N.div_mod m 10) by lia. by rewrite Hdiv, Hmod.
Qed.

Lemma fixed_digits_app_inj (w : nat) n m (s1 s2 : pystr) :
  n < 10 ^ N.of_nat w -> m < 10 ^ N.of_nat w ->
  fixed_digits w n ++ s1 = fixed_digits w m ++ s2 -> n = m /\ s1 = s2.
Proof.
  intros Hn Hm Heq. apply app_inj_1 in Heq as [Hd Hs].
  - split; [by eapply fixed_digits_inj|done].
  - by rewrite !fixed_digits_length.
Qed.

Lemma valid_datetime_bounds (t : datetime) :
  valid_datetime t = true ->
  year (dt_date t) < 10 ^ N.of_nat 4 /\ month (dt_date t) < 10 ^ N.of_nat 2 /\
  day (dt_date t) < 10 ^ N.of_nat 2 /\ hour t < 10 ^ N.of_nat 2 /\
  minute t < 10 ^ N.of_nat 2 /\ second t < 10 ^ N.of_nat 2 /\
  microsecond t < 10 ^ N.of_nat 6.
Proof.
  unfold valid_datetime, valid_date. intros H.
  repeat (apply andb_prop in H as [H ?]).
  repeat match goal with
         | H : (_ <=? _) = true |- _ => apply N.leb_le in H
         | H : (_ <? _) = true |- _ => apply N.ltb_lt in H
         end.
  simpl. lia.
Qed.

Lemma strftime_datetime_inj (t1 t2 : datetime) :
  valid_datetime t1 = true -> valid_datetime t2 = true ->
  strftime t1 (str "%Y-%m-%d %H:%M:%S.%f") =
  strftime t2 (str "%Y-%m-%d %H:%M:%S.%f") -> t1 = t2.
Proof.
  intros H1 H2. rewrite !strftime_datetime by done.
  pose proof (valid_datetime_bounds t1 H1) as (? & ? & ? & ? & ? & ? & ?).
  pose proof (valid_datetime_bounds t2 H2) as (? & ? & ? & ? & ? & ? & ?).
  intros Heq.
  repeat match goal with
         | H : fixed_digits _ _ ++ _ = fixed_digits _ _ ++ _ |- _ =>
             apply fixed_digits_app_inj in H as [? H]; [|done..]
         | H : str _ ++ _ = str _ ++ _ |- _ => apply app_inv_head in H
         end.
  apply fixed_digits_inj in Heq; [|done..].
  destruct t1 as [[y1 m1 d1] hh1 mm1 ss1 us1], t2 as [[y2 m2 d2] hh2 mm2 ss2 us2].
  simpl in *. congruence.
Qed.

End MoreDigits.

Section MoreDates.
Context `{RT : PyRuntime}.

(** X16: the text of a date-time keeps all of it.  Two valid date-times
    that [_to_json_dumpable] turns into the same text are the same
    date-time: year, month, day, hour, minute, second and microsecond can
    all be read back from the text; and the text has 26 characters. *)
Theorem datetime_text_injective (d : nat) (h : heap) (t1 t2 : datetime) :
  valid_datetime t1 = true -> valid_datetime t2 = true ->
  (_to_json_dumpable (S d) (VLeaf (LDateTime t1)) h =
   _to_json_dumpable (S d) (VLeaf (LDateTime t2)) h -> t1 = t2) /\
  exists s, _to_json_dumpable (S d) (VLeaf (LDateTime t1)) h =
              (Ok (VLeaf (LStr s)), h) /\ length s = 26%nat.
Proof.
  intros H1 H2. split.
  - cbn [_to_json_dumpable]. intros [= Heq]. by apply strftime_datetime_inj.
  - eexists. split; [reflexivity|]. rewrite strftime_datetime by done.
    rewrite !length_app, !fixed_digits_length. done.
Qed.

End MoreDates.

(** ** [assert_equals_resultset] and the files *)

Section MoreAssert.
Context `{RT : PyRuntime}.
Implicit Types (w : world) (E : env) (p : pystr) (fs : filesystem)
  (c : list pystr).

(** X12: the file made by a first run does not let a later run pass.  When
    the file of the result set holds [{}], which is what a run writes when
    the file is missing, the call does not return normally, whatever the
    actual value: every serialized text ends with a line feed, and [{}] does
    not. *)
Theorem placeholder_never_matches (E : env) (actual : value)
    (calling_filename : option pystr) (w : world) (nm : names)
    (attr' : option pystr) :
  resolve_names E calling_filename (fixture_dir w) = (Ok nm, attr') ->
  lookup_path (fs w) (components (nm_resultset_filename nm)) =
    Some (File (str "{}")) ->
  exists e, (assert_equals_resultset E actual calling_filename w).1 = Raise e.
Proof.
  intros Hnm Hfile.
  pose proof (resolve_names_shape _ _ _ _ _ Hnm) as (Ht & _ & _).
  assert (path_exists (fs w) (nm_resultset_filename nm) = true) as Hex.
  { unfold path_exists. by rewrite Ht, Hfile. }
  rewrite assert_unfold, Hnm. unfold _check_file_can_be_created.
  rewrite Hex. simpl. rewrite load_expected_unfold. simpl. rewrite Hex.
  unfold open_read. rewrite Ht, Hfile. simpl.
  destruct (dump_actual E actual _) as [[text|e] w3] eqn:Hdump; [|eauto].
  apply dump_actual_Ok in Hdump as (r & tr & _ & _ & _ & Htext).
  apply actual_json_of_text in Htext as (_ & body & -> & _).
  assert (universal_newlines (str "{}") <> body ++ [10%N]) as Hne.
  { change (universal_newlines (str "{}")) with ([123%N] ++ [125%N]).
    intros Heq. apply app_inj_tail in Heq as [_ Heq]. discriminate Heq. }
  rewrite bool_decide_eq_false_2 by (intros Heq; apply Hne; by injection Heq).
  destruct (report_failure_raises E (nm_filename nm) (nm_filename_noext nm)
              (nm_method_name nm) (nm_resultset_filename nm)
              (body ++ [10%N]) w3) as (e & w' & -> & _).
  eauto.
Qed.

(** What a step may do to the files: outside the paths [S] it leaves every
    node as it is or adds a directory, and it removes nothing. *)
Definition touches (S : list (list pystr)) fs fs1 : Prop :=
  forall c,
    (c ∉ S -> fs1 !! c = fs !! c \/ (fs !! c = None /\ fs1 !! c = Some Dir)) /\
    (is_Some (fs !! c) -> is_Some (fs1 !! c)).

Lemma touches_refl S fs : touches S fs fs.
Proof. intros c. auto. Qed.

Lemma touches_trans S fs1 fs2 fs3 :
  touches S fs1 fs2 -> touches S fs2 fs3 -> touches S fs1 fs3.
Proof.
  intros H12 H23 c. destruct (H12 c) as [Ha Hb], (H23 c) as [Hc Hd].
  split; [|auto]. intros Hn.
  destruct (Ha Hn) as [Heq|[Hnone Hdir]], (Hc Hn) as [Heq'|[Hnone' Hdir']];
    try (left; congruence); try (right; split; congruence).
Qed.

Lemma touches_grows S c0 fs fs1 : grows_under c0 fs fs1 -> touches S fs fs1.
Proof.
  intros H c. destruct (H c) as [->|(Hn & Hd & _)]; [auto|].
  split; [auto|]. rewrite Hn. by intros [? [=]].
Qed.

Lemma touches_insert S c0 n fs : c0 ∈ S -> touches S fs (<[c0 := n]> fs).
Proof.
  intros Hin c. destruct (decide (c0 = c)) as [<-|Hne].
  - split; [done|]. rewrite lookup_insert_eq. eauto.
  - rewrite lookup_insert_ne by done. auto.
Qed.

Lemma writable_Ok fs p c : writable fs p = Ok c -> c = components p.
Proof.
  unfold writable. destruct (truthy p); [|done].
  destruct (lookup_path fs (components p)) as [[]|]; try done;
    [by intros [= <-]|].
  destruct (lookup_path fs (parent (components p))) as [[]|]; try done.
  by intros [= <-].
Qed.

Lemma touches_open_write S p text fs r fs1 :
  components p ∈ S -> open_write p text fs = (r, fs1) -> touches S fs fs1.
Proof.
  intros Hin. unfold open_write. destruct (writable fs p) as [c|e] eqn:Hw;
    intros [= <- <-]; [|apply touches_refl].
  apply writable_Ok in Hw as ->. by apply touches_insert.
Qed.

Lemma touches_open_append S p text fs r fs1 :
  components p ∈ S -> open_append p text fs = (r, fs1) -> touches S fs fs1.
Proof.
  intros Hin. unfold open_append. destruct (writable fs p) as [c|e] eqn:Hw.
  - apply writable_Ok in Hw as ->.
    destruct (fs !! components p) as [[old|]|]; intros [= <- <-];
      by apply touches_insert.
  - intros [= <- <-]. apply touches_refl.
Qed.

(** X13: the call writes three files at most, and removes nothing.  In
    every outcome, each file and directory that was there before the call
    is there after it; and apart from the file of the result set, the file
    of the actual text and the log of diff commands, every path holds what
    it held, or a directory that the call has made. *)
Theorem assert_equals_resultset_touches (E : env) (actual : value)
    (calling_filename : option pystr) (w : world) (res : result unit)
    (w' : world) (nm : names) (attr' : option pystr) :
  resolve_names E calling_filename (fixture_dir w) = (Ok nm, attr') ->
  assert_equals_resultset E actual calling_filename w = (res, w') ->
  forall c,
    (is_Some (fs w !! c) -> is_Some (fs w' !! c)) /\
    (c <> components (nm_resultset_filename nm) ->
     c <> components (tmp_actual_path (ROOT_DIR E) (nm_filename_noext nm)
                        (nm_method_name nm)) ->
     c <> components (diff_cmd_path (ROOT_DIR E)) ->
     fs w' !! c = fs w !! c \/ (fs w !! c = None /\ fs w' !! c = Some Dir)).
Proof.
  intros Hnm Hrun.
  set (S := [components (nm_resultset_filename nm);
             components (tmp_actual_path (ROOT_DIR E) (nm_filename_noext nm)
                           (nm_method_name nm));
             components (diff_cmd_path (ROOT_DIR E))]).
  assert (touches S (fs w) (fs w')) as Ht.
  { rewrite assert_unfold, Hnm in Hrun.
    destruct (_check_file_can_be_created _ (fs w)) as [r1 fs1] eqn:Hcheck.
    assert (touches S (fs w) fs1) as H1
      by (eapply touches_grows; by eapply check_grows).
    destruct r1 as [[]|e]; [|by injection Hrun as _ <-].
    rewrite load_expected_unfold in Hrun. simpl in Hrun.
    assert (exists r2 fs2,
              (if path_exists fs1 (nm_resultset_filename nm)
               then (rmap Some (open_read (nm_resultset_filename nm) fs1),
                     World fs1 (store w) attr' (output w))
               else
                 match open_write (nm_resultset_filename nm) (str "{}") fs1 with
                 | (Ok _, fs0) => (Ok None, World fs0 (store w) attr' (output w))
                 | (Raise e, fs0) =>
                     (Raise e, World fs0 (store w) attr' (output w))
                 end) = (r2, World fs2 (store w) attr' (output w)) /\
              touches S fs1 fs2) as (r2 & fs2 & Hload & H2).
    { destruct (path_exists fs1 (nm_resultset_filename nm)).
      - eexists _, fs1. split; [done|apply touches_refl].
      - destruct (open_write _ (str "{}") fs1) as [r fs0] eqn:Hw.
        assert (touches S fs1 fs0) as H0.
        { eapply touches_open_write; [|exact Hw]. unfold S. set_solver. }
        destruct r as [[]|e]; eexists _, fs0; done. }
    rewrite Hload in Hrun. clear Hload.
    pose proof (touches_trans _ _ _ _ H1 H2) as H12.
    destruct r2 as [expected|e]; [|by injection Hrun as _ <-].
    rewrite dump_actual_unfold in Hrun. simpl in Hrun.
    destruct (_to_json_dumpable _ actual (store w)) as [[data|e] h];
      [|by injection Hrun as _ <-].
    destruct (match tree_of _ h data with
              | Some o => actual_json_of o
              | None => _
              end) as [actual_json|e]; [|by injection Hrun as _ <-].
    destruct (bool_decide (expected = Some actual_json));
      [by injection Hrun as _ <-|].
    rewrite report_failure_unfold in Hrun. simpl in Hrun.
    destruct (_check_file_can_be_created _ fs2) as [r3 fs3] eqn:Hcheck3.
    assert (touches S fs2 fs3) as H3
      by (eapply touches_grows; by eapply check_grows).
    pose proof (touches_trans _ _ _ _ H12 H3) as H13.
    destruct r3 as [[]|e]; [|by injection Hrun as _ <-].
    destruct (open_write _ actual_json fs3) as [r4 fs4] eqn:Hw4.
    assert (touches S fs3 fs4) as H4.
    { eapply touches_open_write; [|exact Hw4]. unfold S. set_solver. }
    pose proof (touches_trans _ _ _ _ H13 H4) as H14.
    destruct r4 as [[]|e]; [|by injection Hrun as _ <-].
    destruct (open_append _ _ fs4) as [r5 fs5] eqn:Hw5.
    assert (touches S fs4 fs5) as H5.
    { eapply touches_open_append; [|exact Hw5]. unfold S. set_solver. }
    pose proof (touches_trans _ _ _ _ H14 H5) as H15.
    destruct r5 as [[]|e]; by injection Hrun as _ <-. }
  intros c. destruct (Ht c) as [Ha Hb]. split; [done|].
  intros H1 H2 H3. apply Ha. unfold S. set_solver.
Qed.

Lemma actual_json_of_raises (o : tree) e :
  actual_json_of o = Raise e -> e = TypeError.
Proof.
  unfold actual_json_of, json_dumps. intros He%rmap_Raise.
  by eapply iterencode_raises.
Qed.

Lemma dump_actual_raises E actual w e w' :
  dump_actual E actual w = (Raise e, w') ->
  conversion_error e \/ e = TypeError.
Proof.
  rewrite dump_actual_unfold.
  destruct (_to_json_dumpable (recursion_limit E) actual (store w))
    as [[data|e0] h] eqn:Hrun.
  - destruct (tree_of (recursion_limit E) h data) as [o|].
    + intros [= He _]. right. by eapply actual_json_of_raises.
    + intros [= <- _]. left. by left.
  - intros [= <- _]. left. by eapply _to_json_dumpable_conversion_error.
Qed.

(** The text of the actual value depends on the objects alone. *)
Lemma dump_actual_same_store E actual w w0 :
  store w0 = store w ->
  dump_actual E actual w0 =
  ((dump_actual E actual w).1,
   World (fs w0) (store (dump_actual E actual w).2) (fixture_dir w0)
     (output w0)).
Proof.
  intros Hs. rewrite !dump_actual_unfold, Hs.
  destruct (_to_json_dumpable (recursion_limit E) actual (store w))
    as [[data|e] h]; done.
Qed.

(** What a run that raised [AssertionError] has done, when the
    conversions themselves raise no [AssertionError]. *)
Lemma assert_failed_inv E actual calling_filename w w1 nm attr' :
  (forall d, float_of_decimal d <> Raise AssertionError) ->
  resolve_names E calling_filename (fixture_dir w) = (Ok nm, attr') ->
  assert_equals_resultset E actual calling_filename w =
    (Raise AssertionError, w1) ->
  exists actual_json fs3 log_text,
    (dump_actual E actual w).1 = Ok actual_json /\
    store w1 = store (dump_actual E actual w).2 /\
    fs w1 =
      <[components (diff_cmd_path (ROOT_DIR E)) := File log_text]>
        (<[components (tmp_actual_path (ROOT_DIR E) (nm_filename_noext nm)
                         (nm_method_name nm)) := File actual_json]> fs3).
Proof.
  intros Hrt Hnm Hrun. rewrite assert_unfold, Hnm in Hrun.
  destruct (_check_file_can_be_created _ (fs w)) as [[[]|e] fs1] eqn:Hcheck.
  2:{ injection Hrun as -> _. by apply check_raises in Hcheck as [? ?]. }
  destruct (load_expected _ _) as [[expected|e] w2] eqn:Hload.
  2:{ injection Hrun as -> _. by apply load_expected_raises in Hload as [? ?]. }
  assert (store w2 = store w) as Hs2.
  { rewrite load_expected_unfold in Hload. simpl in Hload.
    destruct (path_exists fs1 _).
    - by injection Hload as _ <-.
    - destruct (open_write _ _ fs1) as [[[]|?] ?]; [|done].
      by injection Hload as _ <-. }
  rewrite (dump_actual_same_store E actual w w2 Hs2) in Hrun.
  destruct (dump_actual E actual w) as [[actual_json|e] wd] eqn:Hdump;
    simpl in Hrun.
  2:{ injection Hrun as -> _.
      apply dump_actual_raises in Hdump as [[|[|[d Hd]]]|]; try done.
      by destruct (Hrt d). }
  destruct (bool_decide (expected = Some actual_json)); [done|].
  rewrite report_failure_unfold in Hrun. simpl in Hrun.
  destruct (_check_file_can_be_created _ (fs w2)) as [[[]|e] fs3] eqn:Hcheck3.
  2:{ injection Hrun as -> _. by apply check_raises in Hcheck3 as [? ?]. }
  destruct (open_write _ actual_json fs3) as [[[]|e] fs4] eqn:Hw4.
  2:{ injection Hrun as -> _. by apply open_write_raises in Hw4 as [? ?]. }
  destruct (open_append _ _ fs4) as [[[]|e] fs5] eqn:Hw5.
  2:{ injection Hrun as -> _. by apply open_append_raises in Hw5 as [? ?]. }
  injection Hrun as <-. simpl.
  unfold open_write in Hw4.
  destruct (writable fs3 _) as [c4|?] eqn:Hc4; [|done].
  apply writable_Ok in Hc4 as ->. injection Hw4 as <-.
  unfold open_append in Hw5.
  destruct (writable _ (diff_cmd_path (ROOT_DIR E))) as [c5|?] eqn:Hc5; [|done].
  apply writable_Ok in Hc5 as ->.
  exists actual_json, fs3.
  destruct (_ !! components (diff_cmd_path (ROOT_DIR E))) as [[old|]|];
    injection Hw5 as <-; eauto.
Qed.

(** X15: accepting the actual text makes the next run pass.  After a run
    that raised [AssertionError], the file
    [<root>/.donotcommit_tmp/<file>-<method>_ACTUAL.json] holds a text; once
    that text is put in the file of the result set, the same call on the
    same objects returns normally.  ([float] is taken to raise no
    [AssertionError] of its own.) *)
Theorem accepting_actual_passes (E : env) (actual : value)
    (calling_filename : option pystr) (w w1 : world) (nm : names)
    (attr' : option pystr) (out' : list event) :
  (forall d, float_of_decimal d <> Raise AssertionError) ->
  resolve_names E calling_filename (fixture_dir w) = (Ok nm, attr') ->
  assert_equals_resultset E actual calling_filename w =
    (Raise AssertionError, w1) ->
  exists text,
    lookup_path (fs w1)
      (components (tmp_actual_path (ROOT_DIR E) (nm_filename_noext nm)
                     (nm_method_name nm))) = Some (File text) /\
    let accepted :=
      <[components (nm_resultset_filename nm) := File text]> (fs w1) in
    assert_equals_resultset E actual calling_filename
      (World accepted (store w) (fixture_dir w) out') =
    (Ok tt, World accepted (store w1) attr' out').
Proof.
  intros Hrt Hnm Hrun.
  destruct (assert_failed_inv _ _ _ _ _ _ _ Hrt Hnm Hrun)
    as (actual_json & fs3 & log_text & Hdump & Hstore & Hfs).
  exists actual_json.
  destruct (tmp_actual_path_components (ROOT_DIR E) (nm_filename_noext nm)
              (nm_method_name nm)) as (rest & Hrest & Hct).
  pose proof (diff_cmd_path_components (ROOT_DIR E)) as Hclog.
  split.
  { rewrite Hfs. rewrite lookup_path_insert_ne.
    - apply lookup_path_insert_eq. rewrite Hct. intros Heq.
      apply (f_equal length) in Heq. rewrite !length_app in Heq.
      simpl in Heq. lia.
    - rewrite Hct, Hclog. intros Heq. apply app_inv_head in Heq.
      by injection Heq. }
  cbv zeta. set (accepted := <[_ := File actual_json]> (fs w1)).
  pose proof (resolve_names_shape _ _ _ _ _ Hnm) as (Ht & Hlast & _).
  assert (nm_resultset_filename nm <> []) as Hne
    by (by destruct (nm_resultset_filename nm)).
  pose proof (components_last _ Hne Hlast) as Hc.
  assert (lookup_path accepted (components (nm_resultset_filename nm)) =
          Some (File actual_json)) as Hfile
    by (by apply lookup_path_insert_eq).
  assert (path_exists accepted (nm_resultset_filename nm) = true) as Hex.
  { unfold path_exists. by rewrite Ht, Hfile. }
  rewrite assert_unfold. simpl. rewrite Hnm.
  unfold _check_file_can_be_created. rewrite Hex. simpl.
  rewrite load_expected_unfold. simpl. rewrite Hex.
  unfold open_read. rewrite Ht, Hfile. simpl.
  rewrite (dump_actual_same_store E actual w) by done. rewrite Hdump. simpl.
  assert (no_cr actual_json) as Hcr.
  { destruct (dump_actual E actual w) as [r wd] eqn:Hd. simpl in Hdump.
    subst r. apply dump_actual_Ok in Hd as (? & ? & _ & _ & _ & Htext).
    by apply actual_json_of_text in Htext as [? _]. }
  rewrite (universal_newlines_id _ Hcr).
  rewrite bool_decide_eq_true_2 by done. by rewrite Hstore.
Qed.

End MoreAssert.

(** ** [_empty_dir] and [clean_sandbox] *)

Section Sandbox.
Implicit Types (fs : filesystem) (c k : list pystr) (p top d : pystr).
Open Scope nat_scope.

Lemma wf_namesb_wf_names fs : wf_namesb fs = true -> wf_names fs.
Proof.
  unfold wf_namesb. intros H k n Hk.
  apply elem_of_map_to_list in Hk. apply list_elem_of_In in Hk.
  rewrite forallb_forall in H. specialize (H _ Hk). simpl in H.
  rewrite forallb_forall in H. apply Forall_forall. intros x Hx.
  apply list_elem_of_In in Hx. specialize (H _ Hx).
  apply andb_prop in H as [Ht Hs]. split; [by destruct x|].
  apply negb_true_iff in Hs. by apply bool_decide_eq_false in Hs.
Qed.

Lemma parent_last k : k <> [] -> k = parent k ++ [default [] (last k)].
Proof.
  intros Hk. destruct (exists_last Hk) as (k' & x & ->).
  by rewrite parent_snoc, last_snoc.
Qed.

Lemma elem_of_scandir fs c e :
  e ∈ scandir fs c <->
  fs !! e.1 = Some e.2 /\ e.1 = c ++ [entry_name e].
Proof.
  unfold scandir. destruct e as [k n]. rewrite elem_of_map_to_list.
  rewrite map_lookup_filter_Some. simpl. unfold entry_name. simpl. split.
  - intros (Hk & Hne & Hpar). split; [done|].
    rewrite <- Hpar. by apply parent_last.
  - intros (Hk & Heq). split; [done|]. rewrite Heq. split.
    + by destruct c.
    + apply parent_snoc.
Qed.

Lemma scandir_names_NoDup fs c (P : list pystr * node -> Prop)
    `{!forall e, Decision (P e)} :
  NoDup (entry_name <$> filter P (scandir fs c)).
Proof.
  apply (NoDup_fmap_2_strong entry_name).
  - intros e1 e2 [_ H1%elem_of_scandir]%list_elem_of_filter
      [_ H2%elem_of_scandir]%list_elem_of_filter Hname.
    destruct H1 as [Hl1 Hk1], H2 as [Hl2 Hk2].
    destruct e1 as [k1 n1], e2 as [k2 n2]. simpl in *.
    assert (k1 = k2) as -> by congruence. congruence.
  - apply NoDup_filter. unfold scandir. apply NoDup_map_to_list.
Qed.

Lemma scandir_nil fs c :
  scandir fs c = [] <-> forall x, fs !! (c ++ [x]) = None.
Proof.
  split.
  - intros Hnil x. destruct (fs !! (c ++ [x])) as [n|] eqn:Hx; [|done].
    assert ((c ++ [x], n) ∈ scandir fs c) as Hin.
    { apply elem_of_scandir. simpl. split; [done|].
      unfold entry_name. simpl. by rewrite last_snoc. }
    rewrite Hnil in Hin. by apply elem_of_nil in Hin.
  - intros Hnone. destruct (scandir fs c) as [|e l] eqn:Hs; [done|].
    assert (e ∈ scandir fs c) as Hin by (rewrite Hs; left).
    apply elem_of_scandir in Hin as [Hl Hk]. rewrite Hk, Hnone in Hl. done.
Qed.

(** Joining a directory and a name. *)
Lemma os_path_join_name top d :
  d <> [] -> (47%N ∉ d) ->
  components (os_path_join top d) = components top ++ [d] /\
  truthy (os_path_join top d) = true /\
  length top < length (os_path_join top d).
Proof.
  intros Hd Hslash. unfold os_path_join.
  assert (startswith (str "/") d = false) as ->.
  { destruct d as [|x d]; [done|]. rewrite startswith_slash.
    apply N.eqb_neq. intros <-. apply Hslash. left. }
  destruct top as [|a top'] eqn:Htop.
  - simpl. rewrite (components_no_slash d) by done.
    split; [done|]. split; [by destruct d|]. destruct d; [done|]. simpl. lia.
  - rewrite <- Htop. assert (truthy top = true) as Ht by (by rewrite Htop).
    rewrite Ht. cbn [negb orb].
    assert (d <> [] -> 0 < length d) as Hlen by (destruct d; simpl; [done|lia]).
    destruct (bool_decide (last top = Some 47%N)) eqn:Hlast.
    + apply bool_decide_eq_true in Hlast.
      assert (exists t0, top = t0 ++ [47%N]) as [t0 Ht0].
      { destruct (exists_last (l := top)) as (t0 & x & Heq);
          [by rewrite Htop|].
        rewrite Heq, last_snoc in Hlast. injection Hlast as ->. eauto. }
      split; [|split].
      * rewrite Ht0, <- app_assoc.
        change ([47%N] ++ d) with (str "/" ++ d).
        rewrite components_app, (components_no_slash d) by done.
        change (t0 ++ [47%N]) with (t0 ++ repeat 47%N 1).
        by rewrite (components_trailing t0 1).
      * rewrite Htop. done.
      * rewrite length_app. specialize (Hlen Hd). lia.
    + split; [|split].
      * by rewrite components_app, (components_no_slash d).
      * rewrite Htop. done.
      * rewrite !length_app. simpl. lia.
Qed.

(** [fs'] is [fs] without the paths in [P]. *)
Definition removed (P : list pystr -> Prop) fs fs' : Prop :=
  forall k, (P k -> fs' !! k = None) /\ (~ P k -> fs' !! k = fs !! k).

Lemma removed_nothing fs : removed (fun _ => False) fs fs.
Proof. intros k. split; [done|done]. Qed.

Lemma removed_found P fs fs' k n :
  removed P fs fs' -> fs' !! k = Some n -> fs !! k = Some n /\ ~ P k.
Proof.
  intros H Hk. destruct (H k) as [Ha Hb].
  assert (~ P k) as HnP.
  { intros HP. specialize (Ha HP). congruence. }
  split; [|done]. specialize (Hb HnP). congruence.
Qed.

Lemma removed_trans P Q fs fs1 fs2 :
  removed P fs fs1 -> removed Q fs1 fs2 ->
  removed (fun k => P k \/ Q k) fs fs2.
Proof.
  intros H1 H2 k. split.
  - intros HPQ. destruct (fs2 !! k) as [n|] eqn:Hk; [|done].
    apply (removed_found _ _ _ _ _ H2) in Hk as [Hk HnQ].
    apply (removed_found _ _ _ _ _ H1) in Hk as [Hk HnP]. tauto.
  - intros Hn. destruct (H1 k) as [_ H1b], (H2 k) as [_ H2b].
    rewrite H2b, H1b; [done|tauto|tauto].
Qed.

Lemma removed_ext P Q fs fs' :
  removed P fs fs' ->
  (forall k, is_Some (fs !! k) -> (P k <-> Q k)) ->
  removed Q fs fs'.
Proof.
  intros H Hext k.
  assert (fs !! k = None -> fs' !! k = None) as Hnone.
  { intros Hk. destruct (fs' !! k) as [n|] eqn:Hk'; [|done].
    apply (removed_found _ _ _ _ _ H) in Hk' as [Hk' _]. congruence. }
  destruct (H k) as [Ha Hb].
  destruct (fs !! k) as [n|] eqn:Hk.
  - assert (P k <-> Q k) as HPQ by (apply Hext; by rewrite Hk).
    split; intros HQ; [apply Ha; tauto|apply Hb; tauto].
  - split; intros _; by apply Hnone.
Qed.

Lemma removed_delete fs c : removed (fun k => k = c) fs (delete c fs).
Proof.
  intros k. split.
  - intros ->. apply lookup_delete_eq.
  - intros Hne. by rewrite lookup_delete_ne.
Qed.

Lemma removed_wf_names P fs fs' :
  removed P fs fs' -> wf_names fs -> wf_names fs'.
Proof.
  intros H Hwf k n Hk. apply (removed_found _ _ _ _ _ H) in Hk as [Hk _].
  by eapply Hwf.
Qed.

(** Taking out paths together with whatever lies under them keeps every
    node in a directory. *)
Lemma removed_closed P fs fs' :
  removed P fs fs' -> closed fs ->
  (forall k, is_Some (fs !! k) -> P (parent k) -> P k) ->
  closed fs'.
Proof.
  intros H Hcl Hdown k n Hk.
  apply (removed_found _ _ _ _ _ H) in Hk as [Hk HnP].
  destruct (Hcl k n Hk) as [Hne Hpar]. split; [done|].
  destruct (parent k) as [|x c] eqn:Hp; [done|]. simpl in *.
  destruct (H (x :: c)) as [_ Hb]. rewrite Hb; [done|].
  intros HP. apply HnP. apply Hdown; [by rewrite Hk|]. by rewrite Hp.
Qed.

Lemma lookup_path_snoc fs c x : lookup_path fs (c ++ [x]) = fs !! (c ++ [x]).
Proof. apply lookup_path_cons. by destruct c. Qed.

Lemma remove_files_spec top files : forall fs,
  NoDup files ->
  (forall x, x ∈ files ->
     x <> [] /\ (47%N ∉ x) /\
     exists text, fs !! (components top ++ [x]) = Some (File text)) ->
  exists fs2,
    remove_files top files fs = (Done tt, fs2) /\
    removed (fun k => exists x, x ∈ files /\ k = components top ++ [x]) fs fs2.
Proof.
  induction files as [|x rest IH]; intros fs Hnd Hfiles.
  - exists fs. split; [done|]. eapply removed_ext; [apply removed_nothing|].
    intros k _. split; [done|]. intros (x & Hx & _). by apply elem_of_nil in Hx.
  - apply NoDup_cons in Hnd as [Hx Hnd].
    destruct (Hfiles x) as (Hne & Hslash & text & Hl); [by left|].
    destruct (os_path_join_name top x Hne Hslash) as (Hc & Ht & _).
    cbn [remove_files]. unfold os_remove. rewrite Ht, Hc, lookup_path_snoc, Hl.
    destruct (IH (delete (components top ++ [x]) fs) Hnd) as (fs2 & -> & Hrem).
    { intros y Hy. destruct (Hfiles y) as (Hyne & Hys & ty & Hly); [by right|].
      split; [done|]. split; [done|]. exists ty.
      rewrite lookup_delete_ne; [done|].
      intros Heq. apply app_inv_head in Heq. injection Heq as ->. done. }
    exists fs2. split; [done|].
    eapply removed_ext.
    { eapply removed_trans; [apply removed_delete|exact Hrem]. }
    intros k _. split.
    + intros [->|(y & Hy & ->)]; [exists x; split; [by left|done]|].
      exists y. split; [by right|done].
    + intros (y & [->|Hy]%elem_of_cons & ->); [by left|right; eauto].
Qed.

(** The paths under [c]: [c] itself and what lies below it. *)
Definition under c k : Prop := exists rest, k = c ++ rest.
Definition below c k : Prop := exists x rest, k = c ++ x :: rest.

Lemma under_below c k : under c k <-> below c k \/ k = c.
Proof.
  split.
  - intros [[|x rest] ->]; [right; by rewrite app_nil_r|left; by exists x, rest].
  - intros [(x & rest & ->)| ->]; [by exists (x :: rest)|exists []; by rewrite app_nil_r].
Qed.

Lemma under_parent c k : k <> [] -> under c (parent k) -> under c k.
Proof.
  intros Hk [rest Hrest]. rewrite (parent_last k Hk), Hrest, <- app_assoc.
  by eexists.
Qed.

Lemma under_snoc_ne c x y : x <> y -> ~ under (c ++ [x]) (c ++ [y]).
Proof.
  intros Hne [rest Heq]. rewrite <- app_assoc in Heq.
  apply app_inv_head in Heq. injection Heq as -> _. done.
Qed.

Section Walk.
Variables (directory : pystr) (f : nat).

Definition walk_bound (fuel : nat) top fs : Prop :=
  forall k, is_Some (fs !! k) -> under (components top) k ->
            length k < length (components top) + fuel.

Definition walk_removes top k : Prop :=
  below (components top) k \/ (top <> directory /\ k = components top).

Hypothesis IHw : forall top fs,
  closed fs -> wf_names fs -> path_isdir fs top = true ->
  length directory <= length top ->
  (top <> directory -> components top <> []) ->
  walk_bound f top fs ->
  exists fs', empty_walk f directory top fs = (Done tt, fs') /\
              removed (walk_removes top) fs fs'.

Lemma walk_dirs_spec top ds : forall fs,
  closed fs -> wf_names fs -> NoDup ds -> length directory <= length top ->
  (forall d, d ∈ ds ->
     d <> [] /\ (47%N ∉ d) /\ fs !! (components top ++ [d]) = Some Dir) ->
  walk_bound (S f) top fs ->
  exists fs1,
    walk_dirs (empty_walk f directory) top ds fs = (Done tt, fs1) /\
    removed (fun k => exists d, d ∈ ds /\ under (components top ++ [d]) k)
      fs fs1.
Proof.
  induction ds as [|d rest IH]; intros fs Hcl Hwf Hnd Hlen Hds Hbound.
  - exists fs. split; [done|]. eapply removed_ext; [apply removed_nothing|].
    intros k _. split; [done|]. intros (x & Hx & _). by apply elem_of_nil in Hx.
  - apply NoDup_cons in Hnd as [Hd Hnd].
    destruct (Hds d) as (Hne & Hslash & Hl); [by left|].
    destruct (os_path_join_name top d Hne Hslash) as (Hc & Ht & Hlonger).
    set (top' := os_path_join top d) in *.
    assert (top' <> directory) as Hneq.
    { intros Heq. rewrite Heq in Hlonger. lia. }
    destruct (IHw top' fs Hcl Hwf) as (fs' & Hwalk & Hrem).
    { unfold path_isdir. by rewrite Ht, Hc, lookup_path_snoc, Hl. }
    { lia. }
    { intros _. rewrite Hc. by destruct (components top). }
    { intros k Hk Hunder. rewrite Hc in Hunder |- *. rewrite length_app. simpl.
      destruct Hunder as [r ->].
      assert (length ((components top ++ [d]) ++ r) <
              length (components top) + S f); [|lia].
      apply Hbound; [done|]. rewrite <- app_assoc. by eexists. }
    assert (removed (under (components top ++ [d])) fs fs') as Hrem'.
    { eapply removed_ext; [exact Hrem|]. intros k _. unfold walk_removes.
      rewrite Hc, under_below. tauto. }
    cbn [walk_dirs]. fold top'. rewrite Hwalk.
    destruct (IH fs') as (fs1 & -> & Hrest); [| |done|done| | |].
    { eapply removed_closed; [exact Hrem'|done|].
      intros k [n Hk] Hp. apply under_parent; [|done].
      by destruct (Hcl k n Hk). }
    { by eapply removed_wf_names. }
    { intros d' Hd'. destruct (Hds d') as (? & ? & Hl'); [by right|].
      split; [done|]. split; [done|]. destruct (Hrem' (components top ++ [d']))
        as [_ Hkeep]. rewrite Hkeep; [done|].
      apply under_snoc_ne. intros ->. done. }
    { intros k [n Hk] Hunder.
      apply (removed_found _ _ _ _ _ Hrem') in Hk as [Hk _].
      apply Hbound; [by rewrite Hk|done]. }
    exists fs1. split; [done|]. eapply removed_ext.
    { eapply removed_trans; [exact Hrem'|exact Hrest]. }
    intros k _. split.
    + intros [Hu|(d' & Hd' & Hu)]; [exists d; split; [by left|done]|].
      exists d'. split; [by right|done].
    + intros (d' & [->|Hd']%elem_of_cons & Hu); [by left|right; eauto].
Qed.

End Walk.

End Sandbox.

(** * Examples *)

(** A runtime whose decimals and floats are whole numbers: [float] of a
    decimal is the number itself, written with [.0] after it. *)
Lemma whole_float_repr_chars (f : Z) :
  int_repr f ++ str ".0" <> [] /\
  Forall (fun c => c ∈ str "0123456789.e+-NaInfity") (int_repr f ++ str ".0").
Proof.
  split; [by destruct (int_repr f)|].
  assert (forall n, Forall (fun c => c ∈ str "0123456789.e+-NaInfity") (N_repr n))
    as Hdigits.
  { intros n. eapply Forall_impl; [apply N_repr_digits|].
    intros c Hc. simpl in Hc. apply list_elem_of_In.
    assert (c = 48 \/ c = 49 \/ c = 50 \/ c = 51 \/ c = 52 \/ c = 53 \/
            c = 54 \/ c = 55 \/ c = 56 \/ c = 57)%N as Hcases by lia.
    vm_compute. intuition auto. }
  apply Forall_app. split.
  - unfold int_repr. destruct (f <? 0); [|apply Hdigits].
    apply Forall_app. split; [|apply Hdigits].
    constructor; [|constructor]. apply list_elem_of_In. vm_compute.
    intuition auto.
  - constructor; [|constructor; [|constructor]];
      apply list_elem_of_In; vm_compute; intuition auto.
Qed.

Definition whole_runtime : PyRuntime := {|
  Decimal := Z;
  Float := Z;
  Other := unit;
  float_of_decimal d := Ok d;
  float_repr f := int_repr f ++ str ".0";
  str_decimal d := int_repr d;
  str_bytes _ := str "b'...'";
  str_other _ := str "<object>";
  float_repr_chars := whole_float_repr_chars |}.

Definition whole (z : Z) : @Decimal whole_runtime := z.

Definition whole_float (z : Z) : @Float whole_runtime := z.

(** A project in [/srv/proj], with the test [test_bar] of
    [app/tests/unit/test_foo.py] calling; [meld] is the only diff tool. *)
Definition example_env : env :=
  Env (str "/srv/proj") (str "/site/abstract_django_testcase.py")
    (str "/srv/proj/app/tests/unit/test_foo.py")
    [FrameInfo (str "/srv/proj/app/tests/unit/test_foo.py") (str "test_bar");
     FrameInfo (str "/usr/lib/python3/unittest/case.py") (str "run")]
    (fun tool => if str_eqb tool (str "meld") then Some (str "/usr/bin/meld")
                 else None)
    100.

Definition example_path : pystr :=
  str "/srv/proj/app/tests/fixtures/resultsets/unit/test_foo/test_bar.json".

(** The dict [{"a": 1}] at the first place of the store, and a list with a
    decimal, a tuple and a date at the second. *)
Definition example_store : gmap loc (@obj whole_runtime) :=
  <[1%positive := ODict [(TLeaf (LStr (str "a")), VLeaf (LInt 1))]]>
  (<[2%positive :=
       OList [VLeaf (LDecimal (whole 3));
              VTuple [VLeaf (LBytes [Byte.x68; Byte.x69]); VRef 1%positive];
              VLeaf (LDate (Date 2024 2 29))]]> ∅).

Definition example_text : pystr :=
  str "{" ++ [10%N] ++ str "    " ++ [34%N] ++ str "a" ++ [34%N] ++ str ": 1" ++
  [10%N] ++ str "}" ++ [10%N].

(** Nothing on disk yet; and the file of the result set alone, holding the
    text of [{"a": 1}]. *)
Definition empty_world : @world whole_runtime := World ∅ example_store None [].

Definition matching_world : @world whole_runtime :=
  World (<[components example_path := File example_text]> ∅) example_store
    None [].

(** The list of the store, as it reads before and after normalization. *)
Definition example_tree : @tree whole_runtime :=
  TList [TLeaf (LDecimal (whole 3));
         TTuple [TLeaf (LBytes [Byte.x68; Byte.x69]);
                 TDict [(TLeaf (LStr (str "a")), TLeaf (LInt 1))]];
         TLeaf (LDate (Date 2024 2 29))].

Definition example_normal_tree : @tree whole_runtime :=
  TList [TLeaf (LFloat (whole_float 3));
         TList [TLeaf (LStr (str "hi"));
                TDict [(TLeaf (LStr (str "a")), TLeaf (LInt 1))]];
         TLeaf (LStr (str "2024-02-29"))].

Lemma example_denotes :
  denotes example_store (VRef 2%positive) example_tree.
Proof. exists 4%nat. by vm_compute. Qed.

Lemma C2_witness :
  normalize example_normal_tree = Ok example_normal_tree.
Proof.
  apply (proj1 (C2_normalization_idempotent example_env (VRef 2%positive)
                  empty_world example_tree example_denotes)).
  by vm_compute.
Defined.

Lemma C3_witness :
  _to_json_dumpable (RT := whole_runtime) 1
    (VLeaf (LDateTime (DateTime (Date 2024 2 29) 13 5 9 42))) ∅ =
  (Ok (VLeaf (LStr (str "2024-02-29 13:05:09.000042"))), ∅).
Proof.
  destruct (C3_leaf_table (RT := whole_runtime) 0 ∅
              (DateTime (Date 2024 2 29) 13 5 9 42) (Date 2024 2 29)
              eq_refl eq_refl) as (_ & H & _).
  rewrite H. by vm_compute.
Defined.

Lemma C4_witness :
  exists r h',
    _to_json_dumpable 5 (VRef 2%positive) example_store = (Ok r, h') /\
    denotes h' r example_normal_tree.
Proof.
  destruct (C4_recursive_normalization 5 (VRef 2%positive) example_store
              example_tree example_denotes) as (H & _).
  - vm_compute. lia.
  - apply (H example_normal_tree). by vm_compute.
Defined.

Lemma C10_witness :
  (_to_json_dumpable (recursion_limit example_env) (VRef 2%positive)
     example_store).1 = Ok (VRef 2%positive).
Proof.
  assert (is_ok (_to_json_dumpable (recursion_limit example_env)
                   (VRef 2%positive) example_store).1 = true) as Hok
    by (by vm_compute).
  destruct (_to_json_dumpable (recursion_limit example_env) (VRef 2%positive)
              example_store) as [res h'] eqn:Hrun.
  cbn [fst] in Hok. destruct res as [r|e]; [|done].
  destruct (C10_in_place example_env (VRef 2%positive) None empty_world
              example_tree r h' example_denotes Hrun) as (Hsame & _).
  destruct (Hsame 2%positive
              (OList [VLeaf (LDecimal (whole 3));
                      VTuple [VLeaf (LBytes [Byte.x68; Byte.x69]);
                              VRef 1%positive];
                      VLeaf (LDate (Date 2024 2 29))]) eq_refl eq_refl)
    as (-> & _).
  done.
Defined.

Lemma example_names :
  resolve_names example_env None None =
  (Ok (Names (str "/srv/proj/app/tests/unit/test_foo.py") (str "test_foo")
         (str "test_bar") example_path),
   Some (str "/srv/proj/app/tests/fixtures")).
Proof. by vm_compute. Qed.

Lemma pair_from_fst {A B} (x : A * B) (a : A) : x.1 = a -> x = (a, x.2).
Proof. destruct x. simpl. by intros ->. Qed.

Lemma C8_witness :
  exists body, example_text = body ++ [10%N] /\ ends_in_text body.
Proof.
  destruct (C8_json_format example_env (VRef 1%positive) empty_world
              example_text
              (dump_actual example_env (VRef 1%positive) empty_world).2)
    as ((r & tr & body & _ & _ & _ & Htext & Hends) & _).
  - apply pair_from_fst. vm_compute. reflexivity.
  - exists body. split; [exact Htext|exact Hends].
Defined.

Lemma C9_witness :
  (assert_equals_resultset example_env (VRef 1%positive) None
     matching_world).1 = Ok tt /\
  fs (assert_equals_resultset example_env (VRef 1%positive) None
        matching_world).2 = fs matching_world.
Proof.
  destruct (C9_match_passes example_env (VRef 1%positive) None matching_world
              _ _ example_text
              (dump_actual example_env (VRef 1%positive)
                 (World (fs matching_world) (store matching_world)
                    (Some (str "/srv/proj/app/tests/fixtures"))
                    (output matching_world))).2
              example_names) as (Hrun & Hfs & _).
  - vm_compute. reflexivity.
  - apply pair_from_fst. vm_compute. reflexivity.
  - split.
    + exact (f_equal fst Hrun).
    + exact (eq_trans (f_equal (fun x => fs x.2) Hrun) Hfs).
Defined.

Lemma C1_witness :
  (exists e, (assert_equals_resultset example_env (VRef 1%positive) None
                empty_world).1 = Raise e) /\
  exists fs1,
    _check_file_can_be_created example_path (fs empty_world) = (Ok tt, fs1) /\
    forall k,
      lookup_path fs1 (take k (parent (components example_path))) = Some Dir.
Proof.
  destruct (C1_missing_file_created example_env (VRef 1%positive) None
              empty_world _ _ example_names) as (Hfails & Hmade).
  - vm_compute. reflexivity.
  - split; [exact Hfails|].
    destruct Hmade as (fs1 & Hcheck & _ & Hdirs & _).
    + apply closedb_closed. vm_compute. reflexivity.
    + apply no_file_aboveb_no_file_above. vm_compute. reflexivity.
    + exists fs1. split; [exact Hcheck|exact Hdirs].
Defined.

(** The states of the first run on the list: after the directories are
    made, after the file is written, after the list is normalized. *)
Definition example_checked : filesystem :=
  (_check_file_can_be_created example_path (fs empty_world)).2.

Definition example_loaded : @world whole_runtime :=
  (load_expected example_path
     (World example_checked (store empty_world)
        (Some (str "/srv/proj/app/tests/fixtures")) (output empty_world))).2.

Definition example_dumped : @world whole_runtime :=
  (dump_actual example_env (VRef 2%positive) example_loaded).2.

Definition example_actual_json : pystr :=
  match (dump_actual example_env (VRef 2%positive) example_loaded).1 with
  | Ok text => text
  | Raise _ => []
  end.

Lemma C5_witness :
  (assert_equals_resultset example_env (VRef 2%positive) None empty_world).1 =
  Raise AssertionError.
Proof.
  destruct (C5_mismatch_reported example_env (VRef 2%positive) None
              empty_world _ _ example_checked None example_loaded
              example_actual_json example_dumped example_names)
    as (fs' & Hrun & _).
  - apply pair_from_fst. vm_compute. reflexivity.
  - apply pair_from_fst. vm_compute. reflexivity.
  - apply pair_from_fst. vm_compute. reflexivity.
  - discriminate.
  - apply closedb_closed. vm_compute. reflexivity.
  - apply no_file_aboveb_no_file_above. vm_compute. reflexivity.
  - vm_compute. discriminate.
  - vm_compute. discriminate.
  - exact (f_equal fst Hrun).
Defined.

(** ** Examples for the further properties *)

Lemma get_test_fixtures_dir_first_marker_witness :
  exists prefix rest,
    str "/home/tests/proj/app/tests/test_x.py" = prefix ++ str "/tests" ++ rest /\
    str "/home/tests/fixtures" = prefix ++ str "/tests/fixtures".
Proof.
  destruct (proj1 (get_test_fixtures_dir_first_marker
                     (str "/home/tests/proj/app/tests/test_x.py"))
              (str "/home/tests/fixtures")
              (Some (str "/home/tests/fixtures")))
    as (prefix & rest & H1 & _ & H2 & _).
  - vm_compute. reflexivity.
  - exists prefix, rest. split; [exact H1|exact H2].
Defined.

Lemma get_test_fixtures_dir_cached_witness :
  get_test_fixtures_dir (str "/elsewhere/x.py")
    (Some (str "/srv/proj/app/tests/fixtures")) =
  (Ok (str "/srv/proj/app/tests/fixtures"),
   Some (str "/srv/proj/app/tests/fixtures")).
Proof.
  apply (get_test_fixtures_dir_cached
           (str "/srv/proj/app/tests/unit/test_foo.py") (str "/elsewhere/x.py")
           (Ok (str "/srv/proj/app/tests/fixtures"))
           (Some (str "/srv/proj/app/tests/fixtures"))).
  vm_compute. reflexivity.
Defined.

Lemma _get_test_subdir_after_tests_witness :
  _get_test_subdir (str "/srv/proj")
    (str "/srv/proj/app/tests/unit/deep/test_foo.py") = Ok (str "unit/deep").
Proof.
  apply (proj1 (proj2 (_get_test_subdir_after_tests (str "/srv/proj")
                         (str "/srv/proj/app/tests/unit/deep/test_foo.py")))
           [[]; str "app"] [str "unit"; str "deep"]).
  - vm_compute. reflexivity.
  - intros H. apply list_elem_of_In in H. vm_compute in H.
    destruct H as [H|[H|[]]]; discriminate H.
Defined.

(** A file system with one file, [/etc], beside the root. *)
Definition other_fs : filesystem := <[[str "etc"] := File (str "x")]> ∅.

Lemma _check_file_can_be_created_only_adds_witness :
  lookup_path (_check_file_can_be_created example_path other_fs).2 [str "etc"] =
  Some (File (str "x")).
Proof.
  apply (proj1 (_check_file_can_be_created_only_adds example_path other_fs _ _
                  (surjective_pairing _))).
  vm_compute. reflexivity.
Defined.

Lemma _check_file_can_be_created_existing_witness :
  _check_file_can_be_created (str "/etc/a.json") other_fs = (Ok tt, other_fs).
Proof.
  apply (_check_file_can_be_created_existing (str "/etc/a.json") other_fs
           (File (str "x"))).
  - apply closedb_closed. vm_compute. reflexivity.
  - vm_compute. reflexivity.
  - vm_compute. reflexivity.
Defined.

Lemma _check_file_can_be_created_bare_name_witness :
  _check_file_can_be_created (str "a.json") other_fs =
  (Raise (OSError ENOENT), other_fs).
Proof.
  apply (_check_file_can_be_created_bare_name (str "a.json") other_fs).
  - intros H. apply list_elem_of_In in H. vm_compute in H.
    repeat (destruct H as [H|H]; [discriminate H|]). exact H.
  - vm_compute. reflexivity.
Defined.

Lemma _check_file_can_be_created_twice_witness :
  _check_file_can_be_created example_path example_checked =
  (Ok tt, example_checked).
Proof.
  apply (_check_file_can_be_created_twice example_path (fs empty_world)
           example_checked).
  - apply closedb_closed. vm_compute. reflexivity.
  - apply pair_from_fst. vm_compute. reflexivity.
Defined.

Lemma _to_json_dumpable_keeps_shapes_witness :
  exists o',
    (_to_json_dumpable 5 (VRef 2%positive) example_store).2 !! 2%positive =
      Some o' /\
    shape o' = inl 3%nat.
Proof.
  apply (_to_json_dumpable_keeps_shapes 5 (VRef 2%positive) example_store _ _
           (surjective_pairing _) 2%positive
           (OList [VLeaf (LDecimal (whole 3));
                   VTuple [VLeaf (LBytes [Byte.x68; Byte.x69]);
                           VRef 1%positive];
                   VLeaf (LDate (Date 2024 2 29))])).
  vm_compute. reflexivity.
Defined.

(** A list that holds itself. *)
Definition looping_store : gmap loc (@obj whole_runtime) :=
  <[1%positive := OList [VRef 1%positive]]> ∅.

Lemma _to_json_dumpable_self_reference_witness :
  _to_json_dumpable 50 (VRef 1%positive) looping_store =
  (Raise RecursionError, looping_store).
Proof.
  apply (_to_json_dumpable_self_reference 50 1%positive
           (OList [VRef 1%positive]) looping_store).
  - vm_compute. reflexivity.
  - reflexivity.
Defined.

(** A list of a decimal and of a byte that is not UTF-8. *)
Definition broken_store : gmap loc (@obj whole_runtime) :=
  <[1%positive := OList [VLeaf (LDecimal (whole 3));
                         VLeaf (LBytes [Byte.xff])]]> ∅.

Lemma _to_json_dumpable_not_atomic_witness :
  _to_json_dumpable 2 (VRef 1%positive) broken_store =
  (Raise UnicodeDecodeError,
   <[1%positive := OList [VLeaf (LFloat (whole_float 3));
                          VLeaf (LBytes [Byte.xff])]]> broken_store).
Proof.
  apply (_to_json_dumpable_not_atomic 0 1%positive broken_store (whole 3)
           (whole_float 3) [Byte.xff] UnicodeDecodeError []).
  - vm_compute. reflexivity.
  - reflexivity.
  - vm_compute. reflexivity.
Defined.

(** The file of the result set as a first run leaves it. *)
Definition placeholder_world : @world whole_runtime :=
  World (<[components example_path := File (str "{}")]> ∅) example_store
    None [].

Lemma placeholder_never_matches_witness :
  exists e,
    (assert_equals_resultset example_env (VRef 1%positive) None
       placeholder_world).1 = Raise e.
Proof.
  apply (placeholder_never_matches example_env (VRef 1%positive) None
           placeholder_world _ _ example_names).
  vm_compute. reflexivity.
Defined.

Definition other_world : @world whole_runtime :=
  World other_fs example_store None [].

Lemma assert_equals_resultset_touches_witness :
  is_Some (fs (assert_equals_resultset example_env (VRef 2%positive) None
                 other_world).2 !! [str "etc"]).
Proof.
  apply (proj1 (assert_equals_resultset_touches example_env (VRef 2%positive)
                  None other_world _ _ _ _ example_names
                  (surjective_pairing _) [str "etc"])).
  exists (File (str "x")). vm_compute. reflexivity.
Defined.

Lemma _to_json_dumpable_raises_witness :
  UnicodeDecodeError = RecursionError \/
  UnicodeDecodeError = UnicodeDecodeError \/
  exists d, @float_of_decimal whole_runtime d = Raise UnicodeDecodeError.
Proof.
  apply (_to_json_dumpable_raises 2 (VRef 1%positive) broken_store
           UnicodeDecodeError
           (_to_json_dumpable 2 (VRef 1%positive) broken_store).2).
  apply pair_from_fst. vm_compute. reflexivity.
Defined.

(** The state a first run on the list leaves behind. *)
Definition example_failed : @world whole_runtime :=
  (assert_equals_resultset example_env (VRef 2%positive) None empty_world).2.

Definition example_tmp_path : pystr :=
  tmp_actual_path (ROOT_DIR example_env) (str "test_foo") (str "test_bar").

Lemma example_first_run_fails :
  (assert_equals_resultset example_env (VRef 2%positive) None empty_world).1 =
  Raise AssertionError.
Proof. vm_compute. reflexivity. Qed.

Lemma accepting_actual_passes_witness :
  exists text,
    lookup_path (fs example_failed) (components example_tmp_path) =
      Some (File text) /\
    (assert_equals_resultset example_env (VRef 2%positive) None
       (World (<[components example_path := File text]> (fs example_failed))
          (store empty_world) (fixture_dir empty_world) [])).1 = Ok tt.
Proof.
  destruct (accepting_actual_passes example_env (VRef 2%positive) None
              empty_world example_failed _ _ [] ltac:(intros d H; discriminate H)
              example_names) as (text & Hfile & Hpass).
  - exact (pair_from_fst _ _ example_first_run_fails).
  - exists text. split; [exact Hfile|exact (f_equal fst Hpass)].
Defined.

Lemma datetime_text_injective_witness :
  exists s,
    _to_json_dumpable (RT := whole_runtime) 1
      (VLeaf (LDateTime (DateTime (Date 2024 2 29) 13 5 9 42))) ∅ =
      (Ok (VLeaf (LStr s)), ∅) /\
    length s = 26%nat.
Proof.
  apply (proj2 (datetime_text_injective (RT := whole_runtime) 0 ∅
                  (DateTime (Date 2024 2 29) 13 5 9 42)
                  (DateTime (Date 2024 2 29) 13 5 9 42) eq_refl eq_refl)).
Defined.
